(** * A shallow embedding of the runner: locator, verifier, recovery, orchestrator

    The Python sources under [runner/] are embedded as Rocq functions.
    - Text is modelled by [string]: a sequence of code points below 256
      (the Latin-1 range), one [ascii] per code point; text with other code
      points is outside the model.  The string methods the code uses
      ([lower], [strip], [in], [len], [join]) are written out in [PyStr]
      as Python has them on that range.
    - Scores are exact rationals ([Q]); the weights are the decimal
      constants of the source.  The source adds and compares them as
      binary64 numbers, which agrees with the exact order wherever two
      scores differ by more than the rounding error; the statements that
      compare scores keep to such margins.  The containment test of the
      dialog adjustment, whose sums decide by themselves, is computed in
      binary64.
    - An element record of a perception snapshot is a [Record] whose
      nullable entries are [option]s, read the way the source reads them
      ([el.get(k) or default]).
    - The browser page, the file system and the clock form an abstract
      world that is threaded through the effectful functions together with
      a chronological trace of the collaborator calls. *)

From Stdlib Require Import List String Ascii Bool Arith ZArith QArith Lia Lqa.
From Stdlib Require Import Permutation Sorted Qround.
From Stdlib Require SpecFloat.
Import ListNotations.

Local Open Scope string_scope.

(* ===================================================================== *)
(** ** Python string operations *)
(* ===================================================================== *)

Module PyStr.

(** Truthiness of a string: [bool(s)]. *)
Definition truthy (s : string) : bool :=
  match s with
  | EmptyString => false
  | String _ _ => true
  end.

(** [s or d] for a nullable string. *)
Definition or_empty (o : option string) : string :=
  match o with
  | Some s => s
  | None => ""
  end.

(** [str.lower] on one code point below 256: the letters A-Z, and the
    letters 0xC0-0xDE apart from the multiplication sign 0xD7, move up by
    32; every other code point stays (the lowercase of none of them lies
    outside the range or takes more than one code point). *)
Definition lower_ascii (c : ascii) : ascii :=
  let n := nat_of_ascii c in
  if ((65 <=? n)%nat && (n <=? 90)%nat)
     || ((192 <=? n)%nat && (n <=? 222)%nat && negb (n =? 215)%nat)
  then ascii_of_nat (n + 32) else c.

(** [s.lower()]. *)
Fixpoint lower (s : string) : string :=
  match s with
  | EmptyString => EmptyString
  | String c s' => String (lower_ascii c) (lower s')
  end.

(** The characters [str.strip()] removes: TAB, LF, VT, FF, CR, the four
    separators 0x1c-0x1f, the space, the next-line control 0x85 and the
    no-break space 0xA0. *)
Definition is_space (c : ascii) : bool :=
  let n := nat_of_ascii c in
  ((9 <=? n)%nat && (n <=? 13)%nat) || ((28 <=? n)%nat && (n <=? 32)%nat)
  || (n =? 133)%nat || (n =? 160)%nat.

Fixpoint lstrip (s : string) : string :=
  match s with
  | EmptyString => EmptyString
  | String c s' => if is_space c then lstrip s' else s
  end.

Fixpoint rstrip (s : string) : string :=
  match s with
  | EmptyString => EmptyString
  | String c s' =>
      match rstrip s' with
      | EmptyString => if is_space c then EmptyString else String c EmptyString
      | r => String c r
      end
  end.

(** [s.strip()]. *)
Definition strip (s : string) : string := rstrip (lstrip s).

(** [k in s] for strings. *)
Fixpoint contains (k s : string) : bool :=
  String.prefix k s
  || match s with
     | EmptyString => false
     | String _ s' => contains k s'
     end.

(** [any(k in s for k in ks)]. *)
Definition contains_any (ks : list string) (s : string) : bool :=
  existsb (fun k => contains k s) ks.

(** [x in xs] for a tuple or list of strings. *)
Definition mem (x : string) (xs : list string) : bool :=
  existsb (String.eqb x) xs.

(** [join] with a single space as separator. *)
Definition join_space (xs : list string) : string := String.concat " " xs.

(** [s[n:]]. *)
Fixpoint drop (n : nat) (s : string) : string :=
  match n, s with
  | O, _ => s
  | S n', String _ s' => drop n' s'
  | S _, EmptyString => EmptyString
  end.

(** The longest prefix of [s] that does not contain [q], and what follows. *)
Fixpoint span_not (q : ascii) (s : string) : string * string :=
  match s with
  | EmptyString => (EmptyString, EmptyString)
  | String c s' =>
      if Ascii.eqb c q then (EmptyString, s)
      else let '(body, rest) := span_not q s' in (String c body, rest)
  end.

(** One alternative of the quoted-literal pattern, after its opening quote
    [q] has been read: between 1 and 200 characters other than [q], then [q].  The class is greedy and cannot give
    characters back (the next one would have to be [q]), so the alternative
    matches exactly when the run of non-[q] characters has between 1 and 200
    characters and is followed by [q]. *)
Definition quoted_body (q : ascii) (s : string) : option (string * string) :=
  let '(body, rest) := span_not q s in
  match rest with
  | String _ rest' =>
      if (1 <=? String.length body)%nat && (String.length body <=? 200)%nat
      then Some (body, rest')
      else None
  | EmptyString => None
  end.

Definition squote : ascii := ascii_of_nat 39.
Definition dquote : ascii := ascii_of_nat 34.

(** [finditer] of the quoted-literal pattern (a single-quoted or a
    double-quoted run of 1 to 200 characters): leftmost matches, one after
    the other, each search resuming where the previous match ended.
    Every step consumes at least one character, so [fuel = len(s)] is
    enough. The result lists [(m.group(1) or m.group(2)).strip()]. *)
Fixpoint finditer_quoted (fuel : nat) (s : string) : list string :=
  match fuel with
  | O => []
  | S fuel' =>
      match s with
      | EmptyString => []
      | String c s' =>
          if Ascii.eqb c squote || Ascii.eqb c dquote then
            match quoted_body c s' with
            | Some (body, rest) => strip body :: finditer_quoted fuel' rest
            | None => finditer_quoted fuel' s'
            end
          else finditer_quoted fuel' s'
      end
  end.

(** [\w] of a text pattern: the alphanumeric code points and the
    underscore.  Below 256 these are the digits, the letters A-Z and a-z,
    and, above 127, the ordinal indicators 0xAA and 0xBA, the superscript
    digits 0xB2, 0xB3 and 0xB9, the micro sign 0xB5, the fractions
    0xBC-0xBE and the letters 0xC0-0xFF apart from the multiplication and
    division signs 0xD7 and 0xF7. *)
Definition is_word (c : ascii) : bool :=
  let n := nat_of_ascii c in
  ((48 <=? n)%nat && (n <=? 57)%nat) || ((65 <=? n)%nat && (n <=? 90)%nat)
  || ((97 <=? n)%nat && (n <=? 122)%nat) || (n =? 95)%nat
  || (n =? 170)%nat || (n =? 186)%nat
  || (n =? 178)%nat || (n =? 179)%nat || (n =? 185)%nat
  || (n =? 181)%nat
  || ((188 <=? n)%nat && (n <=? 190)%nat)
  || ((192 <=? n)%nat && (n <=? 255)%nat
      && negb (n =? 215)%nat && negb (n =? 247)%nat).

Definition opt_word (o : option ascii) : bool :=
  match o with
  | Some c => is_word c
  | None => false
  end.

Definition head_char (s : string) : option ascii :=
  match s with
  | EmptyString => None
  | String c _ => Some c
  end.

Fixpoint last_char (d : option ascii) (s : string) : option ascii :=
  match s with
  | EmptyString => d
  | String c s' => last_char (Some c) s'
  end.

(** [\b] between a character (or the start) and the next one (or the end). *)
Definition boundary (before after : option ascii) : bool :=
  xorb (opt_word before) (opt_word after).

(** [re.sub] of the literal word [w], between two word boundaries, by
    [base]; [prev] is the character of the subject just before [s]. *)
Fixpoint sub_word_from (fuel : nat) (w base : string) (prev : option ascii)
  (s : string) : string :=
  match fuel with
  | O => s
  | S fuel' =>
      match s with
      | EmptyString => EmptyString
      | String c s' =>
          let after := drop (String.length w) s in
          if String.prefix w s
             && boundary prev (Some c)
             && boundary (last_char prev w) (head_char after)
          then base ++ sub_word_from fuel' w base (last_char prev w) after
          else String c (sub_word_from fuel' w base (Some c) s')
      end
  end.

Definition sub_word (w base s : string) : string :=
  match w with
  | EmptyString => s
  | _ => sub_word_from (String.length s) w base None s
  end.

(** The character class [[a-z0-9+]]. *)
Definition is_token_char (c : ascii) : bool :=
  let n := nat_of_ascii c in
  ((97 <=? n)%nat && (n <=? 122)%nat) || ((48 <=? n)%nat && (n <=? 57)%nat)
  || (n =? 43)%nat.

Definition flush (cur : string) : list string :=
  match cur with
  | EmptyString => []
  | _ => [cur]
  end.

(** [re.findall] of the pattern [[a-z0-9+]+]: the maximal runs, left to
    right; [cur] is the run being read. *)
Fixpoint findall_runs (cur : string) (s : string) : list string :=
  match s with
  | EmptyString => flush cur
  | String c s' =>
      if is_token_char c then findall_runs (cur ++ String c EmptyString) s'
      else flush cur ++ findall_runs EmptyString s'
  end.

End PyStr.

(* ===================================================================== *)
(** ** difflib.SequenceMatcher(None, a, b).ratio() *)
(* ===================================================================== *)

(** The similarity ratio comes from Python's standard library, not from the
    repository.  The scoring theorems below are stated for any ratio
    function with values in the unit interval; this module gives the
    concrete matcher (longest matching block, recursively to its left and
    to its right, with the automatic junk heuristic for long second
    arguments) so that scores can be computed on concrete snapshots. *)

Module Difflib.

Section Matcher.

Variables a b : list ascii.

Definition zero : ascii := Ascii.zero.

(** [autojunk]: when [b] has at least 200 elements, those occurring more
    than [len(b) // 100 + 1] times are removed from the index [b2j]. *)
Definition popular (c : ascii) : bool :=
  (200 <=? List.length b)%nat
  && (List.length b / 100 + 1 <? count_occ ascii_dec b c)%nat.

Section Window.

Variables alo ahi blo bhi : nat.

(** [j2len] after the first [n] elements of [a[alo:ahi]]: the length of the
    longest match of indexed elements ending with [a[alo+n-1]] and [b[j]]
    (absent keys read as 0). *)
Fixpoint j2len (n j : nat) : nat :=
  match n with
  | O => 0
  | S n' =>
      if (blo <=? j)%nat && (j <? bhi)%nat
         && Ascii.eqb (nth j b zero) (nth (alo + n') a zero)
         && negb (popular (nth j b zero))
      then S (match j with O => 0 | S j' => j2len n' j' end)
      else 0
  end.

Definition better (i j : nat) (k : nat) (best : nat * nat * nat) : nat * nat * nat :=
  let '(_, _, bestsize) := best in
  if (bestsize <? k)%nat then ((i + 1 - k)%nat, (j + 1 - k)%nat, k) else best.

(** The two nested loops of [find_longest_match]. *)
Definition scan_row (n : nat) (best : nat * nat * nat) : nat * nat * nat :=
  fold_left (fun acc j => better (alo + n) j (j2len (S n) j) acc)
            (seq 0 (List.length b)) best.

Definition scan_rows : nat * nat * nat :=
  fold_left (fun acc n => scan_row n acc) (seq 0 (ahi - alo)) (alo, blo, 0%nat).

(** The extension loops over elements that are not junk (no element is). *)
Fixpoint extend_left (fuel : nat) (m : nat * nat * nat) : nat * nat * nat :=
  match fuel with
  | O => m
  | S fuel' =>
      let '(i, j, k) := m in
      if (alo <? i)%nat && (blo <? j)%nat
         && Ascii.eqb (nth (i - 1) a zero) (nth (j - 1) b zero)
      then extend_left fuel' ((i - 1)%nat, (j - 1)%nat, S k)
      else m
  end.

Fixpoint extend_right (fuel : nat) (m : nat * nat * nat) : nat * nat * nat :=
  match fuel with
  | O => m
  | S fuel' =>
      let '(i, j, k) := m in
      if (i + k <? ahi)%nat && (j + k <? bhi)%nat
         && Ascii.eqb (nth (i + k) a zero) (nth (j + k) b zero)
      then extend_right fuel' (i, j, S k)
      else m
  end.

Definition find_longest_match : nat * nat * nat :=
  extend_right ahi (extend_left ahi scan_rows).

End Window.

(** The total size of the blocks of [get_matching_blocks]: the longest block
    of the window, then the windows to its left and to its right. *)
Fixpoint matched (fuel : nat) (alo ahi blo bhi : nat) : nat :=
  match fuel with
  | O => 0
  | S fuel' =>
      let '(i, j, k) := find_longest_match alo ahi blo bhi in
      match k with
      | O => 0
      | S _ =>
          k
          + (if (alo <? i)%nat && (blo <? j)%nat
             then matched fuel' alo i blo j else 0)
          + (if (i + k <? ahi)%nat && (j + k <? bhi)%nat
             then matched fuel' (i + k) ahi (j + k) bhi else 0)
      end
  end.

Definition matches : nat := matched (S (List.length a)) 0 (List.length a) 0 (List.length b).

End Matcher.

(** [2.0 * matches / length], and [1.0] for two empty sequences. *)
Definition ratio (a b : string) : Q :=
  let la := list_ascii_of_string a in
  let lb := list_ascii_of_string b in
  match (List.length la + List.length lb)%nat with
  | O => 1
  | S _ as t => Z.of_nat (2 * matches la lb) # Pos.of_nat t
  end.

End Difflib.

(* ===================================================================== *)
(** ** Python floats *)
(* ===================================================================== *)

(** A Python [float] is a binary64 number: 53 bits of precision, rounding
    to nearest with ties to even, as specified by the standard library's
    [SpecFloat]. *)
Module Binary64.

Definition prec : Z := 53.
Definition emax : Z := 1024.

Definition float : Type := SpecFloat.spec_float.

(** The binary64 number nearest to [num / den]. *)
Definition round_quotient (negative : bool) (num den : positive) : float :=
  let '(m, e, l) := SpecFloat.SFdiv_core_binary prec emax (Zpos num) 0 (Zpos den) 0 in
  SpecFloat.binary_round_aux prec emax negative m e l.

(** [float(v)] for a number read from JSON, given by its value: the value
    itself when it is a binary64 number, the nearest one otherwise (an
    integer above 2^53, a decimal literal). *)
Definition of_Q (q : Q) : float :=
  match Qnum q with
  | Z0 => SpecFloat.S754_zero false
  | Zpos p => round_quotient false p (Qden q)
  | Zneg p => round_quotient true p (Qden q)
  end.

Definition add : float -> float -> float := SpecFloat.SFadd prec emax.

(** [a <= b]. *)
Definition leb : float -> float -> bool := SpecFloat.SFleb.

End Binary64.

(* ===================================================================== *)
(** ** runner/locator.py *)
(* ===================================================================== *)

(** The similarity ratio of the standard library, as an interface: a
    function on two strings with values in the unit interval. *)
Class Similarity := {
  sm_ratio : string -> string -> Q;
  sm_ratio_range : forall a b : string, 0 <= sm_ratio a b <= 1
}.

Module Locator.

Import PyStr.

(** One element of a perception snapshot (a JSON object); an entry that
    is missing or [null] is [None].  A coordinate is the finite number that
    reading the file gave (an integer or a binary64 number), taken as the
    rational it denotes. *)
Record Element := {
  el_tag : option string;
  el_role : option string;
  el_text : option string;
  el_aria_label : option string;
  el_title : option string;
  el_tooltip : option string;
  el_visible : bool;
  el_x : option Q;
  el_y : option Q;
  el_width : option Q;
  el_height : option Q
}.

Definition Bounds : Type := Q * Q * Q * Q.

Definition SYNONYMS : list (string * list string) :=
  [ ("click", ["press"; "tap"; "select"; "choose"]);
    ("open", ["navigate"; "go to"]);
    ("create", ["new"; "add"; "+"]);
    ("delete", ["remove"; "trash"; "discard"]);
    ("settings", ["preferences"; "options"]);
    ("name", ["title"]);
    ("project", ["projects"]) ].

Definition STOPWORDS : list string :=
  [ "the"; "a"; "an"; "to"; "on"; "in"; "of"; "for"; "with"; "and"; "or";
    "by"; "is"; "be"; "button"; "option"; "menu"; "item"; "page"; "view";
    "prompt"; "dialog"; "modal" ].

Definition _extract_quoted (s : string) : list string :=
  finditer_quoted (String.length s) s.

Definition _normalize_intent (intent : string) : string :=
  fold_left
    (fun s '(base, words) => fold_left (fun s w => sub_word w base s) words s)
    SYNONYMS (lower intent).

Definition _tokens (s : string) : list string :=
  filter (fun t => negb (mem t STOPWORDS)) (findall_runs "" (lower s)).

Definition Qltb (p q : Q) : bool := negb (Qle_bool q p).

(** [float(v or 0)]. *)
Definition num (o : option Q) : Q :=
  match o with
  | Some q => q
  | None => 0
  end.

Definition Qmax0 (q : Q) : Q := if Qle_bool 0 q then q else 0.

Section Scoring.

Context {sim : Similarity}.

Definition _ratio (a b : string) : Q :=
  if negb (truthy a) || negb (truthy b) then 0 else sm_ratio a b.

Definition _fieldwise_fuzzy (intent_norm : string) (fields : list string) : Q :=
  fold_left
    (fun best f =>
       if negb (truthy f) then best
       else
         let r := _ratio intent_norm (lower f) in
         if Qltb best r then r else best)
    fields 0.

(** [len(set(intent_tokens) & set(el_tokens)) / max(1, len(set(intent_tokens)))]. *)
Definition _token_overlap (intent_tokens el_tokens : list string) : Q :=
  match intent_tokens with
  | [] => 0
  | _ =>
      let distinct := nodup string_dec intent_tokens in
      let common := filter (fun t => mem t el_tokens) distinct in
      Z.of_nat (List.length common) # Pos.of_nat (Nat.max 1 (List.length distinct))
  end.

(** The largest element of role dialog (by area) that is more than 10 wide
    and more than 10 high. *)
Definition _find_dialog_bounds (perceived : list Element) : option Bounds :=
  fst
    (fold_left
       (fun acc el =>
          let '(best, best_area) := acc in
          if lower (or_empty (el_role el)) =? "dialog" then
            let x := num (el_x el) in
            let y := num (el_y el) in
            let w := num (el_width el) in
            let h := num (el_height el) in
            let area := Qmax0 w * Qmax0 h in
            if Qltb best_area area && Qltb 10 w && Qltb 10 h
            then (Some (x, y, w, h), area)
            else (best, best_area)
          else (best, best_area))
       perceived (None, 0)).

(** The four comparisons are made on floats, and the two sums of each of
    the last two are rounded before they are compared. *)
Definition _inside (bounds : Bounds) (el : Element) : bool :=
  let '(x, y, w, h) := bounds in
  let x := Binary64.of_Q x in
  let y := Binary64.of_Q y in
  let w := Binary64.of_Q w in
  let h := Binary64.of_Q h in
  let ex := Binary64.of_Q (num (el_x el)) in
  let ey := Binary64.of_Q (num (el_y el)) in
  let ew := Binary64.of_Q (num (el_width el)) in
  let eh := Binary64.of_Q (num (el_height el)) in
  Binary64.leb x ex && Binary64.leb y ey
  && Binary64.leb (Binary64.add ex ew) (Binary64.add x w)
  && Binary64.leb (Binary64.add ey eh) (Binary64.add y h).

Definition _score_element (intent_norm : string) (intent_tokens quoted : list string)
  (el : Element) (dialog_bounds : option Bounds) : Q :=
  let text := strip (or_empty (el_text el)) in
  let aria := strip (or_empty (el_aria_label el)) in
  let title := strip (or_empty (el_title el)) in
  let tip := strip (or_empty (el_tooltip el)) in
  let role := lower (or_empty (el_role el)) in
  let tag := lower (or_empty (el_tag el)) in
  (* Skip elements that have no label-ish content at all *)
  if negb (existsb truthy [text; aria; title; tip]) then -1
  else
    let fields := [text; aria; title; tip] in
    let fuzzy := _fieldwise_fuzzy intent_norm fields in
    let el_tokens := _tokens (join_space fields) in
    let overlap := _token_overlap intent_tokens el_tokens in
    let score := 0.55 * fuzzy + 0.35 * overlap in
    (* Role-aware boosts *)
    let score :=
      if contains_any ["click"; "open"; "create"; "delete"; "submit"] intent_norm
      then
        let score := if mem role ["button"; "menuitem"; "link"] then score + 0.06 else score in
        if mem tag ["button"; "a"] then score + 0.03 else score
      else score in
    let score :=
      if contains "fill" intent_norm || contains "input" intent_norm
         || contains "type" intent_norm
      then
        if mem role ["textbox"; "combobox"] || mem tag ["input"; "textarea"]
        then score + 0.10 else score
      else score in
    (* Dialog-aware adjustment *)
    let score :=
      match dialog_bounds with
      | Some bounds => if _inside bounds el then score + 0.08 else score - 0.04
      | None => score
      end in
    (* Quoted label super-boost (exact match on any field) *)
    let score :=
      match quoted with
      | q0 :: _ =>
          let q := lower q0 in
          if truthy q && existsb (fun f => q =? lower (strip f)) fields
          then score + 0.30 else score
      | [] => score
      end in
    (* Penalize very long blobs (likely containers) *)
    let long_text :=
      (120 <? String.length text)%nat
      || (160 <? String.length (join_space fields))%nat in
    if long_text then score - 0.05 else score.

(** The terms of the score one by one (the feature vector of the scoring
    formula), for stating what each adjustment contributes. *)
Definition fields_of (el : Element) : list string :=
  [ strip (or_empty (el_text el)); strip (or_empty (el_aria_label el));
    strip (or_empty (el_title el)); strip (or_empty (el_tooltip el)) ].

(** The element carries a label: some field is not empty once trimmed. *)
Definition labeled (el : Element) : bool := existsb truthy (fields_of el).

Definition base_term (intent_norm : string) (intent_tokens : list string)
  (el : Element) : Q :=
  0.55 * _fieldwise_fuzzy intent_norm (fields_of el)
  + 0.35 * _token_overlap intent_tokens (_tokens (join_space (fields_of el))).

Definition signals_activation (intent_norm : string) : bool :=
  contains_any ["click"; "open"; "create"; "delete"; "submit"] intent_norm.

Definition signals_fill (intent_norm : string) : bool :=
  contains "fill" intent_norm || contains "input" intent_norm
  || contains "type" intent_norm.

Definition role_term (intent_norm : string) (el : Element) : Q :=
  let role := lower (or_empty (el_role el)) in
  let tag := lower (or_empty (el_tag el)) in
  (if signals_activation intent_norm
   then (if mem role ["button"; "menuitem"; "link"] then 0.06 else 0)
        + (if mem tag ["button"; "a"] then 0.03 else 0)
   else 0)
  + (if signals_fill intent_norm
     then if mem role ["textbox"; "combobox"] || mem tag ["input"; "textarea"]
          then 0.10 else 0
     else 0).

Definition dialog_term (dialog_bounds : option Bounds) (el : Element) : Q :=
  match dialog_bounds with
  | Some bounds => if _inside bounds el then 0.08 else - 0.04
  | None => 0
  end.

(** The first quoted literal, lowercased, is not empty and equals one of
    the four trimmed, lowercased fields. *)
Definition literal_match (quoted : list string) (el : Element) : bool :=
  match quoted with
  | q0 :: _ =>
      truthy (lower q0)
      && existsb (fun f => lower q0 =? lower (strip f)) (fields_of el)
  | [] => false
  end.

Definition literal_term (quoted : list string) (el : Element) : Q :=
  if literal_match quoted el then 0.30 else 0.

Definition long_text (el : Element) : bool :=
  (120 <? String.length (strip (or_empty (el_text el))))%nat
  || (160 <? String.length (join_space (fields_of el)))%nat.

Definition length_term (el : Element) : Q :=
  if long_text el then - 0.05 else 0.

(** [list.sort(key=lambda x: x[0], reverse=True)]: a stable sort, by
    decreasing score; elements of equal score keep their order. *)
Fixpoint insert_desc (p : Q * Element) (l : list (Q * Element)) : list (Q * Element) :=
  match l with
  | [] => [p]
  | q :: l' => if Qltb (fst p) (fst q) then q :: insert_desc p l' else p :: l
  end.

Definition sort_desc (l : list (Q * Element)) : list (Q * Element) :=
  fold_right insert_desc [] l.

(** The scoring loop shared by the two public functions. *)
Definition score_all (intent : string) (perceived : list Element) : list (Q * Element) :=
  let intent_norm := _normalize_intent intent in
  let intent_tokens := _tokens intent_norm in
  let quoted := _extract_quoted intent in
  let dialog_bounds := _find_dialog_bounds perceived in
  fold_right
    (fun el scored =>
       let s := _score_element intent_norm intent_tokens quoted el dialog_bounds in
       if Qltb (-1) s then (s, el) :: scored else scored)
    [] perceived.

(** [perception] is what reading the snapshot file gave: [None] when the
    file could not be read. *)
Definition locate_element_for_intent (intent : string)
  (perception : option (list Element)) : option Element :=
  match perception with
  | None => None
  | Some perceived =>
      match score_all intent perceived with
      | [] => None
      | scored =>
          match sort_desc scored with
          | (_, best_el) :: _ => Some best_el
          | [] => None
          end
      end
  end.

Definition locate_top_candidates (intent : string)
  (perception : option (list Element)) (k : Z) : list Element :=
  match perception with
  | None => []
  | Some perceived =>
      match score_all intent perceived with
      | [] => []
      | scored => map snd (firstn (Z.to_nat (Z.max 1 k)) (sort_desc scored))
      end
  end.

End Scoring.

End Locator.

(* ===================================================================== *)
(** ** The live surface and the trace of collaborator calls *)
(* ===================================================================== *)

(** What the executor returns (a JSON-shaped dictionary). *)
Record ExecResult := {
  status : string;
  action : string;
  label : option string;
  aria_label : option string;
  used_text : option string;
  tag : option string;
  error : option string
}.

(** A call of [execute_action] returns a result or raises. *)
Inductive ExecOutcome :=
| Raised
| Returned (r : ExecResult).

(** What reading the text of the first dialog gives. *)
Inductive DialogText :=
| DialogFault
| NoDialog
| InnerText (txt : string).

(** The external collaborators: the page driven through the automation
    library, the perception source, the executor and the step directory.
    [World] is everything they can observe or change.  The calls that the
    source wraps in a handler of their own always return; the executor
    returns or raises, and so does the perception source, which is called
    outside any handler. *)
Class Surface := {
  World : Type;
  (* recovery nudges; their own faults are swallowed in the source *)
  page_gentle_stabilize : World -> World;
  page_close_easy_popups : World -> World;
  page_press_escape : World -> World;
  (* [wait_for_selector] on the dialog role: [false] when it raised *)
  page_wait_for_dialog : Z -> World -> bool * World;
  page_dialog_text : World -> DialogText * World;
  (* perception: writes [perception.json] of the step directory *)
  capture_perception : Z -> World -> World;
  (* whether that call, made in this world, raises (the page is gone, the
     step directory cannot be written) *)
  perception_raises : Z -> World -> bool;
  (* reading that file back; [None] when it cannot be read *)
  read_perception : Z -> World -> option (list Locator.Element);
  (* executor *)
  execute_action : Locator.Element -> string -> Z -> World -> ExecOutcome * World;
  (* the remaining probes of the verifier *)
  verify_url_contains : string -> World -> bool * World;
  verify_textbox_value : string -> World -> bool * World;
  first_textbox_exists : World -> bool * World;
  verify_element_exists : string -> string -> World -> bool * World;
  verify_text_visible : string -> World -> bool * World
}.

(** The record written to [step.json]. *)
Record ExecMeta := {
  m_action : string;
  m_used_text : option string;
  m_tag : option string;
  m_label : option string;
  m_aria_label : option string;
  m_error : option string
}.

Record StepRecord := {
  step_id : Z;
  r_intent : string;
  r_expected_state : string;
  executor_status : string;
  verified : bool;
  executor_meta : option ExecMeta
}.

Inductive Event :=
| EvStabilize
| EvWaitDialog (timeout_ms : Z)
| EvDialogText
| EvClosePopups
| EvEscape
| EvPerceive (step : Z)
| EvExecute (step : Z) (el : Locator.Element)
| EvUrlContains (fragment : string)
| EvTextboxValue (expected : string)
| EvFirstTextbox
| EvElementExists (role name : string)
| EvTextVisible (text : string)
| EvPersist (r : StepRecord)
| EvSleep.

Section Effects.

Context {surface : Surface}.

(** The state threaded through the effectful code: the world and the
    chronological trace of what was done to it. *)
Record St := {
  world : World;
  trace : list Event
}.

Definition M (A : Type) : Type := St -> A * St.

Definition ret {A} (a : A) : M A := fun st => (a, st).

Definition bind {A B} (m : M A) (k : A -> M B) : M B :=
  fun st => let '(a, st') := m st in k a st'.

(** A collaborator call that changes the world, recorded as [e]. *)
Definition act (e : Event) (f : World -> World) : M unit :=
  fun st => (tt, {| world := f (world st); trace := trace st ++ [e] |}).

(** A collaborator call that also answers. *)
Definition ask {A} (e : Event) (f : World -> A * World) : M A :=
  fun st =>
    let '(a, w) := f (world st) in
    (a, {| world := w; trace := trace st ++ [e] |}).

(** Reading the world leaves no trace. *)
Definition look {A} (f : World -> A) : M A := fun st => (f (world st), st).

End Effects.

Declare Scope eff_scope.
Delimit Scope eff_scope with eff.
Notation "x <- m ;; k" := (bind m (fun x => k))
  (at level 61, m at next level, right associativity) : eff_scope.
Notation "m ;;; k" := (bind m (fun _ => k))
  (at level 61, right associativity) : eff_scope.

(* ===================================================================== *)
(** ** runner/verifier.py *)
(* ===================================================================== *)

Module Verifier.

Import PyStr.
Local Open Scope eff_scope.

Section Router.

Context {surface : Surface}.

Definition _extract_all_quoted (s : string) : list string :=
  finditer_quoted (String.length s) s.

(** [verify_dialog_open(page, must_contain, timeout_ms=3000)]. *)
Definition verify_dialog_open (must_contain : option string) : M bool :=
  appeared <- ask (EvWaitDialog 3000) (page_wait_for_dialog 3000) ;;
  if negb appeared then ret false
  else
    match must_contain with
    | None => ret true
    | Some needle =>
        if negb (truthy needle) then ret true
        else
          dlg <- ask EvDialogText page_dialog_text ;;
          match dlg with
          | DialogFault => ret false
          | NoDialog => ret false
          | InnerText txt => ret (contains (lower needle) (lower txt))
          end
    end.

(** The last rule with literals: the first literal that is visible decides. *)
Fixpoint any_text_visible (quoted : list string) : M bool :=
  match quoted with
  | [] => ret false
  | q :: rest =>
      seen <- ask (EvTextVisible q) (verify_text_visible q) ;;
      if seen then ret true else any_text_visible rest
  end.

Definition verify_step (intent expected_state : string) : M bool :=
  let es := strip expected_state in
  let el := lower es in
  let quoted :=
    match _extract_all_quoted es with
    | [] => _extract_all_quoted intent
    | qs => qs
    end in
  (* 1) Dialog / Modal open *)
  if contains_any ["dialog"; "modal"; "prompt"] el then
    verify_dialog_open (hd_error quoted)
  else
  (* 2) URL checks *)
  match (if contains_any ["url"; "location"; "path"; "navigate"; "navigated"] el
         then hd_error quoted else None) with
  | Some fragment => ask (EvUrlContains fragment) (verify_url_contains fragment)
  | None =>
  (* 3) Field/Input/Textbox value checks *)
  if contains_any ["field"; "input"; "textbox"; "editor"] el
     && contains_any ["contains"; "set to"; "value"; "filled"] el then
    match hd_error quoted with
    | Some (String c t) =>
        ask (EvTextboxValue (String c t)) (verify_textbox_value (String c t))
    | _ => ask EvFirstTextbox first_textbox_exists
    end
  else
  (* 4) Element existence with role+name (button/link/menuitem/tab) *)
  match (if contains_any ["button"; "link"; "menuitem"; "tab"] el
         then hd_error quoted else None) with
  | Some name =>
      let role :=
        if contains "button" el then "button"
        else if contains "link" el then "link"
        else if contains "menuitem" el then "menuitem"
        else if contains "tab" el then "tab"
        else "button" in
      ask (EvElementExists role name) (verify_element_exists role name)
  | None =>
  (* 5) Generic visible/appears/shown/listed/present text *)
  match (if contains_any ["visible"; "appears"; "shown"; "displayed"; "listed"; "present"] el
         then hd_error quoted else None) with
  | Some q => ask (EvTextVisible q) (verify_text_visible q)
  | None =>
  (* 6) If we have any quoted text, try to see it on screen *)
  match quoted with
  | _ :: _ => any_text_visible quoted
  (* 7) Last resort: if nothing to assert, do not block the pipeline *)
  | [] => ret true
  end end end end.

End Router.

End Verifier.

(* ===================================================================== *)
(** ** runner/recovery.py *)
(* ===================================================================== *)

Module Recovery.

Import PyStr Locator.
Local Open Scope eff_scope.

(** [{recovered, attempts, result}]. *)
Record RecoveryResult := {
  recovered : bool;
  attempts : Z;
  result : option ExecResult
}.

(** Equality of two raw coordinates ([None == None] holds). *)
Definition coord_eqb (p q : option Q) : bool :=
  match p, q with
  | None, None => true
  | Some a, Some b => Qeq_bool a b
  | _, _ => false
  end.

Definition _is_same (a b : option Element) : bool :=
  match a, b with
  | Some a, Some b =>
      coord_eqb (el_x a) (el_x b) && coord_eqb (el_y a) (el_y b)
      && coord_eqb (el_width a) (el_width b)
      && coord_eqb (el_height a) (el_height b)
  | _, _ => false
  end.

(** The candidates in their order of trial: those that are not the
    previous element first; all of them when nothing else is left. *)
Definition order_candidates (previous_element : option Element)
  (candidates : list Element) : list Element :=
  match filter (fun el => negb (_is_same previous_element (Some el))) candidates with
  | [] => candidates
  | ordered => ordered
  end.

Section Machine.

Context {sim : Similarity} {surface : Surface}.

Definition _gentle_stabilize : M unit := act EvStabilize page_gentle_stabilize.

Definition _close_easy_popups : M unit := act EvClosePopups page_close_easy_popups.

Definition _wait_if_dialog_expected (intent expected : string) : M unit :=
  let text := lower (intent ++ " " ++ expected) in
  if contains_any ["dialog"; "modal"; "prompt"] text
  then _ <- ask (EvWaitDialog 2500) (page_wait_for_dialog 2500) ;; ret tt
  else ret tt.

(** Top candidates of the fresh snapshot, or the single best one. *)
Definition fresh_candidates (intent : string) (step_idx : Z) : M (list Element) :=
  perception <- look (read_perception step_idx) ;;
  match locate_top_candidates intent perception 5 with
  | [] =>
      match locate_element_for_intent intent perception with
      | Some el => ret [el]
      | None => ret []
      end
  | candidates => ret candidates
  end.

(** The loop over the ordered candidates: the first success ends it; a
    failure or a fault of the executor moves on to the next candidate. *)
Fixpoint try_candidates (ordered : list Element) (intent : string) (step_idx : Z)
  : M (option ExecResult) :=
  match ordered with
  | [] => ret None
  | el :: rest =>
      outcome <- ask (EvExecute step_idx el) (execute_action el intent step_idx) ;;
      match outcome with
      | Returned r =>
          if status r =? "success" then ret (Some r)
          else try_candidates rest intent step_idx
      | Raised => try_candidates rest intent step_idx
      end
  end.

(** 1) Stabilize, optional dialog wait, close popups: each of the three
    handles its own faults. *)
Definition prepare (intent expected : string) : M unit :=
  _gentle_stabilize ;;;
  _wait_if_dialog_expected intent expected ;;;
  _close_easy_popups.

(** Whether the perception of the round that begins in [st] raises: it is
    called right after the three nudges, outside any handler. *)
Definition perception_fails (step_idx : Z) (intent expected : string) (st : St)
  : bool :=
  perception_raises step_idx (world (snd (prepare intent expected st))).

(** 1) Stabilize, optional dialog wait, close popups; 2) re-perceive. *)
Definition refresh (step_idx : Z) (intent expected : string) : M unit :=
  _gentle_stabilize ;;;
  _wait_if_dialog_expected intent expected ;;;
  _close_easy_popups ;;;
  act (EvPerceive step_idx) (capture_perception step_idx).

(** One round: refresh, then 3) order the fresh candidates and try them. *)
Definition attempt_round (step_idx : Z) (intent expected : string)
  (previous_element : option Element) : M (option ExecResult) :=
  refresh step_idx intent expected ;;;
  candidates <- fresh_candidates intent step_idx ;;
  try_candidates (order_candidates previous_element candidates) intent step_idx.

(** [recover_step].  The result is [None] when an exception leaves the
    call.  That happens in two ways.  The function calls itself once per
    round, one frame inside the other, and the interpreter bounds the depth
    of the calls: [fuel] is the number of nested calls it still allows, and
    the call that would exceed it raises [RecursionError].  And the
    perception of a round may raise; no handler surrounds it, nor the
    recursive call. *)
Fixpoint recover_step (fuel : nat) (step_idx : Z) (intent expected : string)
  (previous_element : option Element) (attempt max_attempts : Z)
  (st : St) : option (RecoveryResult * St) :=
  match fuel with
  | O => None
  | S fuel' =>
      if (attempt >? max_attempts)%Z then
        Some ({| recovered := false; attempts := attempt - 1; result := None |}, st)
      else if perception_fails step_idx intent expected st then None
      else
        let '(found, st1) := attempt_round step_idx intent expected previous_element st in
        match found with
        | Some r =>
            Some ({| recovered := true; attempts := attempt; result := Some r |}, st1)
        | None =>
            let '(_, st2) := act EvEscape page_press_escape st1 in
            recover_step fuel' step_idx intent expected previous_element
              (attempt + 1) max_attempts st2
        end
  end.

End Machine.

End Recovery.

(* ===================================================================== *)
(** ** runner/orchestrator.py *)
(* ===================================================================== *)

Module Orchestrator.

Import PyStr Locator.
Local Open Scope eff_scope.

(** One entry of the plan file. *)
Record PlanStep := {
  p_intent : option string;
  p_step : option string;
  p_expected_state : option string
}.

(** [step.get(intent) or step.get(step, empty)]. *)
Definition intent_of (step : PlanStep) : string :=
  match p_intent step with
  | Some (String c s) => String c s
  | _ => or_empty (p_step step)
  end.

Definition expected_of (step : PlanStep) : string := or_empty (p_expected_state step).

Inductive RunStatus :=
| Completed
| Aborted.

Section Loop.

Context {sim : Similarity} {surface : Surface}.

Definition persist (r : StepRecord) : M unit := act (EvPersist r) (fun w => w).

(** The body of the loop of [run_plan]; [false] when a fault of the
    executor ends the run.  The step is followed on the path on which its
    perception, its verification and the write of its record return; the
    exception of one of these ends the program likewise, and that path is
    not followed here. *)
Definition run_step (step_idx : Z) (step : PlanStep) : M bool :=
  let intent := intent_of step in
  let expected := expected_of step in
  (* 1) Perception *)
  act (EvPerceive step_idx) (capture_perception step_idx) ;;;
  (* 2) Locator *)
  perception <- look (read_perception step_idx) ;;
  match locate_element_for_intent intent perception with
  | None =>
      persist {| step_id := step_idx; r_intent := intent;
                 r_expected_state := expected;
                 executor_status := "skipped_no_element";
                 verified := false; executor_meta := None |} ;;;
      ret true
  | Some element =>
      (* 3) Executor *)
      outcome <- ask (EvExecute step_idx element) (execute_action element intent step_idx) ;;
      match outcome with
      | Raised => ret false
      | Returned result =>
          (* 4) Verifier *)
          ok <- Verifier.verify_step intent expected ;;
          (* Persist per-step metadata *)
          persist {| step_id := step_idx; r_intent := intent;
                     r_expected_state := expected;
                     executor_status := status result;
                     verified := ok;
                     executor_meta :=
                       Some {| m_action := action result;
                               m_used_text := used_text result;
                               m_tag := tag result;
                               m_label := label result;
                               m_aria_label := aria_label result;
                               m_error := error result |} |} ;;;
          (* Small pause between steps to let UI settle *)
          act EvSleep (fun w => w) ;;;
          ret true
      end
  end.

(** The loop of [run_plan] over the steps, numbered from [step_idx]. *)
Fixpoint run_steps (step_idx : Z) (plan : list PlanStep) : M RunStatus :=
  match plan with
  | [] => ret Completed
  | step :: rest =>
      continue <- run_step step_idx step ;;
      if continue then run_steps (step_idx + 1) rest else ret Aborted
  end.

Definition run_plan (plan : list PlanStep) : M RunStatus := run_steps 1 plan.

End Loop.

End Orchestrator.

(* ********************************************************************* *)
(** * Properties *)
(* ********************************************************************* *)

(* ===================================================================== *)
(** ** The matcher stays inside its window, so the ratio is at most 1 *)
(* ===================================================================== *)

Module DifflibFacts.

Import Difflib.

Lemma fold_left_invariant {A B : Type} (P : A -> Prop) (f : A -> B -> A) :
  forall (l : list B) (acc : A),
    P acc -> (forall x y, P x -> In y l -> P (f x y)) -> P (fold_left f l acc).
Proof.
  induction l as [|y l IH]; intros acc Hacc Hstep; simpl.
  - exact Hacc.
  - apply IH.
    + apply Hstep; [exact Hacc | now left].
    + intros x z Hx Hz. apply Hstep; [exact Hx | now right].
Qed.

Section Window.

Variables a b : list ascii.
Variables alo ahi blo bhi : nat.
Hypothesis Ha : (alo <= ahi)%nat.
Hypothesis Hb : (blo <= bhi)%nat.

(** A block lies inside the window. *)
Definition in_window (m : nat * nat * nat) : Prop :=
  let '(i, j, k) := m in
  (alo <= i /\ i + k <= ahi /\ blo <= j /\ j + k <= bhi)%nat.

Lemma j2len_bound :
  forall n j,
    (j2len a b alo blo bhi n j <= n)%nat
    /\ (0 < j2len a b alo blo bhi n j ->
        j2len a b alo blo bhi n j + blo <= j + 1 /\ j < bhi)%nat.
Proof.
  induction n as [|n IH]; intros j; simpl.
  - split; [lia | intros H; lia].
  - destruct ((blo <=? j)%nat && (j <? bhi)%nat
              && Ascii.eqb (nth j b zero) (nth (alo + n) a zero)
              && negb (popular b (nth j b zero))) eqn:E.
    + repeat rewrite andb_true_iff in E.
      destruct E as [[[E1 E2] _] _].
      apply Nat.leb_le in E1. apply Nat.ltb_lt in E2.
      destruct j as [|j'].
      * split; [lia | intros _; lia].
      * destruct (IH j') as [I1 I2].
        split; [lia|]. intros _.
        destruct (j2len a b alo blo bhi n j') eqn:Ej; [lia|].
        assert (0 < S n0)%nat as Hp by lia.
        specialize (I2 Hp). lia.
    + split; [lia | intros H; lia].
Qed.

Lemma better_in_window :
  forall n j best,
    (n < ahi - alo)%nat ->
    in_window best ->
    in_window (better (alo + n) j (j2len a b alo blo bhi (S n) j) best).
Proof.
  intros n j [[bi bj] bk] Hn Hbest. unfold better.
  destruct (bk <? j2len a b alo blo bhi (S n) j)%nat eqn:E; [|exact Hbest].
  apply Nat.ltb_lt in E.
  destruct (j2len_bound (S n) j) as [I1 I2].
  assert (0 < j2len a b alo blo bhi (S n) j)%nat as Hp by lia.
  specialize (I2 Hp). unfold in_window. lia.
Qed.

Lemma scan_rows_in_window : in_window (scan_rows a b alo ahi blo bhi).
Proof.
  unfold scan_rows.
  apply (fold_left_invariant in_window).
  - unfold in_window. lia.
  - intros best n Hbest Hn. apply in_seq in Hn.
    unfold scan_row.
    apply (fold_left_invariant in_window); [exact Hbest|].
    intros best' j Hbest' _. apply better_in_window; [lia | exact Hbest'].
Qed.

Lemma extend_left_in_window :
  forall fuel m, in_window m -> in_window (extend_left a b alo blo fuel m).
Proof.
  induction fuel as [|fuel IH]; intros [[i j] k] Hm; simpl; [exact Hm|].
  destruct ((alo <? i)%nat && (blo <? j)%nat
            && Ascii.eqb (nth (i - 1) a zero) (nth (j - 1) b zero)) eqn:E;
    [|exact Hm].
  repeat rewrite andb_true_iff in E. destruct E as [[E1 E2] _].
  apply Nat.ltb_lt in E1. apply Nat.ltb_lt in E2.
  apply IH. unfold in_window in *. lia.
Qed.

Lemma extend_right_in_window :
  forall fuel m, in_window m -> in_window (extend_right a b ahi bhi fuel m).
Proof.
  induction fuel as [|fuel IH]; intros [[i j] k] Hm; simpl; [exact Hm|].
  destruct ((i + k <? ahi)%nat && (j + k <? bhi)%nat
            && Ascii.eqb (nth (i + k) a zero) (nth (j + k) b zero)) eqn:E;
    [|exact Hm].
  repeat rewrite andb_true_iff in E. destruct E as [[E1 E2] _].
  apply Nat.ltb_lt in E1. apply Nat.ltb_lt in E2.
  apply IH. unfold in_window in *. lia.
Qed.

Lemma find_longest_match_in_window :
  in_window (find_longest_match a b alo ahi blo bhi).
Proof.
  unfold find_longest_match.
  apply extend_right_in_window, extend_left_in_window, scan_rows_in_window.
Qed.

End Window.

(** The blocks found in a window are disjoint pieces of both of its sides. *)
Lemma matched_bound (a b : list ascii) :
  forall fuel alo ahi blo bhi,
    (alo <= ahi)%nat -> (blo <= bhi)%nat ->
    (matched a b fuel alo ahi blo bhi <= ahi - alo
     /\ matched a b fuel alo ahi blo bhi <= bhi - blo)%nat.
Proof.
  induction fuel as [|fuel IH]; intros alo ahi blo bhi Ha Hb; simpl; [lia|].
  pose proof (find_longest_match_in_window a b alo ahi blo bhi Ha Hb) as Hw.
  destruct (find_longest_match a b alo ahi blo bhi) as [[i j] k].
  unfold in_window in Hw.
  destruct k as [|k']; [lia|].
  set (k := S k') in *.
  assert ((if (alo <? i)%nat && (blo <? j)%nat
           then matched a b fuel alo i blo j else 0) <= i - alo
          /\ (if (alo <? i)%nat && (blo <? j)%nat
              then matched a b fuel alo i blo j else 0) <= j - blo)%nat as HL.
  { destruct ((alo <? i)%nat && (blo <? j)%nat) eqn:E; [|lia].
    apply IH; lia. }
  assert ((if (i + k <? ahi)%nat && (j + k <? bhi)%nat
           then matched a b fuel (i + k) ahi (j + k) bhi else 0) <= ahi - (i + k)
          /\ (if (i + k <? ahi)%nat && (j + k <? bhi)%nat
              then matched a b fuel (i + k) ahi (j + k) bhi else 0) <= bhi - (j + k))%nat
    as HR.
  { destruct ((i + k <? ahi)%nat && (j + k <? bhi)%nat) eqn:E; [|lia].
    apply IH; lia. }
  lia.
Qed.

Lemma matches_bound (a b : list ascii) :
  (2 * matches a b <= List.length a + List.length b)%nat.
Proof.
  unfold matches.
  destruct (matched_bound a b (S (List.length a)) 0 (List.length a) 0 (List.length b))
    as [H1 H2]; lia.
Qed.

Lemma ratio_range (a b : string) : 0 <= ratio a b <= 1.
Proof.
  unfold ratio.
  pose proof (matches_bound (list_ascii_of_string a) (list_ascii_of_string b)) as Hm.
  destruct (List.length (list_ascii_of_string a) + List.length (list_ascii_of_string b))%nat
    as [|t].
  - split; unfold Qle; cbn [Qnum Qden]; lia.
  - split; unfold Qle; cbn [Qnum Qden];
      rewrite <- Pos.of_nat_succ, Zpos_P_of_succ_nat; lia.
Qed.

End DifflibFacts.

(** The matcher of the standard library as an instance of the interface. *)
#[export] Instance difflib_similarity : Similarity := {|
  sm_ratio := Difflib.ratio;
  sm_ratio_range := DifflibFacts.ratio_range
|}.

(* ===================================================================== *)
(** ** The scorer *)
(* ===================================================================== *)

Module LocatorFacts.

Import PyStr Locator.

Lemma Qltb_true (p q : Q) : Qltb p q = true <-> p < q.
Proof.
  unfold Qltb. rewrite negb_true_iff.
  split; intros H.
  - apply Qnot_le_lt. intros Hle. apply Qle_bool_iff in Hle. congruence.
  - destruct (Qle_bool q p) eqn:E; [|reflexivity].
    apply Qle_bool_iff in E. exfalso. apply (Qlt_not_le _ _ H E).
Qed.

Lemma Qltb_false (p q : Q) : Qltb p q = false <-> q <= p.
Proof.
  unfold Qltb. rewrite negb_false_iff. apply Qle_bool_iff.
Qed.

Section Scoring.

Context {sim : Similarity}.

Lemma _ratio_range (a b : string) : 0 <= _ratio a b <= 1.
Proof.
  unfold _ratio. destruct (negb (truthy a) || negb (truthy b)).
  - lra.
  - apply sm_ratio_range.
Qed.

Lemma _fieldwise_fuzzy_range (intent_norm : string) (fields : list string) :
  0 <= _fieldwise_fuzzy intent_norm fields <= 1.
Proof.
  unfold _fieldwise_fuzzy.
  apply (DifflibFacts.fold_left_invariant (fun best => 0 <= best <= 1)).
  - lra.
  - intros best f Hbest _.
    destruct (negb (truthy f)); [exact Hbest|].
    cbv zeta. destruct (Qltb best (_ratio intent_norm (lower f)));
      [apply _ratio_range | exact Hbest].
Qed.

Lemma Zpos_of_nat (n : nat) : (1 <= n)%nat -> Z.pos (Pos.of_nat n) = Z.of_nat n.
Proof.
  intros H. rewrite <- positive_nat_Z, Nat2Pos.id; [reflexivity | lia].
Qed.

Lemma _token_overlap_range (intent_tokens el_tokens : list string) :
  0 <= _token_overlap intent_tokens el_tokens <= 1.
Proof.
  unfold _token_overlap. destruct intent_tokens as [|t ts]; [lra|].
  set (distinct := nodup string_dec (t :: ts)).
  pose proof (filter_length_le (fun t => mem t el_tokens) distinct) as Hle.
  split; unfold Qle; cbn [Qnum Qden]; rewrite Zpos_of_nat; lia.
Qed.

Lemma base_term_range (intent_norm : string) (intent_tokens : list string) (el : Element) :
  0 <= base_term intent_norm intent_tokens el <= 0.90.
Proof.
  unfold base_term.
  pose proof (_fieldwise_fuzzy_range intent_norm (fields_of el)).
  pose proof (_token_overlap_range intent_tokens (_tokens (join_space (fields_of el)))).
  lra.
Qed.

Lemma role_term_range (intent_norm : string) (el : Element) :
  0 <= role_term intent_norm el <= 0.19.
Proof.
  unfold role_term. cbv zeta.
  repeat match goal with
         | |- context [if ?c then _ else _] => destruct c
         end; lra.
Qed.

Lemma dialog_term_range (db : option Bounds) (el : Element) :
  - 0.04 <= dialog_term db el <= 0.08.
Proof.
  unfold dialog_term. destruct db as [bnd|]; [destruct (_inside bnd el)|]; lra.
Qed.

Lemma literal_term_range (quoted : list string) (el : Element) :
  0 <= literal_term quoted el <= 0.30.
Proof. unfold literal_term. destruct (literal_match quoted el); lra. Qed.

Lemma length_term_range (el : Element) : - 0.05 <= length_term el <= 0.
Proof. unfold length_term. destruct (long_text el); lra. Qed.

(** An element without any label gets the sentinel. *)
Lemma score_excluded (intent_norm : string) (intent_tokens quoted : list string)
  (el : Element) (db : option Bounds) :
  labeled el = false ->
  _score_element intent_norm intent_tokens quoted el db = -1.
Proof.
  intros H. unfold _score_element. cbv zeta.
  change (existsb truthy _) with (labeled el). rewrite H. reflexivity.
Qed.

(** The score of a labeled element is the sum of its terms. *)
Lemma score_decomposition (intent_norm : string) (intent_tokens quoted : list string)
  (el : Element) (db : option Bounds) :
  labeled el = true ->
  _score_element intent_norm intent_tokens quoted el db
  == base_term intent_norm intent_tokens el + role_term intent_norm el
     + dialog_term db el + literal_term quoted el + length_term el.
Proof.
  intros H. unfold _score_element. cbv zeta.
  change (existsb truthy _) with (labeled el). rewrite H. cbn [negb].
  unfold base_term, role_term, dialog_term, literal_term, literal_match,
    length_term, long_text, signals_activation, signals_fill, fields_of.
  cbv zeta.
  set (fz := _fieldwise_fuzzy _ _). set (ov := _token_overlap _ _).
  destruct db as [bnd|]; destruct quoted as [|q0 qs];
    repeat match goal with
           | |- context [if ?c then _ else _] => destruct c
           end; ring.
Qed.

(** The score of a labeled element lies between the sum of the two
    penalties and the sum of all bonuses. *)
Lemma score_range (intent_norm : string) (intent_tokens quoted : list string)
  (el : Element) (db : option Bounds) :
  labeled el = true ->
  - 0.09 <= _score_element intent_norm intent_tokens quoted el db <= 1.47.
Proof.
  intros H.
  rewrite (score_decomposition intent_norm intent_tokens quoted el db H).
  pose proof (base_term_range intent_norm intent_tokens el).
  pose proof (role_term_range intent_norm el).
  pose proof (dialog_term_range db el).
  pose proof (literal_term_range quoted el).
  pose proof (length_term_range el).
  lra.
Qed.

(** *** The stable descending sort *)

Lemma insert_desc_perm (p : Q * Element) (l : list (Q * Element)) :
  Permutation (insert_desc p l) (p :: l).
Proof.
  induction l as [|q l IH]; simpl.
  - apply Permutation_refl.
  - destruct (Qltb (fst p) (fst q)).
    + eapply perm_trans; [apply perm_skip, IH | apply perm_swap].
    + apply Permutation_refl.
Qed.

Lemma sort_desc_perm (l : list (Q * Element)) : Permutation (sort_desc l) l.
Proof.
  induction l as [|p l IH]; simpl.
  - apply perm_nil.
  - eapply perm_trans; [apply insert_desc_perm | apply perm_skip, IH].
Qed.

Lemma sort_desc_nil (l : list (Q * Element)) : sort_desc l = [] <-> l = [].
Proof.
  split; intros H.
  - apply Permutation_nil. rewrite <- H. apply sort_desc_perm.
  - subst. reflexivity.
Qed.

(** Scores never increase along the list. *)
Definition descending : list (Q * Element) -> Prop :=
  StronglySorted (fun p q => fst q <= fst p).

Lemma insert_desc_sorted (p : Q * Element) (l : list (Q * Element)) :
  descending l -> descending (insert_desc p l).
Proof.
  unfold descending. induction l as [|q l IH]; intros Hs; simpl.
  - constructor; [constructor | constructor].
  - inversion Hs as [|? ? Hl Hq]; subst.
    destruct (Qltb (fst p) (fst q)) eqn:E.
    + constructor; [apply IH, Hl|].
      apply Qltb_true in E.
      rewrite Forall_forall in *. intros z Hz.
      apply (Permutation_in _ (insert_desc_perm p l)) in Hz.
      destruct Hz as [<-|Hz]; [lra | apply Hq, Hz].
    + apply Qltb_false in E.
      constructor; [exact Hs|].
      constructor; [exact E|].
      rewrite Forall_forall in *. intros z Hz.
      specialize (Hq z Hz). lra.
Qed.

Lemma sort_desc_sorted (l : list (Q * Element)) : descending (sort_desc l).
Proof.
  induction l as [|p l IH]; simpl.
  - constructor.
  - apply insert_desc_sorted, IH.
Qed.

(** The entries of score [c], in their order. *)
Definition of_score (c : Q) (l : list (Q * Element)) : list (Q * Element) :=
  filter (fun p => Qeq_bool (fst p) c) l.

Lemma insert_desc_stable (c : Q) (p : Q * Element) (l : list (Q * Element)) :
  of_score c (insert_desc p l) = of_score c (p :: l).
Proof.
  unfold of_score. induction l as [|q l IH]; simpl; [reflexivity|].
  destruct (Qltb (fst p) (fst q)) eqn:E; [|reflexivity].
  apply Qltb_true in E. simpl. rewrite IH. simpl.
  destruct (Qeq_bool (fst p) c) eqn:Ep; [|reflexivity].
  destruct (Qeq_bool (fst q) c) eqn:Eq'; [|reflexivity].
  apply Qeq_bool_iff in Ep. apply Qeq_bool_iff in Eq'. lra.
Qed.

(** Stability: entries of equal score keep their order of enumeration. *)
Lemma sort_desc_stable (c : Q) (l : list (Q * Element)) :
  of_score c (sort_desc l) = of_score c l.
Proof.
  induction l as [|p l IH]; simpl; [reflexivity|].
  rewrite insert_desc_stable. unfold of_score in *. simpl. now rewrite IH.
Qed.

Lemma insert_desc_above (p : Q * Element) (l : list (Q * Element)) :
  (forall q, In q l -> fst q <= fst p) ->
  insert_desc p (sort_desc l) = p :: sort_desc l.
Proof.
  intros H. destruct (sort_desc l) as [|q r] eqn:E; simpl; [reflexivity|].
  assert (In q l) as Hq.
  { apply (Permutation_in _ (sort_desc_perm l)). rewrite E. now left. }
  apply H in Hq. apply Qltb_false in Hq. now rewrite Hq.
Qed.

(** An entry whose score is above all others comes first. *)
Lemma sort_desc_head (l1 l2 : list (Q * Element)) (p : Q * Element) :
  (forall q, In q l1 -> fst q < fst p) ->
  (forall q, In q l2 -> fst q <= fst p) ->
  hd_error (sort_desc (l1 ++ p :: l2)) = Some p.
Proof.
  intros H1 H2. induction l1 as [|x l1 IH]; simpl.
  - now rewrite insert_desc_above.
  - assert (hd_error (sort_desc (l1 ++ p :: l2)) = Some p) as Hhd.
    { apply IH. intros q Hq. apply H1. now right. }
    destruct (sort_desc (l1 ++ p :: l2)) as [|q r]; [discriminate|].
    simpl in Hhd. injection Hhd as ->. simpl.
    assert (fst x < fst p) as Hx by (apply H1; now left).
    apply Qltb_true in Hx. now rewrite Hx.
Qed.

(** *** The scoring loop *)

Definition scored_with (intent_norm : string) (intent_tokens quoted : list string)
  (db : option Bounds) (l : list Element) : list (Q * Element) :=
  fold_right
    (fun el scored =>
       let s := _score_element intent_norm intent_tokens quoted el db in
       if Qltb (-1) s then (s, el) :: scored else scored)
    [] l.

Lemma score_all_unfold (intent : string) (perceived : list Element) :
  score_all intent perceived
  = scored_with (_normalize_intent intent) (_tokens (_normalize_intent intent))
      (_extract_quoted intent) (_find_dialog_bounds perceived) perceived.
Proof. reflexivity. Qed.

Lemma scored_with_app intent_norm intent_tokens quoted db (l1 l2 : list Element) :
  scored_with intent_norm intent_tokens quoted db (l1 ++ l2)
  = (scored_with intent_norm intent_tokens quoted db l1
     ++ scored_with intent_norm intent_tokens quoted db l2)%list.
Proof.
  induction l1 as [|e l1 IH]; simpl; [reflexivity|].
  rewrite IH. destruct (Qltb _ _); reflexivity.
Qed.

Lemma labeled_iff_scored intent_norm intent_tokens quoted db (el : Element) :
  Qltb (-1) (_score_element intent_norm intent_tokens quoted el db) = labeled el.
Proof.
  destruct (labeled el) eqn:E.
  - apply Qltb_true.
    pose proof (score_range intent_norm intent_tokens quoted el db E). lra.
  - rewrite score_excluded by exact E. reflexivity.
Qed.

Lemma in_scored_with intent_norm intent_tokens quoted db (l : list Element) p :
  In p (scored_with intent_norm intent_tokens quoted db l) <->
  In (snd p) l /\ labeled (snd p) = true
  /\ fst p = _score_element intent_norm intent_tokens quoted (snd p) db.
Proof.
  induction l as [|e l IH]; simpl.
  - tauto.
  - rewrite labeled_iff_scored.
    destruct (labeled e) eqn:E.
    + simpl. rewrite IH. split.
      * intros [<-|H]; simpl; [auto | tauto].
      * intros [[->|H] [H1 H2]]; [left; destruct p; simpl in *; now subst | tauto].
    + rewrite IH. split; [tauto|].
      intros [[->|H] [H1 H2]]; [congruence | tauto].
Qed.

Lemma in_firstn {A : Type} (n : nat) (l : list A) (x : A) :
  In x (firstn n l) -> In x l.
Proof.
  intros H. rewrite <- (firstn_skipn n l). apply in_or_app. now left.
Qed.

Lemma all_empty_unlabeled (el : Element) :
  or_empty (el_text el) = "" -> or_empty (el_aria_label el) = "" ->
  or_empty (el_title el) = "" -> or_empty (el_tooltip el) = "" ->
  labeled el = false.
Proof.
  intros H1 H2 H3 H4. unfold labeled, fields_of.
  rewrite H1, H2, H3, H4. reflexivity.
Qed.

Lemma scored_none_labeled intent_norm intent_tokens quoted db (l : list Element) :
  (forall el, In el l -> labeled el = false) ->
  scored_with intent_norm intent_tokens quoted db l = [].
Proof.
  intros H. destruct (scored_with intent_norm intent_tokens quoted db l) as [|p r] eqn:E;
    [reflexivity|].
  assert (In p (scored_with intent_norm intent_tokens quoted db l)) as Hp
    by (rewrite E; now left).
  apply in_scored_with in Hp. destruct Hp as [Hin [Hl _]].
  rewrite (H _ Hin) in Hl. discriminate.
Qed.

Lemma best_is_scored (intent : string) (perceived : list Element) (el : Element) :
  locate_element_for_intent intent (Some perceived) = Some el ->
  In el perceived /\ labeled el = true.
Proof.
  unfold locate_element_for_intent. rewrite score_all_unfold.
  set (scored := scored_with _ _ _ _ _).
  intros H.
  assert (exists s, In (s, el) (sort_desc scored)) as [s Hs].
  { destruct scored as [|p0 r0] eqn:E0; [discriminate|]. rewrite <- E0 in *.
    destruct (sort_desc scored) as [|[s e] r] eqn:E; [discriminate|].
    injection H as <-. exists s. now left. }
  apply (Permutation_in _ (sort_desc_perm scored)) in Hs.
  apply in_scored_with in Hs. simpl in Hs. tauto.
Qed.

Lemma top_are_scored (intent : string) (perceived : list Element) (k : Z) (el : Element) :
  In el (locate_top_candidates intent (Some perceived) k) ->
  In el perceived /\ labeled el = true.
Proof.
  unfold locate_top_candidates. rewrite score_all_unfold.
  set (scored := scored_with _ _ _ _ _).
  intros H.
  assert (In el (map snd (sort_desc scored))) as Hs.
  { destruct scored as [|p0 r0] eqn:E0; [contradiction|]. rewrite <- E0 in *.
    apply in_map_iff in H. destruct H as [p [Hp1 Hp2]].
    apply in_map_iff. exists p. split; [exact Hp1|].
    eapply in_firstn, Hp2. }
  apply in_map_iff in Hs. destruct Hs as [p [<- Hp]].
  apply (Permutation_in _ (sort_desc_perm scored)) in Hp.
  apply in_scored_with in Hp. tauto.
Qed.

(** C8. An element whose four label fields are all empty gets the
    exclusion sentinel -1; the score of a labeled element lies between
    -0.09 (the two penalties) and 1.47 (all bonuses), hence strictly above
    the sentinel; an excluded element is never the best candidate nor among
    the top candidates; and the best candidate is absent when the snapshot
    is empty or every element is excluded. *)
Theorem excluded_elements_are_never_selected
  (intent : string) (perceived : list Element) (k : Z) :
  (forall intent_norm intent_tokens quoted db el,
      or_empty (el_text el) = "" -> or_empty (el_aria_label el) = "" ->
      or_empty (el_title el) = "" -> or_empty (el_tooltip el) = "" ->
      labeled el = false
      /\ _score_element intent_norm intent_tokens quoted el db = -1)
  /\ (forall intent_norm intent_tokens quoted db el,
        labeled el = true ->
        -1 < - 0.09
        /\ - 0.09 <= _score_element intent_norm intent_tokens quoted el db <= 1.47)
  /\ (forall el,
        locate_element_for_intent intent (Some perceived) = Some el ->
        In el perceived /\ labeled el = true)
  /\ (forall el,
        In el (locate_top_candidates intent (Some perceived) k) ->
        In el perceived /\ labeled el = true)
  /\ ((forall el, In el perceived -> labeled el = false) ->
      locate_element_for_intent intent (Some perceived) = None
      /\ locate_top_candidates intent (Some perceived) k = [])
  /\ locate_element_for_intent intent (Some []) = None.
Proof.
  split; [|split; [|split; [|split; [|split]]]].
  - intros intent_norm intent_tokens quoted db el H1 H2 H3 H4.
    pose proof (all_empty_unlabeled el H1 H2 H3 H4) as Hu.
    split; [exact Hu | now apply score_excluded].
  - intros intent_norm intent_tokens quoted db el Hl.
    split; [lra | now apply score_range].
  - intros el. apply best_is_scored.
  - intros el. apply top_are_scored.
  - intros Hall. split.
    + unfold locate_element_for_intent. rewrite score_all_unfold.
      now rewrite scored_none_labeled.
    + unfold locate_top_candidates. rewrite score_all_unfold.
      now rewrite scored_none_labeled.
  - reflexivity.
Qed.

(** C10. On a readable snapshot the two public functions agree: the first
    of the top candidates is the best candidate, and there are no top
    candidates exactly when there is no best candidate.  Both read the same
    ranking: the scored elements by decreasing score, elements of equal
    score in their order of enumeration. *)
Theorem top_candidates_agree_with_best
  (intent : string) (perceived : list Element) (k : Z) :
  hd_error (locate_top_candidates intent (Some perceived) k)
  = locate_element_for_intent intent (Some perceived)
  /\ (locate_top_candidates intent (Some perceived) k = []
      <-> locate_element_for_intent intent (Some perceived) = None)
  /\ exists ranked : list (Q * Element),
      Permutation ranked (score_all intent perceived)
      /\ descending ranked
      /\ (forall c, of_score c ranked = of_score c (score_all intent perceived))
      /\ locate_top_candidates intent (Some perceived) k
         = map snd (firstn (Z.to_nat (Z.max 1 k)) ranked)
      /\ locate_element_for_intent intent (Some perceived)
         = hd_error (map snd ranked).
Proof.
  unfold locate_top_candidates, locate_element_for_intent.
  remember (score_all intent perceived) as scored eqn:Hscored. clear Hscored.
  assert (exists n, Z.to_nat (Z.max 1 k) = S n) as [n Hn].
  { exists (Z.to_nat (Z.max 1 k) - 1)%nat. lia. }
  rewrite Hn.
  destruct scored as [|p0 r0].
  - repeat split; try reflexivity.
    exists []. repeat split; try reflexivity; constructor.
  - remember (p0 :: r0) as scored eqn:E0.
    destruct (sort_desc scored) as [|[s e] r] eqn:E.
    + apply (proj1 (sort_desc_nil _)) in E. congruence.
    + simpl. repeat split; try discriminate.
      exists ((s, e) :: r). rewrite <- E.
      split; [apply sort_desc_perm|].
      split; [apply sort_desc_sorted|].
      split; [intros c; apply sort_desc_stable|].
      rewrite E. split; reflexivity.
Qed.

(** *** The quoted-literal bonus *)

Lemma rstrip_idempotent (s : string) : rstrip (rstrip s) = rstrip s.
Proof.
  induction s as [|c s IH]; simpl; [reflexivity|].
  destruct (rstrip s) as [|c' r] eqn:E.
  - destruct (is_space c) eqn:Ec; simpl; [reflexivity | now rewrite Ec].
  - simpl in *. now rewrite IH.
Qed.

Definition starts_trimmed (s : string) : Prop :=
  match s with
  | EmptyString => True
  | String c _ => is_space c = false
  end.

Lemma lstrip_starts_trimmed (s : string) : starts_trimmed (lstrip s).
Proof.
  induction s as [|c s IH]; simpl; [exact I|].
  destruct (is_space c) eqn:E; [exact IH | exact E].
Qed.

Lemma rstrip_starts_trimmed (s : string) :
  starts_trimmed s -> starts_trimmed (rstrip s).
Proof.
  destruct s as [|c s]; simpl; [trivial|].
  intros Hc. destruct (rstrip s); [now rewrite Hc | exact Hc].
Qed.

Lemma lstrip_fixed (s : string) : starts_trimmed s -> lstrip s = s.
Proof.
  destruct s as [|c s]; simpl; [reflexivity|]. now intros ->.
Qed.

Lemma strip_idempotent (s : string) : strip (strip s) = strip s.
Proof.
  unfold strip.
  rewrite (lstrip_fixed (rstrip (lstrip s))).
  - apply rstrip_idempotent.
  - apply rstrip_starts_trimmed, lstrip_starts_trimmed.
Qed.

Lemma fields_are_trimmed (el : Element) (f : string) :
  In f (fields_of el) -> strip f = f.
Proof.
  unfold fields_of. simpl.
  intros [<-|[<-|[<-|[<-|[]]]]]; apply strip_idempotent.
Qed.

Lemma truthy_false (s : string) : truthy s = false <-> s = "".
Proof. destruct s; simpl; split; congruence. Qed.

(** What the test of the bonus says. *)
Lemma literal_match_spec (quoted : list string) (el : Element) :
  literal_match quoted el = true <->
  exists q0 rest,
    quoted = q0 :: rest /\ lower q0 <> ""
    /\ exists f, In f (fields_of el) /\ lower q0 = lower f.
Proof.
  unfold literal_match. destruct quoted as [|q0 rest].
  - split; [discriminate | intros (? & ? & H & _); discriminate].
  - rewrite andb_true_iff, existsb_exists. split.
    + intros [Ht (f & Hf & Heq)]. exists q0, rest. split; [reflexivity|].
      split.
      * intros Hq. rewrite Hq in Ht. discriminate.
      * exists f. split; [exact Hf|]. apply String.eqb_eq in Heq.
        now rewrite (fields_are_trimmed el f Hf) in Heq.
    + intros (q & r & Hq & Hne & f & Hf & Heq). injection Hq as <- <-.
      split.
      * destruct (truthy (lower q0)) eqn:E; [reflexivity|].
        apply truthy_false in E. contradiction.
      * exists f. split; [exact Hf|]. apply String.eqb_eq.
        now rewrite (fields_are_trimmed el f Hf).
Qed.

Lemma lower_empty (s : string) : lower s = "" -> s = "".
Proof. destruct s; simpl; [reflexivity | discriminate]. Qed.

Lemma literal_match_labeled (quoted : list string) (el : Element) :
  literal_match quoted el = true -> labeled el = true.
Proof.
  intros H. apply literal_match_spec in H.
  destruct H as (q0 & rest & _ & Hne & f & Hf & Heq).
  unfold labeled. apply existsb_exists. exists f. split; [exact Hf|].
  destruct (truthy f) eqn:E; [reflexivity|].
  apply truthy_false in E. subst f. simpl in Heq. contradiction.
Qed.

(** C7, as the code has it. The bonus of 0.30 is what the quoted literals
    add to a score, and it is added exactly when the FIRST quoted literal,
    lowercased, is not empty and equals one of the four trimmed, lowercased
    fields of the element; the other literals are not looked at.  Trimming
    and lowercasing are those of Python on text of code points below 256,
    accented capitals and the no-break space included. *)
Theorem literal_bonus_is_for_the_first_literal
  (intent_norm : string) (intent_tokens quoted : list string)
  (el : Element) (db : option Bounds) :
  _score_element intent_norm intent_tokens quoted el db
  == _score_element intent_norm intent_tokens [] el db
     + (if literal_match quoted el then 0.30 else 0)
  /\ (literal_match quoted el = true <->
      exists q0 rest,
        quoted = q0 :: rest /\ lower q0 <> ""
        /\ exists f, In f (fields_of el) /\ lower q0 = lower f).
Proof.
  split; [|apply literal_match_spec].
  destruct (labeled el) eqn:El.
  - rewrite !score_decomposition by exact El.
    unfold literal_term. change (literal_match [] el) with false.
    cbv iota. ring.
  - rewrite !score_excluded by exact El.
    destruct (literal_match quoted el) eqn:Em; [|ring].
    apply literal_match_labeled in Em. congruence.
Qed.

(** *** The dialog adjustment *)

(** An element of role dialog that is more than 10 wide and 10 high. *)
Definition is_big_dialog (el : Element) : bool :=
  (lower (or_empty (el_role el)) =? "dialog")
  && Qltb 10 (num (el_width el)) && Qltb 10 (num (el_height el)).

(** The element lies fully inside the bounds of the snapshot's dialog. *)
Definition within_dialog (perceived : list Element) (el : Element) : bool :=
  match _find_dialog_bounds perceived with
  | Some bounds => _inside bounds el
  | None => false
  end.

Definition dialog_step (acc : option Bounds * Q) (el : Element) : option Bounds * Q :=
  let '(best, best_area) := acc in
  if lower (or_empty (el_role el)) =? "dialog" then
    let x := num (el_x el) in
    let y := num (el_y el) in
    let w := num (el_width el) in
    let h := num (el_height el) in
    let area := Qmax0 w * Qmax0 h in
    if Qltb best_area area && Qltb 10 w && Qltb 10 h
    then (Some (x, y, w, h), area)
    else (best, best_area)
  else (best, best_area).

Lemma _find_dialog_bounds_fold (perceived : list Element) :
  _find_dialog_bounds perceived = fst (fold_left dialog_step perceived (None, 0)).
Proof. reflexivity. Qed.

Lemma Qmax0_pos (q : Q) : 0 < q -> Qmax0 q == q.
Proof.
  intros H. unfold Qmax0. destruct (Qle_bool 0 q) eqn:E; [reflexivity|].
  exfalso. assert (0 <= q) as Hle by lra. apply Qle_bool_iff in Hle. congruence.
Qed.

Lemma dialog_step_found (l : list Element) :
  forall acc,
    (fst acc = None -> snd acc == 0) ->
    (fst acc <> None \/ exists d, In d l /\ is_big_dialog d = true) ->
    fst (fold_left dialog_step l acc) <> None.
Proof.
  induction l as [|e l IH]; intros [best area] Hinv Hsrc; simpl in *.
  - destruct Hsrc as [H|[d [[] _]]]. exact H.
  - apply IH.
    + destruct (lower (or_empty (el_role e)) =? "dialog"); [|exact Hinv].
      cbv zeta. destruct (Qltb area _ && _ && _); [discriminate | exact Hinv].
    + destruct Hsrc as [H|[d [[<-|Hd] Hbig]]].
      * left. destruct (lower (or_empty (el_role e)) =? "dialog"); [|exact H].
        cbv zeta. destruct (Qltb area _ && _ && _); [discriminate | exact H].
      * left. unfold is_big_dialog in Hbig.
        repeat rewrite andb_true_iff in Hbig. destruct Hbig as [[Hr Hw] Hh].
        rewrite Hr. cbv zeta. rewrite Hw, Hh.
        destruct best as [b|]; [destruct (Qltb area _); discriminate|].
        specialize (Hinv eq_refl). simpl in Hinv.
        apply Qltb_true in Hw. apply Qltb_true in Hh.
        assert (area < Qmax0 (num (el_width e)) * Qmax0 (num (el_height e))) as Harea.
        { rewrite Hinv, !Qmax0_pos by lra.
          apply Qmult_lt_0_compat; lra. }
        apply Qltb_true in Harea. rewrite Harea. discriminate.
      * right. exists d. split; assumption.
Qed.

(** A snapshot with a dialog of sufficient size has dialog bounds. *)
Lemma big_dialog_has_bounds (perceived : list Element) :
  (exists d, In d perceived /\ is_big_dialog d = true) ->
  exists bounds, _find_dialog_bounds perceived = Some bounds.
Proof.
  intros H. rewrite _find_dialog_bounds_fold.
  pose proof (dialog_step_found perceived (None, 0)) as Hf.
  destruct (fst (fold_left dialog_step perceived (None, 0))) as [b|].
  - now exists b.
  - exfalso. apply Hf; [reflexivity | now right | reflexivity].
Qed.

Lemma same_fields (e1 e2 : Element) :
  el_text e1 = el_text e2 -> el_aria_label e1 = el_aria_label e2 ->
  el_title e1 = el_title e2 -> el_tooltip e1 = el_tooltip e2 ->
  fields_of e1 = fields_of e2.
Proof. unfold fields_of. now intros -> -> -> ->. Qed.

(** The role and tag bonuses take the values 0, 0.03, 0.06, 0.09, 0.10,
    0.13, 0.16 and 0.19: two of them that differ by at most 0.12 differ by
    at most 0.10. *)
Lemma role_gap_steps (intent_norm : string) (e_in e_out : Element) :
  role_term intent_norm e_out <= role_term intent_norm e_in + 0.12 ->
  role_term intent_norm e_out <= role_term intent_norm e_in + 0.10.
Proof.
  unfold role_term. cbv zeta.
  destruct (signals_activation intent_norm), (signals_fill intent_norm);
    repeat match goal with
           | |- context [if ?c then _ else _] => destruct c
           end; lra.
Qed.

(** C6, as the code has it. Whatever the bounds of the snapshot's dialog,
    of two elements with the same text, aria-label, title and tooltip, the
    one that the containment test puts outside the bounds never scores
    strictly higher than the one it puts inside them, for any intent,
    provided the role and tag bonus of the outside element exceeds that of
    the inside element by at most 0.12; when the elements are labeled, the
    inside element then scores higher by at least 0.02. *)
Theorem outside_never_outranks_inside
  (intent_norm : string) (intent_tokens quoted : list string)
  (bounds : Bounds) (e_in e_out : Element) :
  el_text e_in = el_text e_out ->
  el_aria_label e_in = el_aria_label e_out ->
  el_title e_in = el_title e_out ->
  el_tooltip e_in = el_tooltip e_out ->
  _inside bounds e_in = true ->
  _inside bounds e_out = false ->
  role_term intent_norm e_out <= role_term intent_norm e_in + 0.12 ->
  _score_element intent_norm intent_tokens quoted e_out (Some bounds)
  <= _score_element intent_norm intent_tokens quoted e_in (Some bounds)
  /\ (labeled e_in = true ->
      _score_element intent_norm intent_tokens quoted e_out (Some bounds) + 0.02
      <= _score_element intent_norm intent_tokens quoted e_in (Some bounds)).
Proof.
  intros Ht Ha Hti Htt Hin Hout Hrole.
  apply role_gap_steps in Hrole.
  pose proof (same_fields e_in e_out Ht Ha Hti Htt) as Hf.
  assert (labeled e_in = labeled e_out) as Hl by (unfold labeled; now rewrite Hf).
  destruct (labeled e_out) eqn:El.
  - rewrite !score_decomposition by congruence.
    unfold base_term, literal_term, literal_match, length_term, long_text, dialog_term.
    rewrite Hf, Ht, Hin, Hout.
    set (b := 0.55 * _ + 0.35 * _).
    split; [|intros _];
      destruct (match quoted with [] => false | _ => _ end);
      destruct (_ || _)%bool; lra.
  - rewrite !score_excluded by congruence.
    split; [lra | congruence].
Qed.

(** The role and tag bonuses differ by at most 0.12 when the elements
    have the same role and tag, and when the intent does not signal both
    an activation and a fill action. *)
Lemma role_gap_small (intent_norm : string) (e_in e_out : Element) :
  (el_role e_in = el_role e_out /\ el_tag e_in = el_tag e_out)
  \/ signals_activation intent_norm && signals_fill intent_norm = false ->
  role_term intent_norm e_out <= role_term intent_norm e_in + 0.12.
Proof.
  intros [[Hr Ht]|H].
  - unfold role_term. rewrite Hr, Ht. lra.
  - unfold role_term. cbv zeta.
    destruct (signals_activation intent_norm), (signals_fill intent_norm);
      try discriminate;
      repeat match goal with
             | |- context [if ?c then _ else _] => destruct c
             end; lra.
Qed.

(** *** The best candidate and the literal bonus *)

(** The score without the bonus of the quoted literal. *)
Definition other_terms (intent_norm : string) (intent_tokens : list string)
  (db : option Bounds) (el : Element) : Q :=
  base_term intent_norm intent_tokens el + role_term intent_norm el
  + dialog_term db el + length_term el.

Lemma score_by_other_terms intent_norm intent_tokens quoted db (el : Element) :
  labeled el = true ->
  _score_element intent_norm intent_tokens quoted el db
  == other_terms intent_norm intent_tokens db el
     + (if literal_match quoted el then 0.30 else 0).
Proof.
  intros H. rewrite score_decomposition by exact H.
  unfold other_terms, literal_term. ring.
Qed.

(** With a base term at least as large and an intent that does not signal
    both an activation and a fill action, the bonus of 0.30 outweighs the
    role, tag, dialog and length adjustments together. *)
Lemma literal_bonus_outweighs_adjustments
  (intent_norm : string) (intent_tokens : list string) (db : option Bounds)
  (e m : Element) :
  base_term intent_norm intent_tokens e <= base_term intent_norm intent_tokens m ->
  signals_activation intent_norm && signals_fill intent_norm = false ->
  other_terms intent_norm intent_tokens db e + 0.03
  <= other_terms intent_norm intent_tokens db m + 0.30.
Proof.
  intros Hbase Hsig. unfold other_terms.
  pose proof (dialog_term_range db e). pose proof (dialog_term_range db m).
  pose proof (length_term_range e). pose proof (length_term_range m).
  assert (role_term intent_norm e <= role_term intent_norm m + 0.10) as Hrole.
  { unfold role_term. cbv zeta.
    destruct (signals_activation intent_norm), (signals_fill intent_norm);
      try discriminate;
      repeat match goal with
             | |- context [if ?c then _ else _] => destruct c
             end; lra. }
  lra.
Qed.

(** The margin by which two exact scores must differ for the binary64
    scores of the source to compare the same way; the rounding error of
    the few operations of a score is smaller by several orders. *)
Definition rounding_margin : Q := 1 # 1000000000.

(** The score without the dialog adjustment and the literal bonus. *)
Definition plain_terms (intent_norm : string) (intent_tokens : list string)
  (el : Element) : Q :=
  base_term intent_norm intent_tokens el + role_term intent_norm el
  + length_term el.

(** C5, as the code has it. When the first quoted literal of the intent
    matches exactly one element of the snapshot, that element is the best
    candidate provided that, for every other labeled element, its base,
    role and tag, and length terms plus 0.18 (the bonus of 0.30 less the
    largest swing of the dialog adjustment, 0.12) exceed those of the other
    element by more than the rounding margin; this holds in particular for
    another element whose base term is no larger, when the intent does not
    signal both an activation and a fill action. *)
Theorem literal_match_is_best_candidate
  (intent : string) (before after : list Element) (m : Element) :
  let norm := _normalize_intent intent in
  let tokens := _tokens norm in
  literal_match (_extract_quoted intent) m = true ->
  (forall e, In e (before ++ after)%list ->
             literal_match (_extract_quoted intent) e = false) ->
  (forall e, In e (before ++ after)%list -> labeled e = true ->
             plain_terms norm tokens e + rounding_margin
             < plain_terms norm tokens m + 0.18
             \/ (base_term norm tokens e <= base_term norm tokens m
                 /\ signals_activation norm && signals_fill norm = false)) ->
  locate_element_for_intent intent (Some (before ++ m :: after)%list) = Some m.
Proof.
  intros norm tokens Hm Hothers Hmargin.
  pose proof (literal_match_labeled _ _ Hm) as Hlab.
  unfold locate_element_for_intent. rewrite score_all_unfold.
  fold norm. fold tokens. set (db := _find_dialog_bounds _) in *.
  set (quoted := _extract_quoted intent) in *.
  rewrite scored_with_app. simpl (scored_with _ _ _ _ (m :: after)).
  rewrite labeled_iff_scored, Hlab.
  set (sm := _score_element norm tokens quoted m db).
  assert (sm == other_terms norm tokens db m + 0.30) as Hsm.
  { unfold sm. rewrite score_by_other_terms by exact Hlab. now rewrite Hm. }
  assert (forall l q,
             (forall e, In e l -> In e (before ++ after)%list) ->
             In q (scored_with norm tokens quoted db l) ->
             fst q < sm) as Hin.
  { intros l q Hsub Hq. apply in_scored_with in Hq.
    destruct Hq as (H1 & H2 & H3).
    rewrite H3, score_by_other_terms by exact H2.
    rewrite (Hothers _ (Hsub _ H1)), Hsm.
    destruct (Hmargin _ (Hsub _ H1) H2) as [Hgap | [Hbase Hsig]].
    - unfold other_terms, plain_terms, rounding_margin in *.
      pose proof (dialog_term_range db (snd q)).
      pose proof (dialog_term_range db m). lra.
    - pose proof (literal_bonus_outweighs_adjustments norm tokens db (snd q) m
                    Hbase Hsig). lra. }
  pose proof (sort_desc_head
                (scored_with norm tokens quoted db before)
                (scored_with norm tokens quoted db after) (sm, m)) as Hhd.
  simpl (fst (sm, m)) in Hhd.
  assert (hd_error
            (sort_desc
               (scored_with norm tokens quoted db before
                ++ (sm, m) :: scored_with norm tokens quoted db after)%list)
          = Some (sm, m)) as Hhead.
  { apply Hhd.
    - intros q Hq. apply Hin in Hq; [exact Hq|].
      intros e He. apply in_or_app. now left.
    - intros q Hq. apply Hin in Hq; [lra|].
      intros e He. apply in_or_app. now right. }
  destruct (scored_with norm tokens quoted db before
            ++ (sm, m) :: scored_with norm tokens quoted db after)%list
    as [|p0 r0] eqn:E.
  - destruct (scored_with norm tokens quoted db before); discriminate.
  - destruct (sort_desc (p0 :: r0)) as [|[s e] r]; [discriminate|].
    simpl in Hhead. now injection Hhead as _ ->.
Qed.

End Scoring.

End LocatorFacts.

(* ===================================================================== *)
(** ** The scorer on concrete snapshots *)
(* ===================================================================== *)

Module LocatorExamples.

Import PyStr Locator LocatorFacts.

(** An element as the perception source writes it: every attribute
    present, the ones the page does not set empty. *)
Definition element (tg : string) (rl : option string) (tx : string)
  (x y w h : Q) : Element :=
  {| el_tag := Some tg; el_role := rl; el_text := Some tx;
     el_aria_label := Some ""; el_title := Some ""; el_tooltip := Some "";
     el_visible := true;
     el_x := Some x; el_y := Some y; el_width := Some w; el_height := Some h |}.

Definition projects_link := element "a" (Some "link") "Projects" 0 100 120 24.
Definition open_project_link := element "a" (Some "link") "Open project" 0 130 120 24.

Definition template_panel := element "div" None "Create Project Template" 0 0 300 200.
Definition create_button := element "button" (Some "button") "Create Project" 10 10 120 32.

Definition address_dialog := element "div" (Some "dialog") "Shipping address" 100 100 400 300.
Definition country_inside := element "div" None "Country" 120 160 200 24.
Definition country_outside := element "button" (Some "combobox") "Country" 600 40 160 32.
Definition address_page := [address_dialog; country_inside; country_outside].

Definition done_column := element "div" None "Done" 0 0 100 20.

Example strip_example : strip "  Save As  " = "Save As".
Proof. reflexivity. Qed.

Example extract_quoted_example :
  _extract_quoted "Click ' New Project' then 'OK' or 'x" = ["New Project"; "OK"].
Proof. reflexivity. Qed.

Example normalize_example :
  _normalize_intent "Press the New button, renew+" = "click the create button, renew+".
Proof. vm_compute. reflexivity. Qed.

Example tokens_example :
  _tokens "click the 'create project' button" = ["click"; "create"; "project"].
Proof. vm_compute. reflexivity. Qed.

Example ratio_example : Difflib.ratio "open 'project'" "open project" == 24 # 26.
Proof. vm_compute. reflexivity. Qed.

(** The scenario of the specification: the button that carries the quoted
    label wins over the panel with the longer text. *)
Lemma create_project_scenario :
  locate_element_for_intent "Click 'Create Project'"
    (Some [template_panel; create_button; projects_link])
  = Some create_button.
Proof.
  apply (literal_match_is_best_candidate "Click 'Create Project'"
           [template_panel] [projects_link] create_button).
  - vm_compute. reflexivity.
  - intros e [<-|[<-|[]]]; vm_compute; reflexivity.
  - intros e [<-|[<-|[]]] _; left; vm_compute; reflexivity.
Defined.

(** C5 fails as stated: the literal of the intent matches the first link
    and no other element, and the second link is the best candidate. *)
Lemma matching_literal_is_outscored :
  _extract_quoted "Open 'Projects'" = ["Projects"]
  /\ literal_match ["Projects"] projects_link = true
  /\ literal_match ["Projects"] open_project_link = false
  /\ locate_element_for_intent "Open 'Projects'"
       (Some [projects_link; open_project_link])
     = Some open_project_link
  /\ open_project_link <> projects_link.
Proof.
  split; [reflexivity|].
  split; [reflexivity|].
  split; [reflexivity|].
  split; [vm_compute; reflexivity | discriminate].
Qed.

(** An accented capital is folded like any other: the label in capitals
    earns the bonus for the literal in small letters. *)
Definition editer_capitals : string := String (ascii_of_nat 201) "DITER".
Definition editer_small : string := String (ascii_of_nat 233) "diter".

Example accented_label_matches :
  lower editer_capitals = editer_small
  /\ strip (String (ascii_of_nat 160) editer_small) = editer_small
  /\ literal_match [editer_small]
       (element "button" (Some "button") editer_capitals 0 0 80 24) = true.
Proof. repeat split. Qed.

(** C7 fails as stated: the second literal of the intent equals the text
    of the element, and the literals add nothing to its score. *)
Lemma second_literal_earns_no_bonus :
  _extract_quoted "Move 'Backlog' to 'Done'" = ["Backlog"; "Done"]
  /\ lower "Done" = lower (strip (or_empty (el_text done_column)))
  /\ _score_element (_normalize_intent "Move 'Backlog' to 'Done'")
       (_tokens (_normalize_intent "Move 'Backlog' to 'Done'"))
       (_extract_quoted "Move 'Backlog' to 'Done'") done_column None
     == _score_element (_normalize_intent "Move 'Backlog' to 'Done'")
          (_tokens (_normalize_intent "Move 'Backlog' to 'Done'"))
          [] done_column None.
Proof.
  split; [reflexivity|].
  split; [reflexivity|].
  vm_compute. reflexivity.
Qed.

(** C6 fails as stated: with an intent that signals both an activation
    and a fill action, the combobox button outside the dialog scores
    higher than the identically labeled element inside it. *)
Lemma outside_combobox_outranks_inside :
  is_big_dialog address_dialog = true
  /\ el_text country_inside = el_text country_outside
  /\ el_aria_label country_inside = el_aria_label country_outside
  /\ el_title country_inside = el_title country_outside
  /\ el_tooltip country_inside = el_tooltip country_outside
  /\ within_dialog address_page country_inside = true
  /\ within_dialog address_page country_outside = false
  /\ _score_element (_normalize_intent "Click the 'Country' input")
       (_tokens (_normalize_intent "Click the 'Country' input"))
       (_extract_quoted "Click the 'Country' input")
       country_inside (_find_dialog_bounds address_page)
     < _score_element (_normalize_intent "Click the 'Country' input")
         (_tokens (_normalize_intent "Click the 'Country' input"))
         (_extract_quoted "Click the 'Country' input")
         country_outside (_find_dialog_bounds address_page).
Proof.
  repeat (split; [reflexivity|]).
  vm_compute. reflexivity.
Qed.

(** The bounds of the dialog of the address page. *)
Definition address_bounds : Bounds := (100, 100, 400, 300).

Example address_bounds_found : _find_dialog_bounds address_page = Some address_bounds.
Proof. reflexivity. Qed.

(** With an intent that signals an activation only, the element inside
    the dialog is not outranked. *)
Lemma inside_country_not_outranked :
  _score_element (_normalize_intent "Click 'Country'")
    (_tokens (_normalize_intent "Click 'Country'"))
    (_extract_quoted "Click 'Country'")
    country_outside (Some address_bounds)
  <= _score_element (_normalize_intent "Click 'Country'")
       (_tokens (_normalize_intent "Click 'Country'"))
       (_extract_quoted "Click 'Country'")
       country_inside (Some address_bounds)
  /\ (labeled country_inside = true ->
      _score_element (_normalize_intent "Click 'Country'")
        (_tokens (_normalize_intent "Click 'Country'"))
        (_extract_quoted "Click 'Country'")
        country_outside (Some address_bounds) + 0.02
      <= _score_element (_normalize_intent "Click 'Country'")
           (_tokens (_normalize_intent "Click 'Country'"))
           (_extract_quoted "Click 'Country'")
           country_inside (Some address_bounds)).
Proof.
  apply (outside_never_outranks_inside
           (_normalize_intent "Click 'Country'")
           (_tokens (_normalize_intent "Click 'Country'"))
           (_extract_quoted "Click 'Country'")
           address_bounds country_inside country_outside).
  - reflexivity.
  - reflexivity.
  - reflexivity.
  - reflexivity.
  - vm_compute. reflexivity.
  - vm_compute. reflexivity.
  - vm_compute. discriminate.
Defined.

(** The sums of the containment test are rounded: an element that starts
    at 100.1 and is 300.1 wide ends, for the source, beyond a dialog that
    is 400.2 wide, although the decimal sums agree. *)
Example rounded_sum_leaves_the_bounds :
  _inside (0, 0, 400.2, 50) (element "div" None "Row" 100.1 10 300.1 20) = false
  /\ 100.1 + 300.1 == 400.2.
Proof. split; [vm_compute; reflexivity | reflexivity]. Qed.

End LocatorExamples.

(* ===================================================================== *)
(** ** Traces of the effectful code *)
(* ===================================================================== *)

Module TraceFacts.

Section Emits.

Context {surface : Surface}.

(** Running [m] from [st] appends exactly [evs] to the trace. *)
Definition emits {A} (m : M A) (st : St) (evs : list Event) : Prop :=
  trace (snd (m st)) = (trace st ++ evs)%list.

Lemma emits_ret {A} (a : A) (st : St) : emits (ret a) st [].
Proof. unfold emits, ret. simpl. now rewrite app_nil_r. Qed.

Lemma emits_act (e : Event) (f : World -> World) (st : St) : emits (act e f) st [e].
Proof. reflexivity. Qed.

Lemma emits_ask {A} (e : Event) (f : World -> A * World) (st : St) :
  emits (ask e f) st [e].
Proof. unfold emits, ask. destruct (f (world st)). reflexivity. Qed.

Lemma emits_look {A} (f : World -> A) (st : St) : emits (look f) st [].
Proof. unfold emits, look. simpl. now rewrite app_nil_r. Qed.

Lemma emits_bind {A B} (m : M A) (k : A -> M B) (st : St) (evs1 evs2 : list Event) :
  emits m st evs1 ->
  emits (k (fst (m st))) (snd (m st)) evs2 ->
  emits (bind m k) st (evs1 ++ evs2)%list.
Proof.
  unfold emits, bind. destruct (m st) as [a st1]. simpl.
  intros H1 H2. now rewrite H2, H1, app_assoc.
Qed.

Lemma bind_run {A B} (m : M A) (k : A -> M B) (st : St) :
  bind m k st = k (fst (m st)) (snd (m st)).
Proof. unfold bind. now destruct (m st). Qed.

(** The events of one run are determined by it. *)
Lemma emits_unique {A} (m : M A) (st : St) (evs1 evs2 : list Event) :
  emits m st evs1 -> emits m st evs2 -> evs1 = evs2.
Proof.
  unfold emits. intros H1 H2. rewrite H1 in H2. now apply app_inv_head in H2.
Qed.

End Emits.

End TraceFacts.

(* ===================================================================== *)
(** ** The verification router *)
(* ===================================================================== *)

Module VerifierFacts.

Import PyStr Verifier TraceFacts.

Section Router.

Context {surface : Surface}.

(** The probes of the dialog check. *)
Definition is_dialog_probe (e : Event) : bool :=
  match e with
  | EvWaitDialog _ | EvDialogText => true
  | _ => false
  end.

(** The literals the router works with: those of the expected outcome,
    or else those of the intent. *)
Definition literals_of (intent expected_state : string) : list string :=
  match _extract_all_quoted (strip expected_state) with
  | [] => _extract_all_quoted intent
  | qs => qs
  end.

Lemma verify_dialog_open_emits (must_contain : option string) (st : St) :
  exists evs,
    emits (verify_dialog_open must_contain) st evs
    /\ forallb is_dialog_probe evs = true.
Proof.
  unfold verify_dialog_open, emits.
  rewrite bind_run.
  pose proof (emits_ask (EvWaitDialog 3000) (page_wait_for_dialog 3000) st) as H1.
  unfold emits in H1.
  destruct (ask (EvWaitDialog 3000) (page_wait_for_dialog 3000) st) as [appeared st1].
  simpl in *.
  destruct appeared; simpl.
  - destruct must_contain as [needle|]; [destruct (truthy needle); simpl|].
    + rewrite bind_run.
      pose proof (emits_ask EvDialogText page_dialog_text st1) as H2.
      unfold emits in H2.
      destruct (ask EvDialogText page_dialog_text st1) as [dlg st2]. simpl in *.
      exists [EvWaitDialog 3000; EvDialogText]. split; [|reflexivity].
      destruct dlg; simpl; rewrite H2, H1, <- app_assoc; reflexivity.
    + exists [EvWaitDialog 3000]. split; [exact H1 | reflexivity].
    + exists [EvWaitDialog 3000]. split; [exact H1 | reflexivity].
  - exists [EvWaitDialog 3000]. split; [exact H1 | reflexivity].
Qed.

(** C9. When the lowercased expected outcome mentions dialog, modal or
    prompt, the verdict of the router is the verdict of the dialog check on
    the first literal, whatever other keywords (button, link, menuitem,
    tab) it mentions, and the only probes made are those of the dialog
    check: the check of an element by role and name is not run. *)
Theorem dialog_rule_decides_first
  (intent expected_state : string) (st : St) :
  contains_any ["dialog"; "modal"; "prompt"] (lower (strip expected_state)) = true ->
  verify_step intent expected_state st
  = verify_dialog_open (hd_error (literals_of intent expected_state)) st
  /\ exists evs,
      emits (verify_step intent expected_state) st evs
      /\ forallb is_dialog_probe evs = true
      /\ forall role name, ~ In (EvElementExists role name) evs.
Proof.
  intros Hdialog.
  assert (verify_step intent expected_state st
          = verify_dialog_open (hd_error (literals_of intent expected_state)) st) as Heq.
  { unfold verify_step. cbv zeta. rewrite Hdialog. reflexivity. }
  split; [exact Heq|].
  destruct (verify_dialog_open_emits (hd_error (literals_of intent expected_state)) st)
    as [evs [Hev Hprobe]].
  exists evs. split; [|split].
  - unfold emits in *. now rewrite Heq.
  - exact Hprobe.
  - intros role name Hin.
    rewrite forallb_forall in Hprobe. specialize (Hprobe _ Hin). discriminate.
Qed.

End Router.

End VerifierFacts.

(* ===================================================================== *)
(** ** The recovery machine *)
(* ===================================================================== *)

Module RecoveryFacts.

Import PyStr Locator Recovery TraceFacts.

(** The events a run added to the trace. *)
Definition new_events {surface : Surface} (st st' : St) : list Event :=
  skipn (List.length (trace st)) (trace st').

Definition is_stabilize (e : Event) : bool :=
  match e with
  | EvStabilize => true
  | _ => false
  end.

(** The number of rounds begun: each round stabilises the page once. *)
Definition rounds (evs : list Event) : nat := List.length (filter is_stabilize evs).

(** The element of the first call of the executor. *)
Fixpoint first_executed (evs : list Event) : option Element :=
  match evs with
  | [] => None
  | EvExecute _ el :: _ => Some el
  | _ :: rest => first_executed rest
  end.

(** *** The order of trial *)

Lemma order_candidates_incl (prev : option Element) (candidates : list Element) (el : Element) :
  In el (order_candidates prev candidates) -> In el candidates.
Proof.
  unfold order_candidates.
  destruct (filter _ candidates) as [|c r] eqn:E; [trivial|].
  rewrite <- E. intros H. apply filter_In in H. tauto.
Qed.

Lemma order_candidates_nil (prev : option Element) (candidates : list Element) :
  order_candidates prev candidates = [] -> candidates = [].
Proof.
  unfold order_candidates.
  destruct (filter _ candidates) as [|c r] eqn:E; [trivial | discriminate].
Qed.

Lemma order_candidates_distinct (prev : option Element) (candidates : list Element) :
  (exists c, In c candidates /\ _is_same prev (Some c) = false) ->
  forall el, In el (order_candidates prev candidates) -> _is_same prev (Some el) = false.
Proof.
  intros [c [Hc Hd]] el. unfold order_candidates.
  destruct (filter _ candidates) as [|c' r] eqn:E.
  - exfalso.
    assert (In c (filter (fun el => negb (_is_same prev (Some el))) candidates)) as Hin.
    { apply filter_In. split; [exact Hc | now rewrite Hd]. }
    rewrite E in Hin. contradiction.
  - rewrite <- E. intros H. apply filter_In in H.
    destruct H as [_ H]. now apply negb_true_iff in H.
Qed.

(** *** What one round does *)

Section Machine.

Context {sim : Similarity} {surface : Surface}.

Lemma new_events_emitted (st st' : St) (evs : list Event) :
  trace st' = (trace st ++ evs)%list -> new_events st st' = evs.
Proof.
  intros H. unfold new_events. rewrite H.
  rewrite skipn_app, skipn_all, Nat.sub_diag. reflexivity.
Qed.

Lemma try_candidates_emits (intent : string) (step_idx : Z) :
  forall (ordered : list Element) (st : St),
  exists tried rest,
    ordered = (tried ++ rest)%list
    /\ emits (try_candidates ordered intent step_idx) st (map (EvExecute step_idx) tried)
    /\ (ordered <> [] -> tried <> [])
    /\ (fst (try_candidates ordered intent step_idx st) = None -> rest = []).
Proof.
  induction ordered as [|el ordered IH]; intros st.
  - exists [], []. repeat split; try reflexivity.
    + apply emits_ret.
    + intros H. now contradiction H.
  - simpl try_candidates. unfold emits in *. rewrite bind_run.
    pose proof (emits_ask (EvExecute step_idx el)
                  (execute_action el intent step_idx) st) as H1.
    unfold emits in H1.
    destruct (ask (EvExecute step_idx el) (execute_action el intent step_idx) st)
      as [outcome st1].
    simpl fst in *. simpl snd in *.
    destruct (IH st1) as (tried & rest & Heq & Hev & Hne & Hrest).
    assert (exists tried' rest',
               (el :: ordered) = (tried' ++ rest')%list
               /\ trace (snd (try_candidates ordered intent step_idx st1))
                  = (trace st ++ map (EvExecute step_idx) tried')%list
               /\ tried' <> []
               /\ (fst (try_candidates ordered intent step_idx st1) = None -> rest' = []))
      as Hcont.
    { exists (el :: tried), rest. split; [simpl; now rewrite Heq|].
      split; [|split; [discriminate | exact Hrest]].
      rewrite Hev, H1. simpl. now rewrite <- app_assoc. }
    destruct outcome as [|r].
    + destruct Hcont as (t' & r' & E1 & E2 & E3 & E4).
      exists t', r'. repeat split; auto.
    + destruct (status r =? "success").
      * exists [el], ordered. simpl. repeat split; try discriminate. exact H1.
      * destruct Hcont as (t' & r' & E1 & E2 & E3 & E4).
        exists t', r'. repeat split; auto.
Qed.

Lemma refresh_emits (step_idx : Z) (intent expected : string) (st : St) :
  exists waits,
    emits (refresh step_idx intent expected) st
      (EvStabilize :: waits ++ [EvClosePopups; EvPerceive step_idx])%list
    /\ (waits = [] \/ waits = [EvWaitDialog 2500]).
Proof.
  unfold refresh, _gentle_stabilize, _close_easy_popups, _wait_if_dialog_expected.
  cbv zeta.
  destruct (contains_any _ _).
  - exists [EvWaitDialog 2500]. split; [|now right].
    unfold emits, bind, act, ask, ret. simpl.
    destruct (page_wait_for_dialog 2500 _). simpl.
    now rewrite <- !app_assoc.
  - exists []. split; [|now left].
    unfold emits, bind, act, ret. simpl. now rewrite <- !app_assoc.
Qed.

(** The candidates a round works with: those of the snapshot taken by its
    own refresh. *)
Definition round_candidates (step_idx : Z) (intent expected : string) (st : St)
  : list Element :=
  fst (fresh_candidates intent step_idx (snd (refresh step_idx intent expected st))).

Lemma fresh_candidates_pure (intent : string) (step_idx : Z) (st : St) :
  snd (fresh_candidates intent step_idx st) = st.
Proof.
  unfold fresh_candidates, bind, look, ret. simpl.
  destruct (locate_top_candidates _ _ _); [|reflexivity].
  destruct (locate_element_for_intent _ _); reflexivity.
Qed.

Lemma attempt_round_emits (step_idx : Z) (intent expected : string)
  (prev : option Element) (st : St) :
  exists waits tried rest,
    order_candidates prev (round_candidates step_idx intent expected st)
    = (tried ++ rest)%list
    /\ emits (attempt_round step_idx intent expected prev) st
         ((EvStabilize :: waits ++ [EvClosePopups; EvPerceive step_idx])
          ++ map (EvExecute step_idx) tried)%list
    /\ (waits = [] \/ waits = [EvWaitDialog 2500])
    /\ (round_candidates step_idx intent expected st <> [] -> tried <> [])
    /\ (fst (attempt_round step_idx intent expected prev st) = None -> rest = []).
Proof.
  destruct (refresh_emits step_idx intent expected st) as (waits & Hw & Hwaits).
  unfold attempt_round, round_candidates.
  rewrite !bind_run.
  set (st1 := snd (refresh step_idx intent expected st)) in *.
  rewrite (fresh_candidates_pure intent step_idx st1).
  set (candidates := fst (fresh_candidates intent step_idx st1)).
  destruct (try_candidates_emits intent step_idx (order_candidates prev candidates) st1)
    as (tried & rest & Heq & Hev & Hne & Hrest).
  exists waits, tried, rest. split; [exact Heq|].
  split; [|split; [exact Hwaits|split; [|exact Hrest]]].
  - unfold emits in *. rewrite bind_run, bind_run.
    fold st1. rewrite (fresh_candidates_pure intent step_idx st1).
    fold candidates. rewrite Hev. unfold st1. rewrite Hw.
    now rewrite <- app_assoc.
  - intros Hc. apply Hne. intros Ho. apply order_candidates_nil in Ho. contradiction.
Qed.

Lemma first_executed_skip (evs rest : list Event) :
  (forall e, In e evs -> match e with EvExecute _ _ => False | _ => True end) ->
  first_executed (evs ++ rest) = first_executed rest.
Proof.
  induction evs as [|e evs IH]; intros H; simpl; [reflexivity|].
  assert (first_executed (evs ++ rest) = first_executed rest) as Hr.
  { apply IH. intros e' He'. apply H. now right. }
  specialize (H e (or_introl eq_refl)).
  destruct e; try exact Hr. contradiction.
Qed.

Lemma first_executed_round (step_idx : Z) (waits : list Event)
  (tried : list Element) (later : list Event) :
  waits = [] \/ waits = [EvWaitDialog 2500] ->
  tried <> [] ->
  first_executed
    (((EvStabilize :: waits ++ [EvClosePopups; EvPerceive step_idx])
      ++ map (EvExecute step_idx) tried) ++ later)
  = hd_error tried.
Proof.
  intros Hw Ht. destruct tried as [|el tried]; [contradiction|].
  rewrite <- app_assoc. rewrite first_executed_skip; [reflexivity|].
  intros e He. destruct Hw as [-> | ->]; simpl in He;
    repeat (destruct He as [<-|He]; [exact I|]); contradiction.
Qed.

Lemma rounds_of_round (step_idx : Z) (waits : list Event) (tried : list Element) :
  waits = [] \/ waits = [EvWaitDialog 2500] ->
  rounds ((EvStabilize :: waits ++ [EvClosePopups; EvPerceive step_idx])
          ++ map (EvExecute step_idx) tried) = 1%nat.
Proof.
  intros Hw. unfold rounds.
  assert (filter is_stabilize (map (EvExecute step_idx) tried) = []) as Hex.
  { induction tried as [|el tried IH]; simpl; [reflexivity | exact IH]. }
  rewrite filter_app, Hex. destruct Hw as [-> | ->]; reflexivity.
Qed.

Lemma rounds_app (evs1 evs2 : list Event) :
  rounds (evs1 ++ evs2) = (rounds evs1 + rounds evs2)%nat.
Proof. unfold rounds. now rewrite filter_app, length_app. Qed.

(** One call of [recover_step], unfolded. *)
Lemma recover_step_unfold (fuel : nat) (step_idx : Z) (intent expected : string)
  (prev : option Element) (attempt max_attempts : Z) (st : St) :
  recover_step (S fuel) step_idx intent expected prev attempt max_attempts st
  = if (attempt >? max_attempts)%Z then
      Some ({| recovered := false; attempts := attempt - 1; result := None |}, st)
    else if perception_fails step_idx intent expected st then None
    else
      match fst (attempt_round step_idx intent expected prev st) with
      | Some r =>
          Some ({| recovered := true; attempts := attempt; result := Some r |},
                snd (attempt_round step_idx intent expected prev st))
      | None =>
          recover_step fuel step_idx intent expected prev (attempt + 1) max_attempts
            (snd (act EvEscape page_press_escape
                    (snd (attempt_round step_idx intent expected prev st))))
      end.
Proof.
  simpl. destruct (attempt >? max_attempts)%Z; [reflexivity|].
  destruct (perception_fails step_idx intent expected st); [reflexivity|].
  destruct (attempt_round step_idx intent expected prev st) as [[r|] st1]; reflexivity.
Qed.

Lemma recover_step_past_ceiling
  (fuel : nat) (step_idx : Z) (intent expected : string)
  (prev : option Element) (attempt max_attempts : Z) (st : St) :
  (attempt > max_attempts)%Z ->
  recover_step (S fuel) step_idx intent expected prev attempt max_attempts st
  = Some ({| recovered := false; attempts := attempt - 1; result := None |}, st).
Proof.
  intros H. rewrite recover_step_unfold.
  assert ((attempt >? max_attempts)%Z = true) as Hgt by (apply Z.gtb_lt; lia).
  now rewrite Hgt.
Qed.

(** C2, as the code has it. A call with [attempt > max_attempts] returns
    at once, leaving the world and the trace as they are (nothing is
    stabilised, perceived or executed), with [recovered = false], no result,
    and [attempts = attempt - 1]. *)
Theorem exhausted_call_returns_at_once
  (fuel : nat) (step_idx : Z) (intent expected : string)
  (prev : option Element) (attempt max_attempts : Z) (st : St) :
  (attempt > max_attempts)%Z ->
  recover_step (S fuel) step_idx intent expected prev attempt max_attempts st
  = Some ({| recovered := false; attempts := attempt - 1; result := None |}, st).
Proof. apply recover_step_past_ceiling. Qed.




Lemma recover_step_extends (step_idx : Z) (intent expected : string)
  (prev : option Element) (max_attempts : Z) :
  forall (fuel : nat) (attempt : Z) (st : St) r st',
    recover_step fuel step_idx intent expected prev attempt max_attempts st
    = Some (r, st') ->
    exists evs, trace st' = (trace st ++ evs)%list.
Proof.
  induction fuel as [|fuel IH]; intros attempt st r st' H; [discriminate|].
  rewrite recover_step_unfold in H.
  destruct (attempt >? max_attempts)%Z.
  - injection H as _ <-. exists []. now rewrite app_nil_r.
  - destruct (perception_fails step_idx intent expected st); [discriminate|].
    destruct (attempt_round_emits step_idx intent expected prev st)
      as (waits & tried & rest & _ & Hev & _).
    unfold emits in Hev.
    destruct (fst (attempt_round step_idx intent expected prev st)).
    + injection H as _ <-. eexists. exact Hev.
    + apply IH in H. destruct H as [evs H]. simpl in H.
      rewrite Hev, <- !app_assoc in H. eexists. exact H.
Qed.

(** C4. In a call of [recover_step] that begins a round (the attempt does
    not exceed the ceiling) with a previous element, let the candidates be
    those the round obtains from its fresh snapshot.  If one of them has a
    bounding box that differs from the previous element's, the first
    element the executor is called on is a candidate with a different
    bounding box; and whenever there are candidates, the first element
    executed is one of them and has the previous element's bounding box only
    if every candidate has it. *)
Theorem first_retry_avoids_previous_box
  (fuel : nat) (step_idx : Z) (intent expected : string) (prev : Element)
  (attempt max_attempts : Z) (st : St) (r : RecoveryResult) (st' : St) :
  (attempt <= max_attempts)%Z ->
  recover_step fuel step_idx intent expected (Some prev) attempt max_attempts st
  = Some (r, st') ->
  let candidates := round_candidates step_idx intent expected st in
  ((exists c, In c candidates /\ _is_same (Some prev) (Some c) = false) ->
   exists el,
     first_executed (new_events st st') = Some el
     /\ In el candidates
     /\ _is_same (Some prev) (Some el) = false)
  /\ (candidates <> [] ->
      exists el,
        first_executed (new_events st st') = Some el
        /\ In el candidates
        /\ (_is_same (Some prev) (Some el) = true ->
            forall c, In c candidates -> _is_same (Some prev) (Some c) = true)).
Proof.
  intros Hle Hrun candidates.
  destruct fuel as [|fuel]; [discriminate|].
  rewrite recover_step_unfold in Hrun.
  assert ((attempt >? max_attempts)%Z = false) as Hgt.
  { rewrite Z.gtb_ltb. apply Z.ltb_ge. lia. }
  rewrite Hgt in Hrun.
  destruct (perception_fails step_idx intent expected st); [discriminate|].
  destruct (attempt_round_emits step_idx intent expected (Some prev) st)
    as (waits & tried & rest & Hord & Hev & Hw & Hne & _).
  fold candidates in Hord, Hne. unfold emits in Hev.
  assert (exists later,
             new_events st st'
             = (((EvStabilize :: waits ++ [EvClosePopups; EvPerceive step_idx])
                 ++ map (EvExecute step_idx) tried) ++ later)%list) as [later Hnew].
  { destruct (fst (attempt_round step_idx intent expected (Some prev) st)).
    - injection Hrun as _ <-. exists [].
      rewrite app_nil_r. now apply new_events_emitted.
    - apply recover_step_extends in Hrun. destruct Hrun as [evs Hevs].
      simpl in Hevs. rewrite Hev in Hevs.
      exists ([EvEscape] ++ evs)%list. apply new_events_emitted.
      rewrite Hevs, <- !app_assoc. reflexivity. }
  assert (candidates <> [] ->
          exists el,
            first_executed (new_events st st') = Some el
            /\ In el (order_candidates (Some prev) candidates)) as Hfirst.
  { intros Hc. specialize (Hne Hc).
    rewrite Hnew, first_executed_round by assumption.
    destruct tried as [|el tried]; [contradiction|].
    exists el. split; [reflexivity|]. rewrite Hord. now left. }
  split.
  - intros Hex.
    assert (candidates <> []) as Hc.
    { destruct Hex as [c [Hc _]]. intros E. rewrite E in Hc. contradiction. }
    destruct (Hfirst Hc) as [el [H1 H2]].
    exists el. split; [exact H1|]. split.
    + eapply order_candidates_incl, H2.
    + eapply order_candidates_distinct; eassumption.
  - intros Hc. destruct (Hfirst Hc) as [el [H1 H2]].
    exists el. split; [exact H1|]. split.
    + eapply order_candidates_incl, H2.
    + intros Hsame c Hin.
      destruct (_is_same (Some prev) (Some c)) eqn:Ec; [reflexivity|].
      assert (_is_same (Some prev) (Some el) = false) as Hd.
      { eapply order_candidates_distinct; [exists c; split; eassumption | exact H2]. }
      congruence.
Qed.

End Machine.

End RecoveryFacts.

(* ===================================================================== *)
(** ** The orchestrator *)
(* ===================================================================== *)

Module OrchestratorFacts.

Import PyStr Locator Verifier Orchestrator TraceFacts.

(** The events only the recovery machine produces. *)
Definition is_recovery_event (e : Event) : bool :=
  match e with
  | EvStabilize | EvClosePopups | EvEscape => true
  | _ => false
  end.

Definition no_recovery (evs : list Event) : Prop :=
  forallb (fun e => negb (is_recovery_event e)) evs = true.

Lemma no_recovery_app (evs1 evs2 : list Event) :
  no_recovery evs1 -> no_recovery evs2 -> no_recovery (evs1 ++ evs2).
Proof. unfold no_recovery. intros H1 H2. now rewrite forallb_app, H1, H2. Qed.

Section Loop.

Context {sim : Similarity} {surface : Surface}.

(** [m] extends the trace by events that are not recovery events. *)
Definition quiet {A} (m : M A) : Prop :=
  forall st, exists evs, emits m st evs /\ no_recovery evs.

Lemma quiet_ret {A} (a : A) : quiet (ret a).
Proof. intros st. exists []. split; [apply emits_ret | reflexivity]. Qed.

Lemma quiet_look {A} (f : World -> A) : quiet (look f).
Proof. intros st. exists []. split; [apply emits_look | reflexivity]. Qed.

Lemma quiet_act (e : Event) (f : World -> World) :
  is_recovery_event e = false -> quiet (act e f).
Proof.
  intros He st. exists [e]. split; [apply emits_act|].
  unfold no_recovery. simpl. now rewrite He.
Qed.

Lemma quiet_ask {A} (e : Event) (f : World -> A * World) :
  is_recovery_event e = false -> quiet (ask e f).
Proof.
  intros He st. exists [e]. split; [apply emits_ask|].
  unfold no_recovery. simpl. now rewrite He.
Qed.

Lemma quiet_bind {A B} (m : M A) (k : A -> M B) :
  quiet m -> (forall a, quiet (k a)) -> quiet (bind m k).
Proof.
  intros Hm Hk st.
  destruct (Hm st) as (evs1 & E1 & Q1).
  destruct (Hk (fst (m st)) (snd (m st))) as (evs2 & E2 & Q2).
  exists (evs1 ++ evs2)%list. split.
  - now apply emits_bind.
  - now apply no_recovery_app.
Qed.

Lemma quiet_if {A} (b : bool) (m1 m2 : M A) :
  quiet m1 -> quiet m2 -> quiet (if b then m1 else m2).
Proof. now destruct b. Qed.

Lemma verify_dialog_open_quiet (must_contain : option string) :
  quiet (verify_dialog_open must_contain).
Proof.
  unfold verify_dialog_open.
  apply quiet_bind; [now apply quiet_ask|]. intros appeared.
  apply quiet_if; [apply quiet_ret|].
  destruct must_contain as [needle|]; [|apply quiet_ret].
  apply quiet_if; [apply quiet_ret|].
  apply quiet_bind; [now apply quiet_ask|].
  intros [| |txt]; apply quiet_ret.
Qed.

Lemma any_text_visible_quiet (quoted : list string) : quiet (any_text_visible quoted).
Proof.
  induction quoted as [|q rest IH]; simpl; [apply quiet_ret|].
  apply quiet_bind; [now apply quiet_ask|].
  intros seen. apply quiet_if; [apply quiet_ret | exact IH].
Qed.

Lemma verify_step_quiet (intent expected_state : string) :
  quiet (verify_step intent expected_state).
Proof.
  unfold verify_step. cbv zeta.
  apply quiet_if; [apply verify_dialog_open_quiet|].
  destruct (if contains_any ["url"; "location"; "path"; "navigate"; "navigated"] _
            then _ else None); [now apply quiet_ask|].
  apply quiet_if.
  { destruct (hd_error _) as [[|c t]|]; now apply quiet_ask. }
  destruct (if contains_any ["button"; "link"; "menuitem"; "tab"] _
            then _ else None); [now apply quiet_ask|].
  destruct (if contains_any ["visible"; "appears"; "shown"; "displayed"; "listed"; "present"] _
            then _ else None); [now apply quiet_ask|].
  destruct (match _extract_all_quoted (strip expected_state) with
            | [] => _extract_all_quoted intent
            | _ => _
            end) as [|q qs]; [apply quiet_ret | apply any_text_visible_quiet].
Qed.

Lemma run_step_quiet (step_idx : Z) (step : PlanStep) : quiet (run_step step_idx step).
Proof.
  unfold run_step, persist. cbv zeta.
  apply quiet_bind; [now apply quiet_act|]. intros _.
  apply quiet_bind; [apply quiet_look|]. intros perception.
  destruct (locate_element_for_intent _ perception) as [element|].
  - apply quiet_bind; [now apply quiet_ask|].
    intros [|result]; [apply quiet_ret|].
    apply quiet_bind; [apply verify_step_quiet|]. intros ok.
    apply quiet_bind; [now apply quiet_act|]. intros _.
    apply quiet_bind; [now apply quiet_act|]. intros _.
    apply quiet_ret.
  - apply quiet_bind; [now apply quiet_act|]. intros _. apply quiet_ret.
Qed.

(** Whatever the plan and the world, the loop of [run_plan] stabilises
    nothing, closes no popups and presses no key: it never enters the
    recovery machine. *)
Lemma run_plan_never_recovers (plan : list PlanStep) : quiet (run_plan plan).
Proof.
  unfold run_plan. generalize 1%Z.
  induction plan as [|step rest IH]; intros step_idx; simpl.
  - apply quiet_ret.
  - apply quiet_bind; [apply run_step_quiet|].
    intros continue. apply quiet_if; [apply IH | apply quiet_ret].
Qed.

End Loop.

End OrchestratorFacts.

(* ===================================================================== *)
(** ** A scripted page: the effectful code on a concrete world *)
(* ===================================================================== *)

Module Scenario.

Import PyStr Locator Verifier Recovery Orchestrator TraceFacts RecoveryFacts.

(** A page whose elements do not move, and the executor on it in outline.
    A click reaches a live element that carries the quoted label of the
    intent, if there is one (the strategies by menu item and by label), and
    else the chosen element; it fails when that element is dead.  A
    successful action reveals the texts of [pg_reveal]. *)
Record Page := {
  pg_elements : list Element;
  pg_file : option (list Element);
  pg_dialog : option string;
  pg_shown : list string;
  pg_reveal : list string;
  pg_dead : Element -> bool
}.

Definition outcome_of (st : string) (intent : string) (el : Element)
  (err : option string) : ExecResult :=
  {| status := st; action := "click";
     label := hd_error (_extract_quoted intent); aria_label := None;
     used_text := el_text el; tag := el_tag el; error := err |}.

(** A live element of the page carries the quoted label of the intent. *)
Definition reached_by_label (intent : string) (w : Page) : bool :=
  match hd_error (_extract_quoted intent) with
  | Some l =>
      truthy l
      && existsb (fun e => negb (pg_dead w e) && (strip (or_empty (el_text e)) =? l))
           (pg_elements w)
  | None => false
  end.

Definition scripted_execute (el : Element) (intent : string) (step : Z) (w : Page)
  : ExecOutcome * Page :=
  if negb (reached_by_label intent w) && pg_dead w el
  then (Returned (outcome_of "fail" intent el (Some "Timeout 4000ms exceeded")), w)
  else (Returned (outcome_of "success" intent el None),
        {| pg_elements := pg_elements w; pg_file := pg_file w;
           pg_dialog := pg_dialog w;
           pg_shown := (pg_reveal w ++ pg_shown w)%list;
           pg_reveal := pg_reveal w; pg_dead := pg_dead w |}).

Definition scripted_capture (step : Z) (w : Page) : Page :=
  {| pg_elements := pg_elements w; pg_file := Some (pg_elements w);
     pg_dialog := pg_dialog w; pg_shown := pg_shown w;
     pg_reveal := pg_reveal w; pg_dead := pg_dead w |}.

#[export] Instance scripted_surface : Surface := {|
  World := Page;
  page_gentle_stabilize := fun w => w;
  page_close_easy_popups := fun w => w;
  page_press_escape := fun w => w;
  page_wait_for_dialog := fun _ w =>
    (match pg_dialog w with Some _ => true | None => false end, w);
  page_dialog_text := fun w =>
    (match pg_dialog w with Some txt => InnerText txt | None => NoDialog end, w);
  capture_perception := scripted_capture;
  perception_raises := fun _ _ => false;
  read_perception := fun _ w => pg_file w;
  execute_action := scripted_execute;
  verify_url_contains := fun _ w => (false, w);
  verify_textbox_value := fun _ w => (false, w);
  first_textbox_exists := fun w => (false, w);
  verify_element_exists := fun role name w =>
    (existsb (fun el => (lower (or_empty (el_role el)) =? role)
                        && (strip (or_empty (el_text el)) =? name))
       (pg_elements w), w);
  verify_text_visible := fun text w => (mem text (pg_shown w), w)
|}.

Definition save_button :=
  LocatorExamples.element "button" (Some "button") "Save" 900 20 80 32.
Definition save_menuitem :=
  LocatorExamples.element "div" (Some "menuitem") "Save" 40 120 160 28.
Definition help_link :=
  LocatorExamples.element "a" (Some "link") "Help" 1000 20 60 32.

(** The toolbar button does not react; the menu item does. *)
Definition editor_page : Page :=
  {| pg_elements := [save_button; save_menuitem; help_link];
     pg_file := None;
     pg_dialog := None;
     pg_shown := ["Save"; "Help"];
     pg_reveal := ["Saved"];
     pg_dead := fun el => lower (or_empty (el_tag el)) =? "button" |}.

Definition editor : St := {| world := editor_page; trace := [] |}.

(** The call with an attempt number just above the ceiling. *)
Lemma exhausted_at_three_of_two :
  recover_step 1 1 "Click 'Save'" "'Saved' is visible" (Some save_button) 3 2 editor
  = Some ({| recovered := false; attempts := 3 - 1; result := None |}, editor).
Proof.
  apply exhausted_call_returns_at_once. lia.
Defined.

(** C2 fails as stated: called with attempt 5 and ceiling 2, the machine
    reports 4 attempts, not 2. *)
Lemma exhausted_at_five_of_two_reports_four :
  recover_step 1 1 "Click 'Save'" "'Saved' is visible" (Some save_button) 5 2 editor
  = Some ({| recovered := false; attempts := 4; result := None |}, editor)
  /\ (4 <> 2)%Z.
Proof.
  split; [reflexivity | discriminate].
Qed.

(** The retry of the Save step on the editor page returns, recovered. *)
Lemma editor_retry_runs :
  exists r st',
    recover_step 3 1 "Click 'Save'" "'Saved' is visible" (Some save_button) 1 2 editor
    = Some (r, st')
    /\ recovered r = true.
Proof.
  assert (option_map (fun p => recovered (fst p))
            (recover_step 3 1 "Click 'Save'" "'Saved' is visible"
               (Some save_button) 1 2 editor) = Some true) as H
    by (vm_compute; reflexivity).
  revert H. generalize (recover_step 3 1 "Click 'Save'" "'Saved' is visible"
                          (Some save_button) 1 2 editor).
  intros [[r st']|] H; [|discriminate].
  exists r, st'. split; [reflexivity|]. simpl in H. congruence.
Qed.

(** The retry on the editor page goes to the menu item first. *)
Lemma retry_on_editor_avoids_the_button :
  exists r st',
    recover_step 3 1 "Click 'Save'" "'Saved' is visible" (Some save_button) 1 2 editor
    = Some (r, st')
    /\ exists el,
        first_executed (new_events editor st') = Some el
        /\ In el (round_candidates 1 "Click 'Save'" "'Saved' is visible" editor)
        /\ _is_same (Some save_button) (Some el) = false.
Proof.
  destruct editor_retry_runs as (r & st' & E & _).
  exists r, st'. split; [exact E|].
  apply (proj1 (first_retry_avoids_previous_box 3 1 "Click 'Save'"
                  "'Saved' is visible" save_button 1 2 editor r st'
                  ltac:(lia) E)).
  exists save_menuitem. split; [|reflexivity].
  vm_compute. right. left. reflexivity.
Defined.

Definition confirm_page : Page :=
  {| pg_elements := [save_button];
     pg_file := None;
     pg_dialog := Some "Delete project? Cancel Delete";
     pg_shown := [];
     pg_reveal := [];
     pg_dead := fun _ => false |}.

(** An expected outcome that mentions a dialog and a button. *)
Lemma dialog_with_button_is_checked_as_dialog :
  verify_step "Click 'Delete'" "Dialog with 'Delete' button is shown"
    {| world := confirm_page; trace := [] |}
  = verify_dialog_open
      (hd_error (VerifierFacts.literals_of "Click 'Delete'"
                   "Dialog with 'Delete' button is shown"))
      {| world := confirm_page; trace := [] |}
  /\ exists evs,
      emits (verify_step "Click 'Delete'" "Dialog with 'Delete' button is shown")
        {| world := confirm_page; trace := [] |} evs
      /\ forallb VerifierFacts.is_dialog_probe evs = true
      /\ forall role name, ~ In (EvElementExists role name) evs.
Proof.
  apply VerifierFacts.dialog_rule_decides_first. reflexivity.
Defined.

End Scenario.

(* ********************************************************************* *)
(** * Further properties of the code *)
(* ********************************************************************* *)

(* ===================================================================== *)
(** ** The normalizer: literals and tokens *)
(* ===================================================================== *)

Module NormalizerFacts.

Import PyStr Locator.

(** Every character of the string satisfies [p]. *)
Fixpoint all_chars (p : ascii -> bool) (s : string) : bool :=
  match s with
  | EmptyString => true
  | String c s' => p c && all_chars p s'
  end.

Definition is_quote (c : ascii) : bool := Ascii.eqb c squote || Ascii.eqb c dquote.

Lemma lstrip_length (s : string) : (String.length (lstrip s) <= String.length s)%nat.
Proof.
  induction s as [|c s IH]; simpl; [lia|].
  destruct (is_space c); simpl; lia.
Qed.

Lemma rstrip_length (s : string) : (String.length (rstrip s) <= String.length s)%nat.
Proof.
  induction s as [|c s IH]; simpl; [lia|].
  destruct (rstrip s) as [|c' r]; [destruct (is_space c)|]; simpl in *; lia.
Qed.

Lemma strip_length (s : string) : (String.length (strip s) <= String.length s)%nat.
Proof.
  unfold strip. pose proof (rstrip_length (lstrip s)). pose proof (lstrip_length s). lia.
Qed.

Lemma span_not_length (q : ascii) (s body rest : string) :
  span_not q s = (body, rest) ->
  String.length s = (String.length body + String.length rest)%nat.
Proof.
  revert body rest. induction s as [|c s IH]; intros body rest; simpl.
  - intros H. injection H as <- <-. reflexivity.
  - destruct (Ascii.eqb c q).
    + intros H. injection H as <- <-. reflexivity.
    + destruct (span_not q s) as [b r]. intros H. injection H as <- <-.
      simpl. now rewrite (IH b r eq_refl).
Qed.

Lemma quoted_body_length (q : ascii) (s body rest : string) :
  quoted_body q s = Some (body, rest) ->
  (1 <= String.length body <= 200)%nat
  /\ String.length s = (String.length body + 1 + String.length rest)%nat.
Proof.
  unfold quoted_body. destruct (span_not q s) as [b r] eqn:E.
  destruct r as [|c r']; [discriminate|].
  destruct ((1 <=? String.length b)%nat && (String.length b <=? 200)%nat) eqn:El;
    [|discriminate].
  intros H. injection H as <- <-.
  apply andb_true_iff in El. destruct El as [E1 E2].
  apply Nat.leb_le in E1. apply Nat.leb_le in E2.
  apply span_not_length in E. simpl in E. lia.
Qed.

Lemma finditer_quoted_literals (fuel : nat) :
  forall (s q : string),
    In q (finditer_quoted fuel s) ->
    (String.length q <= 200)%nat /\ strip q = q.
Proof.
  induction fuel as [|fuel IH]; intros s q; simpl; [contradiction|].
  destruct s as [|c s']; [contradiction|].
  destruct (Ascii.eqb c squote || Ascii.eqb c dquote); [|apply IH].
  destruct (quoted_body c s') as [[body rest]|] eqn:E; [|apply IH].
  intros [<-|H]; [|now apply (IH rest)].
  apply quoted_body_length in E. split.
  - pose proof (strip_length body). lia.
  - apply LocatorFacts.strip_idempotent.
Qed.

Lemma finditer_quoted_count (fuel : nat) :
  forall s : string,
    (3 * List.length (finditer_quoted fuel s) <= String.length s)%nat.
Proof.
  induction fuel as [|fuel IH]; intros s; simpl; [lia|].
  destruct s as [|c s']; simpl; [lia|].
  destruct (Ascii.eqb c squote || Ascii.eqb c dquote).
  - destruct (quoted_body c s') as [[body rest]|] eqn:E.
    + apply quoted_body_length in E. specialize (IH rest). simpl. lia.
    + specialize (IH s'). lia.
  - specialize (IH s'). lia.
Qed.

Lemma finditer_quoted_no_quote (fuel : nat) :
  forall s : string,
    all_chars (fun c => negb (is_quote c)) s = true ->
    finditer_quoted fuel s = [].
Proof.
  induction fuel as [|fuel IH]; intros s H; simpl; [reflexivity|].
  destruct s as [|c s']; [reflexivity|].
  simpl in H. apply andb_true_iff in H. destruct H as [Hc Hs].
  unfold is_quote in Hc. apply negb_true_iff in Hc. rewrite Hc. now apply IH.
Qed.

(** X1. The quoted literals of a text are trimmed and have at most 200
    characters each; there are at most a third as many literals as the text
    has characters (every literal takes two quotes and a character); and a
    text without a quote character has none. *)
Theorem extracted_literals_are_trimmed_and_short (s : string) :
  (forall q, In q (_extract_quoted s) ->
             (String.length q <= 200)%nat /\ strip q = q)
  /\ (3 * List.length (_extract_quoted s) <= String.length s)%nat
  /\ (all_chars (fun c => negb (is_quote c)) s = true -> _extract_quoted s = []).
Proof.
  unfold _extract_quoted. split; [|split].
  - intros q. apply finditer_quoted_literals.
  - apply finditer_quoted_count.
  - apply finditer_quoted_no_quote.
Qed.

(** *** Tokens *)

Lemma all_chars_snoc (p : ascii -> bool) (s : string) (c : ascii) :
  all_chars p (s ++ String c EmptyString) = all_chars p s && p c.
Proof.
  induction s as [|d s IH]; simpl.
  - now rewrite andb_true_r.
  - now rewrite IH, andb_assoc.
Qed.

Lemma snoc_not_empty (s : string) (c : ascii) : (s ++ String c EmptyString)%string <> "".
Proof. destruct s; discriminate. Qed.

Lemma findall_runs_tokens :
  forall (s cur t : string),
    all_chars is_token_char cur = true ->
    In t (findall_runs cur s) ->
    t <> "" /\ all_chars is_token_char t = true.
Proof.
  induction s as [|c s IH]; intros cur t Hcur; simpl.
  - destruct cur; simpl; [contradiction|].
    intros [<-|[]]. split; [discriminate | exact Hcur].
  - destruct (is_token_char c) eqn:Ec.
    + apply IH. now rewrite all_chars_snoc, Hcur, Ec.
    + intros H. apply in_app_or in H. destruct H as [H|H].
      * destruct cur; simpl in H; [contradiction|].
        destruct H as [<-|[]]. split; [discriminate | exact Hcur].
      * now apply (IH EmptyString).
Qed.

(** X2. Every token is a non-empty run of the characters a-z, 0-9 and +,
    and none is a stopword. *)
Theorem tokens_are_clean_words (s t : string) :
  In t (_tokens s) ->
  t <> "" /\ all_chars is_token_char t = true /\ mem t STOPWORDS = false.
Proof.
  unfold _tokens. intros H. apply filter_In in H. destruct H as [Hin Hstop].
  apply negb_true_iff in Hstop.
  destruct (findall_runs_tokens (lower s) "" t eq_refl Hin) as [H1 H2].
  auto.
Qed.

(** An intent with a stopword and two words. *)
Lemma tokens_of_open_settings :
  "settings" <> ""
  /\ all_chars is_token_char "settings" = true
  /\ mem "settings" STOPWORDS = false.
Proof.
  apply (tokens_are_clean_words "Open the Settings page").
  vm_compute. right. left. reflexivity.
Defined.

End NormalizerFacts.

(* ===================================================================== *)
(** ** The scorer: its terms, the dialog bounds, the ranking *)
(* ===================================================================== *)

Module ScorerFacts.

Import PyStr Locator LocatorFacts.

Lemma mem_In (x : string) (xs : list string) : mem x xs = true <-> In x xs.
Proof.
  unfold mem. rewrite existsb_exists. split.
  - intros [y [Hy He]]. apply String.eqb_eq in He. now subst.
  - intros H. exists x. split; [exact H | apply String.eqb_refl].
Qed.

Lemma one_as_fraction (n : nat) : (1 <= n)%nat -> Z.of_nat n # Pos.of_nat (Nat.max 1 n) == 1.
Proof.
  intros H. unfold Qeq. cbn [Qnum Qden].
  rewrite Zpos_of_nat by lia. lia.
Qed.

Section Terms.

Context {sim : Similarity}.

(** X3. The token overlap lies between 0 and 1; it is 0 for an intent
    without tokens and when no intent token occurs among the element's
    tokens, and 1 when the intent has tokens and all of them occur there
    (repetitions in either list do not matter). *)
Theorem token_overlap_extremes (intent_tokens el_tokens : list string) :
  0 <= _token_overlap intent_tokens el_tokens <= 1
  /\ (intent_tokens = [] -> _token_overlap intent_tokens el_tokens == 0)
  /\ ((forall t, In t intent_tokens -> ~ In t el_tokens) ->
      _token_overlap intent_tokens el_tokens == 0)
  /\ (intent_tokens <> [] ->
      (forall t, In t intent_tokens -> In t el_tokens) ->
      _token_overlap intent_tokens el_tokens == 1).
Proof.
  split; [apply _token_overlap_range|].
  split; [intros ->; reflexivity|].
  unfold _token_overlap. destruct intent_tokens as [|t0 ts]; split.
  - reflexivity.
  - intros H. now contradiction H.
  - intros Hnone.
    set (distinct := nodup string_dec (t0 :: ts)).
    assert (filter (fun t => mem t el_tokens) distinct = []) as ->.
    { destruct (filter (fun t => mem t el_tokens) distinct) as [|x r] eqn:E;
        [reflexivity|].
      assert (In x (filter (fun t => mem t el_tokens) distinct)) as Hx
        by (rewrite E; now left).
      apply filter_In in Hx. destruct Hx as [Hd Hm].
      apply nodup_In in Hd. apply mem_In in Hm. exfalso. exact (Hnone x Hd Hm). }
    reflexivity.
  - intros _ Hall.
    set (distinct := nodup string_dec (t0 :: ts)).
    assert (filter (fun t => mem t el_tokens) distinct = distinct) as ->.
    { apply forallb_filter_id. apply forallb_forall. intros x Hx.
      apply nodup_In in Hx. apply mem_In. now apply Hall. }
    apply one_as_fraction.
    assert (In t0 distinct) as H0 by (apply nodup_In; now left).
    destruct distinct; [contradiction | simpl; lia].
Qed.

Definition fuzzy_from (intent_norm : string) (fields : list string) (best : Q) : Q :=
  fold_left
    (fun best f =>
       if negb (truthy f) then best
       else let r := _ratio intent_norm (lower f) in
            if Qltb best r then r else best)
    fields best.

Lemma fuzzy_fold (intent_norm : string) (fields : list string) :
  forall best : Q,
    best <= fuzzy_from intent_norm fields best
    /\ (forall f, In f fields -> f <> "" ->
                  _ratio intent_norm (lower f) <= fuzzy_from intent_norm fields best)
    /\ (fuzzy_from intent_norm fields best = best
        \/ exists f, In f fields /\ f <> ""
                     /\ fuzzy_from intent_norm fields best
                        = _ratio intent_norm (lower f)).
Proof.
  unfold fuzzy_from.
  induction fields as [|f fields IH]; intros best; simpl.
  - split; [lra|]. split; [intros f []|now left].
  - destruct (truthy f) eqn:Ef; simpl.
    + destruct (Qltb best (_ratio intent_norm (lower f))) eqn:E.
      * apply Qltb_true in E.
        destruct (IH (_ratio intent_norm (lower f))) as (H1 & H2 & H3).
        split; [lra|]. split.
        -- intros g [<-|Hg] Hne; [exact H1 | now apply H2].
        -- right. destruct H3 as [->|(g & Hg & Hne & Hr)].
           ++ exists f. split; [now left|]. split; [|reflexivity].
              intros ->. discriminate.
           ++ exists g. split; [now right|]. now split.
      * apply Qltb_false in E.
        destruct (IH best) as (H1 & H2 & H3).
        split; [exact H1|]. split.
        -- intros g [<-|Hg] Hne; [lra | now apply H2].
        -- destruct H3 as [->|(g & Hg & Hne & Hr)]; [now left|].
           right. exists g. split; [now right|]. now split.
    + apply truthy_false in Ef. subst f.
      destruct (IH best) as (H1 & H2 & H3).
      split; [exact H1|]. split.
      * intros g [<-|Hg] Hne; [now contradiction Hne | now apply H2].
      * destruct H3 as [->|(g & Hg & Hne & Hr)]; [now left|].
        right. exists g. split; [now right|]. now split.
Qed.

(** X4. The fuzzy term is the best similarity ratio between the intent and
    the non-empty fields: it is at least the ratio of every non-empty field,
    it is the ratio of one of them unless it is 0, and it is 0 when every
    field is empty. *)
Theorem fieldwise_fuzzy_is_the_best_ratio (intent_norm : string) (fields : list string) :
  (forall f, In f fields -> f <> "" ->
             _ratio intent_norm (lower f) <= _fieldwise_fuzzy intent_norm fields)
  /\ (_fieldwise_fuzzy intent_norm fields = 0
      \/ exists f, In f fields /\ f <> ""
                   /\ _fieldwise_fuzzy intent_norm fields = _ratio intent_norm (lower f))
  /\ ((forall f, In f fields -> f = "") -> _fieldwise_fuzzy intent_norm fields = 0).
Proof.
  destruct (fuzzy_fold intent_norm fields 0) as (H1 & H2 & H3).
  change (fuzzy_from intent_norm fields 0) with (_fieldwise_fuzzy intent_norm fields) in *.
  split; [exact H2|]. split; [exact H3|].
  intros Hall. destruct H3 as [H3|(f & Hf & Hne & _)]; [exact H3|].
  exfalso. apply Hne. now apply Hall.
Qed.

(** *** The dialog bounds *)








(** *** The ranking *)

Lemma scored_with_length intent_norm intent_tokens quoted db (l : list Element) :
  List.length (scored_with intent_norm intent_tokens quoted db l)
  = List.length (filter labeled l).
Proof.
  induction l as [|e l IH]; simpl; [reflexivity|].
  rewrite labeled_iff_scored. destruct (labeled e); simpl; now rewrite IH.
Qed.

Lemma top_candidates_length (intent : string) (perceived : list Element) (k : Z) :
  List.length (locate_top_candidates intent (Some perceived) k)
  = Nat.min (Z.to_nat (Z.max 1 k)) (List.length (filter labeled perceived)).
Proof.
  unfold locate_top_candidates. rewrite score_all_unfold.
  rewrite <- (scored_with_length (_normalize_intent intent)
                (_tokens (_normalize_intent intent)) (_extract_quoted intent)
                (_find_dialog_bounds perceived) perceived).
  set (scored := scored_with _ _ _ _ _).
  destruct scored as [|p0 r0] eqn:E.
  - simpl. now rewrite Nat.min_0_r.
  - rewrite <- E. rewrite length_map, length_firstn.
    now rewrite (Permutation_length (sort_desc_perm scored)).
Qed.

(** X7. The number of top candidates is the number asked for, raised to 1
    when it is smaller, or the number of labeled elements of the snapshot
    when there are fewer of them. *)
Theorem top_candidates_count (intent : string) (perceived : list Element) (k : Z) :
  List.length (locate_top_candidates intent (Some perceived) k)
  = Nat.min (Z.to_nat (Z.max 1 k)) (List.length (filter labeled perceived)).
Proof. apply top_candidates_length. Qed.

End Terms.

End ScorerFacts.

(* ===================================================================== *)
(** ** Letter case does not matter to the locator *)
(* ===================================================================== *)

Module CaseFacts.

Import PyStr Locator LocatorFacts.

Lemma lower_ascii_idempotent (c : ascii) : lower_ascii (lower_ascii c) = lower_ascii c.
Proof. destruct c as [[] [] [] [] [] [] [] []]; reflexivity. Qed.

Lemma is_space_lower (c : ascii) : is_space (lower_ascii c) = is_space c.
Proof. destruct c as [[] [] [] [] [] [] [] []]; reflexivity. Qed.

Lemma squote_lower (c : ascii) : Ascii.eqb (lower_ascii c) squote = Ascii.eqb c squote.
Proof. destruct c as [[] [] [] [] [] [] [] []]; reflexivity. Qed.

Lemma dquote_lower (c : ascii) : Ascii.eqb (lower_ascii c) dquote = Ascii.eqb c dquote.
Proof. destruct c as [[] [] [] [] [] [] [] []]; reflexivity. Qed.

Lemma lower_idempotent (s : string) : lower (lower s) = lower s.
Proof.
  induction s as [|c s IH]; simpl; [reflexivity|].
  now rewrite lower_ascii_idempotent, IH.
Qed.

Lemma lower_length (s : string) : String.length (lower s) = String.length s.
Proof. induction s as [|c s IH]; simpl; [reflexivity | now rewrite IH]. Qed.

Lemma lower_append (s t : string) : lower (s ++ t) = (lower s ++ lower t)%string.
Proof. induction s as [|c s IH]; simpl; [reflexivity | now rewrite IH]. Qed.

Lemma truthy_lower (s : string) : truthy (lower s) = truthy s.
Proof. destruct s; reflexivity. Qed.

Lemma lstrip_lower (s : string) : lstrip (lower s) = lower (lstrip s).
Proof.
  induction s as [|c s IH]; simpl; [reflexivity|].
  rewrite is_space_lower. destruct (is_space c); [exact IH | reflexivity].
Qed.

Lemma rstrip_lower (s : string) : rstrip (lower s) = lower (rstrip s).
Proof.
  induction s as [|c s IH]; simpl; [reflexivity|].
  rewrite IH, is_space_lower.
  destruct (rstrip s) as [|c' r]; simpl; [destruct (is_space c)|]; reflexivity.
Qed.

Lemma strip_lower (s : string) : strip (lower s) = lower (strip s).
Proof. unfold strip. now rewrite lstrip_lower, rstrip_lower. Qed.

Lemma span_not_lower (q : ascii) (s : string) :
  (forall c, Ascii.eqb (lower_ascii c) q = Ascii.eqb c q) ->
  span_not q (lower s) = (lower (fst (span_not q s)), lower (snd (span_not q s))).
Proof.
  intros Hq. induction s as [|c s IH]; simpl; [reflexivity|].
  rewrite Hq. destruct (Ascii.eqb c q); [reflexivity|].
  rewrite IH. destruct (span_not q s). reflexivity.
Qed.

Definition lower_pair (p : string * string) : string * string :=
  (lower (fst p), lower (snd p)).

Lemma quoted_body_lower (q : ascii) (s : string) :
  (forall c, Ascii.eqb (lower_ascii c) q = Ascii.eqb c q) ->
  quoted_body q (lower s) = option_map lower_pair (quoted_body q s).
Proof.
  intros Hq. unfold quoted_body. rewrite (span_not_lower q s Hq).
  destruct (span_not q s) as [body rest]. cbn [fst snd].
  destruct rest as [|c rest']; [reflexivity|].
  cbn [lower]. rewrite lower_length.
  destruct ((1 <=? String.length body)%nat && (String.length body <=? 200)%nat);
    reflexivity.
Qed.

Lemma finditer_quoted_lower (fuel : nat) :
  forall s, finditer_quoted fuel (lower s) = map lower (finditer_quoted fuel s).
Proof.
  induction fuel as [|fuel IH]; intros s; simpl; [reflexivity|].
  destruct s as [|c s']; simpl; [reflexivity|].
  rewrite squote_lower, dquote_lower.
  destruct (Ascii.eqb c squote) eqn:Es; simpl.
  - apply Ascii.eqb_eq in Es. subst c.
    change (lower_ascii squote) with squote.
    rewrite (quoted_body_lower squote s' squote_lower).
    destruct (quoted_body squote s') as [[body rest]|]; simpl; [|apply IH].
    now rewrite strip_lower, IH.
  - destruct (Ascii.eqb c dquote) eqn:Ed; [|apply IH].
    apply Ascii.eqb_eq in Ed. subst c.
    change (lower_ascii dquote) with dquote.
    rewrite (quoted_body_lower dquote s' dquote_lower).
    destruct (quoted_body dquote s') as [[body rest]|]; simpl; [|apply IH].
    now rewrite strip_lower, IH.
Qed.

Lemma _extract_quoted_lower (s : string) :
  _extract_quoted (lower s) = map lower (_extract_quoted s).
Proof. unfold _extract_quoted. rewrite lower_length. apply finditer_quoted_lower. Qed.

Lemma _normalize_intent_lower (s : string) :
  _normalize_intent (lower s) = _normalize_intent s.
Proof. unfold _normalize_intent. now rewrite lower_idempotent. Qed.

Section Scoring.

Context {sim : Similarity}.

Lemma score_quoted_lower intent_norm intent_tokens quoted el db :
  _score_element intent_norm intent_tokens (map lower quoted) el db
  = _score_element intent_norm intent_tokens quoted el db.
Proof.
  unfold _score_element. destruct quoted as [|q0 qs]; [reflexivity|].
  simpl map. cbv beta iota zeta. now rewrite lower_idempotent.
Qed.

Lemma scored_with_lower intent_norm intent_tokens quoted db (l : list Element) :
  scored_with intent_norm intent_tokens (map lower quoted) db l
  = scored_with intent_norm intent_tokens quoted db l.
Proof.
  induction l as [|e l IH]; simpl; [reflexivity|].
  now rewrite score_quoted_lower, IH.
Qed.

Lemma score_all_lower (intent : string) (perceived : list Element) :
  score_all (lower intent) perceived = score_all intent perceived.
Proof.
  rewrite !score_all_unfold, _normalize_intent_lower, _extract_quoted_lower.
  apply scored_with_lower.
Qed.

(** X8. Two intents (of code points below 256, where lowercasing keeps
    the length of a text) that differ only in letter case resolve alike:
    they have the same best candidate and the same top candidates on every
    snapshot. *)
Theorem intent_case_does_not_matter
  (intent1 intent2 : string) (perception : option (list Element)) (k : Z) :
  lower intent1 = lower intent2 ->
  locate_element_for_intent intent1 perception
  = locate_element_for_intent intent2 perception
  /\ locate_top_candidates intent1 perception k
     = locate_top_candidates intent2 perception k.
Proof.
  intros H. unfold locate_element_for_intent, locate_top_candidates.
  destruct perception as [perceived|]; [|split; reflexivity].
  rewrite <- (score_all_lower intent1), <- (score_all_lower intent2), H.
  split; reflexivity.
Qed.

(** The element with its labels, role and tag in lower case. *)
Definition lower_labels (el : Element) : Element :=
  {| el_tag := option_map lower (el_tag el);
     el_role := option_map lower (el_role el);
     el_text := option_map lower (el_text el);
     el_aria_label := option_map lower (el_aria_label el);
     el_title := option_map lower (el_title el);
     el_tooltip := option_map lower (el_tooltip el);
     el_visible := el_visible el;
     el_x := el_x el; el_y := el_y el;
     el_width := el_width el; el_height := el_height el |}.

Lemma or_empty_lower (o : option string) :
  or_empty (option_map lower o) = lower (or_empty o).
Proof. destruct o; reflexivity. Qed.

Lemma fields_of_lower (el : Element) :
  fields_of (lower_labels el) = map lower (fields_of el).
Proof.
  unfold fields_of, lower_labels. simpl.
  now rewrite !or_empty_lower, !strip_lower.
Qed.

Lemma existsb_truthy_lower (fs : list string) :
  existsb truthy (map lower fs) = existsb truthy fs.
Proof.
  induction fs as [|f fs IH]; simpl; [reflexivity|]. now rewrite truthy_lower, IH.
Qed.

Lemma join_space_lower (fs : list string) :
  join_space (map lower fs) = lower (join_space fs).
Proof.
  unfold join_space. induction fs as [|f fs IH]; simpl; [reflexivity|].
  destruct fs as [|g fs]; [reflexivity|].
  simpl map in *. rewrite IH. now rewrite !lower_append.
Qed.

Lemma _tokens_lower (s : string) : _tokens (lower s) = _tokens s.
Proof. unfold _tokens. now rewrite lower_idempotent. Qed.

Lemma fuzzy_lower (intent_norm : string) (fs : list string) :
  _fieldwise_fuzzy intent_norm (map lower fs) = _fieldwise_fuzzy intent_norm fs.
Proof.
  unfold _fieldwise_fuzzy. generalize 0. induction fs as [|f fs IH]; intros best; simpl;
    [reflexivity|].
  now rewrite truthy_lower, lower_idempotent, IH.
Qed.

Lemma literal_match_lower (quoted : list string) (el : Element) :
  literal_match quoted (lower_labels el) = literal_match quoted el.
Proof.
  unfold literal_match. destruct quoted as [|q0 qs]; [reflexivity|].
  rewrite fields_of_lower. f_equal.
  induction (fields_of el) as [|f fs IH]; simpl; [reflexivity|].
  now rewrite strip_lower, lower_idempotent, IH.
Qed.

Lemma long_text_lower (el : Element) : long_text (lower_labels el) = long_text el.
Proof.
  unfold long_text. rewrite fields_of_lower, join_space_lower, lower_length.
  unfold lower_labels. simpl.
  now rewrite or_empty_lower, strip_lower, lower_length.
Qed.

(** X9. The score of an element (its texts of code points below 256)
    does not depend on the letter case of its text, aria-label, title,
    tooltip, role and tag. *)
Theorem label_case_does_not_matter
  (intent_norm : string) (intent_tokens quoted : list string)
  (el : Element) (db : option Bounds) :
  _score_element intent_norm intent_tokens quoted (lower_labels el) db
  == _score_element intent_norm intent_tokens quoted el db.
Proof.
  assert (labeled (lower_labels el) = labeled el) as Hl.
  { unfold labeled. now rewrite fields_of_lower, existsb_truthy_lower. }
  destruct (labeled el) eqn:El.
  - rewrite !score_decomposition by congruence.
    assert (base_term intent_norm intent_tokens (lower_labels el)
            = base_term intent_norm intent_tokens el) as ->.
    { unfold base_term.
      now rewrite fields_of_lower, fuzzy_lower, join_space_lower, _tokens_lower. }
    assert (role_term intent_norm (lower_labels el) = role_term intent_norm el) as ->.
    { unfold role_term, lower_labels. simpl.
      now rewrite !or_empty_lower, !lower_idempotent. }
    assert (dialog_term db (lower_labels el) = dialog_term db el) as -> by reflexivity.
    unfold literal_term, length_term.
    rewrite literal_match_lower, long_text_lower. reflexivity.
  - rewrite !score_excluded by congruence. reflexivity.
Qed.

End Scoring.

(** A shouted intent. *)
Lemma shouted_intent_resolves_alike :
  locate_element_for_intent "CLICK 'Create Project'"
    (Some [LocatorExamples.template_panel; LocatorExamples.create_button])
  = locate_element_for_intent "click 'create PROJECT'"
      (Some [LocatorExamples.template_panel; LocatorExamples.create_button])
  /\ locate_top_candidates "CLICK 'Create Project'"
       (Some [LocatorExamples.template_panel; LocatorExamples.create_button]) 5
     = locate_top_candidates "click 'create PROJECT'"
         (Some [LocatorExamples.template_panel; LocatorExamples.create_button]) 5.
Proof.
  apply (intent_case_does_not_matter (sim := difflib_similarity)). reflexivity.
Defined.

End CaseFacts.

(* ===================================================================== *)
(** ** The verification router: its other rules *)
(* ===================================================================== *)

Module RouterFacts.

Import PyStr Verifier TraceFacts VerifierFacts.

(** The probes of the verifier. *)
Definition is_probe (e : Event) : bool :=
  match e with
  | EvWaitDialog _ | EvDialogText | EvUrlContains _ | EvTextboxValue _
  | EvFirstTextbox | EvElementExists _ _ | EvTextVisible _ => true
  | _ => false
  end.

Section Router.

Context {surface : Surface}.

(** [m] adds only events that satisfy [p] to the trace. *)
Definition only (p : Event -> bool) {A} (m : M A) : Prop :=
  forall st, exists evs, emits m st evs /\ forallb p evs = true.

Lemma only_ret (p : Event -> bool) {A} (a : A) : only p (ret a).
Proof. intros st. exists []. split; [apply emits_ret | reflexivity]. Qed.

Lemma only_ask (p : Event -> bool) {A} (e : Event) (f : World -> A * World) :
  p e = true -> only p (ask e f).
Proof.
  intros He st. exists [e]. split; [apply emits_ask | simpl; now rewrite He].
Qed.

Lemma only_bind (p : Event -> bool) {A B} (m : M A) (k : A -> M B) :
  only p m -> (forall a, only p (k a)) -> only p (bind m k).
Proof.
  intros Hm Hk st.
  destruct (Hm st) as (evs1 & E1 & Q1).
  destruct (Hk (fst (m st)) (snd (m st))) as (evs2 & E2 & Q2).
  exists (evs1 ++ evs2)%list. split; [now apply emits_bind|].
  now rewrite forallb_app, Q1, Q2.
Qed.

Lemma only_if (p : Event -> bool) {A} (b : bool) (m1 m2 : M A) :
  only p m1 -> only p m2 -> only p (if b then m1 else m2).
Proof. now destruct b. Qed.

Lemma verify_dialog_open_probes (must_contain : option string) :
  only is_probe (verify_dialog_open must_contain).
Proof.
  unfold verify_dialog_open.
  apply only_bind; [now apply only_ask|]. intros appeared.
  apply only_if; [apply only_ret|].
  destruct must_contain as [needle|]; [|apply only_ret].
  apply only_if; [apply only_ret|].
  apply only_bind; [now apply only_ask|].
  intros [| |txt]; apply only_ret.
Qed.

Lemma any_text_visible_probes (quoted : list string) :
  only is_probe (any_text_visible quoted).
Proof.
  induction quoted as [|q rest IH]; simpl; [apply only_ret|].
  apply only_bind; [now apply only_ask|].
  intros seen. apply only_if; [apply only_ret | exact IH].
Qed.

Lemma verify_step_probes (intent expected_state : string) :
  only is_probe (verify_step intent expected_state).
Proof.
  unfold verify_step. cbv zeta.
  apply only_if; [apply verify_dialog_open_probes|].
  destruct (if contains_any ["url"; "location"; "path"; "navigate"; "navigated"] _
            then _ else None); [now apply only_ask|].
  apply only_if.
  { destruct (hd_error _) as [[|c t]|]; now apply only_ask. }
  destruct (if contains_any ["button"; "link"; "menuitem"; "tab"] _
            then _ else None); [now apply only_ask|].
  destruct (if contains_any ["visible"; "appears"; "shown"; "displayed"; "listed"; "present"] _
            then _ else None); [now apply only_ask|].
  destruct (match _extract_all_quoted (strip expected_state) with
            | [] => _extract_all_quoted intent
            | _ => _
            end) as [|q qs]; [apply only_ret | apply any_text_visible_probes].
Qed.

(** X10. Whatever the intent, the expected outcome and the page,
    [verify_step] only probes the page: it never calls the executor or the
    perception source, writes no step record and takes no recovery measure. *)
Theorem verification_only_probes (intent expected_state : string) (st : St) :
  exists evs,
    emits (verify_step intent expected_state) st evs
    /\ forallb is_probe evs = true
    /\ (forall step el, ~ In (EvExecute step el) evs)
    /\ (forall step, ~ In (EvPerceive step) evs)
    /\ (forall r, ~ In (EvPersist r) evs).
Proof.
  destruct (verify_step_probes intent expected_state st) as (evs & Hev & Hp).
  exists evs. split; [exact Hev|]. split; [exact Hp|].
  rewrite forallb_forall in Hp.
  repeat split; intros; intros Hin; specialize (Hp _ Hin); discriminate.
Qed.

(** X11. An expected outcome that names no dialog, does not speak of the
    value of a field, and comes with no quoted literal (neither in it nor in
    the intent) asserts nothing: the verdict is true and the page is not
    touched, even when the outcome mentions a URL, a button or visibility. *)
Theorem nothing_to_verify_passes (intent expected_state : string) (st : St) :
  literals_of intent expected_state = [] ->
  contains_any ["dialog"; "modal"; "prompt"] (lower (strip expected_state)) = false ->
  contains_any ["field"; "input"; "textbox"; "editor"] (lower (strip expected_state))
  && contains_any ["contains"; "set to"; "value"; "filled"] (lower (strip expected_state))
  = false ->
  verify_step intent expected_state st = (true, st).
Proof.
  unfold literals_of, verify_step. cbv zeta. intros Hq Hd Hf.
  rewrite Hq, Hd, Hf.
  repeat match goal with
         | |- context [if ?c then hd_error [] else None] => destruct c
         end; reflexivity.
Qed.

(** X12. The dialog check fails when no dialog appears, whatever literal
    is asked for; it passes as soon as a dialog appeared when no literal (or
    an empty one) is asked for, without reading the dialog; and it does not
    depend on the letter case of the literal. *)
Theorem dialog_check_behaviour (must_contain : option string) (st : St) :
  (fst (ask (EvWaitDialog 3000) (page_wait_for_dialog 3000) st) = false ->
   verify_dialog_open must_contain st
   = (false, snd (ask (EvWaitDialog 3000) (page_wait_for_dialog 3000) st)))
  /\ (fst (ask (EvWaitDialog 3000) (page_wait_for_dialog 3000) st) = true ->
      must_contain = None \/ must_contain = Some "" ->
      verify_dialog_open must_contain st
      = (true, snd (ask (EvWaitDialog 3000) (page_wait_for_dialog 3000) st)))
  /\ verify_dialog_open (option_map lower must_contain) st
     = verify_dialog_open must_contain st.
Proof.
  unfold verify_dialog_open. rewrite !bind_run.
  destruct (ask (EvWaitDialog 3000) (page_wait_for_dialog 3000) st) as [appeared st1].
  simpl fst. simpl snd.
  split; [|split].
  - intros ->. reflexivity.
  - intros -> [-> | ->]; reflexivity.
  - destruct appeared; [|reflexivity]. cbn [negb].
    destruct must_contain as [needle|]; [|reflexivity]. cbn [option_map].
    rewrite CaseFacts.truthy_lower. destruct (truthy needle); [|reflexivity].
    now rewrite CaseFacts.lower_idempotent.
Qed.

(** What looking for the literals one after the other answers, each
    probe in the world the one before has left. *)
Fixpoint visibility (quoted : list string) (w : World) : list bool :=
  match quoted with
  | [] => []
  | q :: rest =>
      fst (verify_text_visible q w)
      :: visibility rest (snd (verify_text_visible q w))
  end.

(** The literals up to the first one that is seen, that one included. *)
Fixpoint up_to_first_seen (quoted : list string) (answers : list bool)
  : list string :=
  match quoted, answers with
  | q :: rest, a :: more => q :: (if a then [] else up_to_first_seen rest more)
  | _, _ => []
  end.

Lemma any_text_visible_run :
  forall (quoted : list string) (st : St),
    emits (any_text_visible quoted) st
      (map EvTextVisible
         (up_to_first_seen quoted (visibility quoted (world st))))
    /\ fst (any_text_visible quoted st)
       = existsb (fun a => a) (visibility quoted (world st)).
Proof.
  induction quoted as [|q quoted IH]; intros st.
  - split; [apply emits_ret | reflexivity].
  - assert (ask (EvTextVisible q) (verify_text_visible q) st
            = (fst (verify_text_visible q (world st)),
               {| world := snd (verify_text_visible q (world st));
                  trace := (trace st ++ [EvTextVisible q])%list |})) as Hask.
    { unfold ask. now destruct (verify_text_visible q (world st)). }
    simpl any_text_visible. unfold emits in *. rewrite !bind_run, Hask.
    cbn [visibility up_to_first_seen existsb fst snd].
    destruct (fst (verify_text_visible q (world st))); cbn [orb].
    + split; reflexivity.
    + destruct (IH {| world := snd (verify_text_visible q (world st));
                      trace := (trace st ++ [EvTextVisible q])%list |})
        as [Hev Hv].
      cbn [world trace] in Hev, Hv. rewrite Hev, Hv.
      split; [|reflexivity]. cbn [map]. now rewrite <- app_assoc.
Qed.

(** X13. When the expected outcome matches no category of the router and
    literals are at hand, the literals are looked for on the page one after
    the other, in their order, and the search stops at the first one that
    is seen: the probes made are those for the literals up to that one, and
    the verdict is true exactly when one of them was seen. *)
Theorem literals_are_tried_in_order (intent expected_state : string) (st : St) :
  let outcome := lower (strip expected_state) in
  let literals := literals_of intent expected_state in
  contains_any ["dialog"; "modal"; "prompt"] outcome = false ->
  contains_any ["url"; "location"; "path"; "navigate"; "navigated"] outcome = false ->
  contains_any ["field"; "input"; "textbox"; "editor"] outcome
  && contains_any ["contains"; "set to"; "value"; "filled"] outcome = false ->
  contains_any ["button"; "link"; "menuitem"; "tab"] outcome = false ->
  contains_any ["visible"; "appears"; "shown"; "displayed"; "listed"; "present"] outcome
  = false ->
  literals <> [] ->
  emits (verify_step intent expected_state) st
    (map EvTextVisible
       (up_to_first_seen literals (visibility literals (world st))))
  /\ fst (verify_step intent expected_state st)
     = existsb (fun a => a) (visibility literals (world st)).
Proof.
  intros outcome literals H1 H2 H3 H4 H5 Hq.
  assert (verify_step intent expected_state st
          = any_text_visible literals st) as Heq.
  { unfold literals, verify_step, literals_of in *. cbv zeta. fold outcome.
    rewrite H1, H2, H3, H4, H5.
    destruct (match _extract_all_quoted (strip expected_state) with
              | [] => _extract_all_quoted intent
              | _ => _
              end); [now contradiction Hq | reflexivity]. }
  unfold emits. rewrite Heq. apply any_text_visible_run.
Qed.

End Router.

(** An outcome that mentions a URL without quoting it. *)
Lemma unquoted_url_outcome_passes :
  verify_step "Go to the settings" "The url changes to the settings page"
    Scenario.editor
  = (true, Scenario.editor).
Proof.
  apply (nothing_to_verify_passes (surface := Scenario.scripted_surface));
    reflexivity.
Defined.

(** Two literals and an outcome without keywords, on a page that shows
    the second one: both are looked for, and the verdict is true. *)
Definition renamed_page : Scenario.Page :=
  {| Scenario.pg_elements := [];
     Scenario.pg_file := None;
     Scenario.pg_dialog := None;
     Scenario.pg_shown := ["Roadmap"];
     Scenario.pg_reveal := [];
     Scenario.pg_dead := fun _ => false |}.

Definition renamed : @St Scenario.scripted_surface :=
  @Build_St Scenario.scripted_surface renamed_page [].

Lemma two_literals_are_tried :
  emits (verify_step "Rename it" "'Untitled' becomes 'Roadmap'") renamed
    (map EvTextVisible
       (up_to_first_seen (literals_of "Rename it" "'Untitled' becomes 'Roadmap'")
          (visibility (literals_of "Rename it" "'Untitled' becomes 'Roadmap'")
             (world renamed))))
  /\ fst (verify_step "Rename it" "'Untitled' becomes 'Roadmap'" renamed)
     = existsb (fun a => a)
         (visibility (literals_of "Rename it" "'Untitled' becomes 'Roadmap'")
            (world renamed)).
Proof.
  apply (literals_are_tried_in_order (surface := Scenario.scripted_surface)
           "Rename it" "'Untitled' becomes 'Roadmap'" renamed);
    try reflexivity.
  vm_compute. discriminate.
Defined.

Example two_literals_run :
  trace (snd (verify_step "Rename it" "'Untitled' becomes 'Roadmap'" renamed))
  = [EvTextVisible "Untitled"; EvTextVisible "Roadmap"]
  /\ fst (verify_step "Rename it" "'Untitled' becomes 'Roadmap'" renamed) = true.
Proof. split; vm_compute; reflexivity. Qed.

End RouterFacts.

(* ===================================================================== *)
(** ** The recovery machine: what a run does and does not do *)
(* ===================================================================== *)

Module RecoveryRunFacts.

Import PyStr Locator Recovery TraceFacts RecoveryFacts.

Definition is_execute (e : Event) : bool :=
  match e with
  | EvExecute _ _ => true
  | _ => false
  end.

Definition is_escape (e : Event) : bool :=
  match e with
  | EvEscape => true
  | _ => false
  end.

(** The number of calls of the executor, and of presses of Escape. *)
Definition executions (evs : list Event) : nat := List.length (filter is_execute evs).
Definition escapes (evs : list Event) : nat := List.length (filter is_escape evs).

(** The moves of the recovery machine on step [step]. *)
Definition is_recovery_move (step : Z) (e : Event) : bool :=
  match e with
  | EvStabilize | EvClosePopups | EvEscape => true
  | EvWaitDialog t => (t =? 2500)%Z
  | EvPerceive s => (s =? step)%Z
  | EvExecute s _ => (s =? step)%Z
  | _ => false
  end.

Lemma executions_app (evs1 evs2 : list Event) :
  executions (evs1 ++ evs2) = (executions evs1 + executions evs2)%nat.
Proof. unfold executions. now rewrite filter_app, length_app. Qed.

Lemma escapes_app (evs1 evs2 : list Event) :
  escapes (evs1 ++ evs2) = (escapes evs1 + escapes evs2)%nat.
Proof. unfold escapes. now rewrite filter_app, length_app. Qed.

(** The events of one round. *)
Definition round_events (step : Z) (waits : list Event) (tried : list Element)
  : list Event :=
  ((EvStabilize :: waits ++ [EvClosePopups; EvPerceive step])
   ++ map (EvExecute step) tried)%list.

Lemma round_events_facts (step : Z) (waits : list Event) (tried : list Element) :
  waits = [] \/ waits = [EvWaitDialog 2500] ->
  executions (round_events step waits tried) = List.length tried
  /\ escapes (round_events step waits tried) = 0%nat
  /\ rounds (round_events step waits tried) = 1%nat
  /\ forallb (is_recovery_move step) (round_events step waits tried) = true.
Proof.
  intros Hw. unfold round_events, executions, escapes.
  assert (filter is_execute (map (EvExecute step) tried) = map (EvExecute step) tried) as E1.
  { clear. induction tried as [|el tried IH]; simpl; [reflexivity | now rewrite IH]. }
  assert (filter is_escape (map (EvExecute step) tried) = []) as E2.
  { clear. induction tried as [|el tried IH]; simpl; [reflexivity | exact IH]. }
  assert (forallb (is_recovery_move step) (map (EvExecute step) tried) = true) as E3.
  { clear. induction tried as [|el tried IH]; simpl; [reflexivity|].
    now rewrite Z.eqb_refl, IH. }
  split; [|split; [|split]].
  - rewrite filter_app, E1, length_app, length_map.
    destruct Hw as [-> | ->]; reflexivity.
  - rewrite filter_app, E2. destruct Hw as [-> | ->]; reflexivity.
  - now apply rounds_of_round.
  - rewrite forallb_app, E3.
    destruct Hw as [-> | ->]; simpl; now rewrite Z.eqb_refl.
Qed.

Section Machine.

Context {sim : Similarity} {surface : Surface}.

Lemma try_candidates_success (intent : string) (step_idx : Z) :
  forall (ordered : list Element) (st : St) (res : ExecResult),
    fst (try_candidates ordered intent step_idx st) = Some res ->
    status res = "success".
Proof.
  induction ordered as [|el ordered IH]; intros st res; simpl; [discriminate|].
  rewrite bind_run.
  destruct (ask (EvExecute step_idx el) (execute_action el intent step_idx) st)
    as [[|r] st1]; simpl fst; simpl snd; [apply IH|].
  destruct (status r =? "success") eqn:E; [|apply IH].
  simpl. intros H. injection H as <-. now apply String.eqb_eq.
Qed.

Lemma attempt_round_success (step_idx : Z) (intent expected : string)
  (prev : option Element) (st : St) (res : ExecResult) :
  fst (attempt_round step_idx intent expected prev st) = Some res ->
  status res = "success".
Proof.
  unfold attempt_round. rewrite !bind_run. apply try_candidates_success.
Qed.

Lemma order_candidates_length (prev : option Element) (candidates : list Element) :
  (List.length (order_candidates prev candidates) <= List.length candidates)%nat.
Proof.
  unfold order_candidates.
  destruct (filter _ candidates) as [|c r] eqn:E; [lia|].
  rewrite <- E. apply filter_length_le.
Qed.

(** A round has at most five candidates. *)
Lemma round_candidates_length (step_idx : Z) (intent expected : string) (st : St) :
  (List.length (round_candidates step_idx intent expected st) <= 5)%nat.
Proof.
  unfold round_candidates, fresh_candidates. rewrite bind_run.
  unfold look. simpl fst. simpl snd.
  set (perception := read_perception step_idx _).
  destruct (locate_top_candidates intent perception 5) as [|c r] eqn:E.
  - destruct (locate_element_for_intent intent perception); simpl; lia.
  - simpl fst. rewrite <- E. destruct perception as [perceived|]; [|simpl; lia].
    rewrite ScorerFacts.top_candidates_length.
    change (Z.to_nat (Z.max 1 5)) with 5%nat. lia.
Qed.

(** Everything a run of [recover_step] adds to the trace. *)
Lemma recover_step_run (step_idx : Z) (intent expected : string)
  (prev : option Element) (max_attempts : Z) :
  forall (fuel : nat) (attempt : Z) (st : St) r st',
    recover_step fuel step_idx intent expected prev attempt max_attempts st
    = Some (r, st') ->
    exists evs,
      trace st' = (trace st ++ evs)%list
      /\ (executions evs <= 5 * rounds evs)%nat
      /\ (rounds evs <= Z.to_nat (max_attempts - attempt + 1))%nat
      /\ forallb (is_recovery_move step_idx) evs = true
      /\ (escapes evs + (if recovered r then 1 else 0))%nat = rounds evs
      /\ (recovered r = true ->
          exists res, result r = Some res /\ status res = "success").
Proof.
  induction fuel as [|fuel IH]; intros attempt st r st' H; [discriminate|].
  rewrite recover_step_unfold in H.
  destruct (attempt >? max_attempts)%Z eqn:Hgt.
  - injection H as <- <-. exists []. rewrite app_nil_r.
    split; [reflexivity|]. split; [unfold executions; simpl; lia|].
    split; [unfold rounds; simpl; lia|]. split; [reflexivity|].
    split; [reflexivity | discriminate].
  - assert (attempt <= max_attempts)%Z as Hle.
    { rewrite Z.gtb_ltb in Hgt. apply Z.ltb_ge in Hgt. exact Hgt. }
    destruct (perception_fails step_idx intent expected st); [discriminate|].
    destruct (attempt_round_emits step_idx intent expected prev st)
      as (waits & tried & rest & Hord & Hev & Hw & _ & _).
    unfold emits in Hev. fold (round_events step_idx waits tried) in Hev.
    destruct (round_events_facts step_idx waits tried Hw) as (Fx & Fe & Fr & Fm).
    assert (List.length tried <= 5)%nat as Htried.
    { pose proof (order_candidates_length prev
                    (round_candidates step_idx intent expected st)) as H1.
      pose proof (round_candidates_length step_idx intent expected st) as H2.
      rewrite Hord, length_app in H1. lia. }
    destruct (fst (attempt_round step_idx intent expected prev st)) as [res|] eqn:Ef.
    + injection H as <- <-. exists (round_events step_idx waits tried).
      split; [exact Hev|]. simpl recovered. simpl result.
      split; [lia|]. split; [lia|]. split; [exact Fm|]. split; [lia|].
      intros _. exists res. split; [reflexivity|].
      eapply attempt_round_success, Ef.
    + apply IH in H. destruct H as (evs & Htr & Hx & Hr & Hm & Hesc & Hok).
      exists (round_events step_idx waits tried ++ EvEscape :: evs)%list.
      split; [|split; [|split; [|split; [|split]]]].
      * rewrite Htr. simpl trace. rewrite Hev, <- !app_assoc. reflexivity.
      * rewrite executions_app, rounds_app, Fx, Fr.
        unfold executions, rounds in *. simpl. lia.
      * rewrite rounds_app, Fr. unfold rounds in *. simpl. lia.
      * rewrite forallb_app, Fm. simpl. exact Hm.
      * rewrite escapes_app, rounds_app, Fe, Fr.
        unfold escapes, rounds in *. simpl. lia.
      * exact Hok.
Qed.

(** X14. When [recover_step] reports a recovery, its result is an executor
    result whose status is success. *)
Theorem recovery_reports_an_executor_success
  (fuel : nat) (step_idx : Z) (intent expected : string) (prev : option Element)
  (attempt max_attempts : Z) (st : St) (r : RecoveryResult) (st' : St) :
  recover_step fuel step_idx intent expected prev attempt max_attempts st
  = Some (r, st') ->
  recovered r = true ->
  exists res, result r = Some res /\ status res = "success".
Proof.
  intros H. destruct (recover_step_run _ _ _ _ _ _ _ _ _ _ H) as (evs & _ & _ & _ & _ & _ & Hok).
  exact Hok.
Qed.

(** X15. A run of [recover_step] only stabilises, waits for a dialog,
    closes popups, perceives and executes on its own step, and presses
    Escape: it never runs a verification probe and writes no step record, so
    a recovery is reported on the executor's word alone. *)
Theorem recovery_never_verifies
  (fuel : nat) (step_idx : Z) (intent expected : string) (prev : option Element)
  (attempt max_attempts : Z) (st : St) (r : RecoveryResult) (st' : St) :
  recover_step fuel step_idx intent expected prev attempt max_attempts st
  = Some (r, st') ->
  forallb (is_recovery_move step_idx) (new_events st st') = true
  /\ (forall text, ~ In (EvTextVisible text) (new_events st st'))
  /\ (forall role name, ~ In (EvElementExists role name) (new_events st st'))
  /\ ~ In EvDialogText (new_events st st')
  /\ (forall rec, ~ In (EvPersist rec) (new_events st st')).
Proof.
  intros H. destruct (recover_step_run _ _ _ _ _ _ _ _ _ _ H) as (evs & Htr & _ & _ & Hm & _).
  rewrite (new_events_emitted st st' evs Htr).
  split; [exact Hm|]. rewrite forallb_forall in Hm.
  repeat split; intros; intros Hin; specialize (Hm _ Hin); discriminate.
Qed.

(** X16. A run of [recover_step] calls the executor at most five times per
    round, and begins at most [max_attempts - attempt + 1] rounds. *)
Theorem executor_calls_are_bounded
  (fuel : nat) (step_idx : Z) (intent expected : string) (prev : option Element)
  (attempt max_attempts : Z) (st : St) (r : RecoveryResult) (st' : St) :
  recover_step fuel step_idx intent expected prev attempt max_attempts st
  = Some (r, st') ->
  (executions (new_events st st') <= 5 * rounds (new_events st st'))%nat
  /\ (executions (new_events st st')
      <= 5 * Z.to_nat (max_attempts - attempt + 1))%nat.
Proof.
  intros H. destruct (recover_step_run _ _ _ _ _ _ _ _ _ _ H) as (evs & Htr & Hx & Hr & _).
  rewrite (new_events_emitted st st' evs Htr). split; lia.
Qed.

(** X17. Escape is pressed once after every round that failed and never
    after the round that succeeded: the rounds begun are the presses of
    Escape, plus one when the step was recovered. *)
Theorem escape_follows_every_failed_round
  (fuel : nat) (step_idx : Z) (intent expected : string) (prev : option Element)
  (attempt max_attempts : Z) (st : St) (r : RecoveryResult) (st' : St) :
  recover_step fuel step_idx intent expected prev attempt max_attempts st
  = Some (r, st') ->
  rounds (new_events st st')
  = (escapes (new_events st st') + (if recovered r then 1 else 0))%nat.
Proof.
  intros H.
  destruct (recover_step_run _ _ _ _ _ _ _ _ _ _ H) as (evs & Htr & _ & _ & _ & He & _).
  rewrite (new_events_emitted st st' evs Htr). now rewrite He.
Qed.

(** The elements the executor was called on, in the order of the calls. *)
Fixpoint executed_elements (evs : list Event) : list Element :=
  match evs with
  | [] => []
  | EvExecute _ el :: rest => el :: executed_elements rest
  | _ :: rest => executed_elements rest
  end.

Lemma executed_elements_round (step : Z) (waits : list Event) (tried : list Element) :
  waits = [] \/ waits = [EvWaitDialog 2500] ->
  executed_elements (round_events step waits tried) = tried.
Proof.
  intros Hw. unfold round_events.
  assert (executed_elements (map (EvExecute step) tried) = tried) as E.
  { clear. induction tried as [|el tried IH]; simpl; [reflexivity | now rewrite IH]. }
  destruct Hw as [-> | ->]; simpl; exact E.
Qed.

Lemma order_candidates_none (candidates : list Element) :
  order_candidates None candidates = candidates.
Proof.
  unfold order_candidates. simpl.
  assert (filter (fun _ : Element => true) candidates = candidates) as ->.
  { induction candidates as [|c cs IH]; simpl; [reflexivity | now rewrite IH]. }
  now destruct candidates.
Qed.

(** X18. Without a previous element a round tries the candidates of its
    snapshot in their ranked order and stops at the first success: the
    elements executed are an initial part of the candidates, all of them
    when the round fails and at least one when it succeeds. *)
Theorem candidates_are_tried_in_ranked_order
  (step_idx : Z) (intent expected : string) (st : St) :
  exists tried rest,
    round_candidates step_idx intent expected st = (tried ++ rest)%list
    /\ executed_elements
         (new_events st (snd (attempt_round step_idx intent expected None st)))
       = tried
    /\ (fst (attempt_round step_idx intent expected None st) = None -> rest = [])
    /\ (fst (attempt_round step_idx intent expected None st) <> None -> tried <> []).
Proof.
  destruct (attempt_round_emits step_idx intent expected None st)
    as (waits & tried & rest & Hord & Hev & Hw & Hne & Hrest).
  rewrite order_candidates_none in Hord.
  exists tried, rest. split; [exact Hord|].
  unfold emits in Hev. rewrite (new_events_emitted _ _ _ Hev).
  fold (round_events step_idx waits tried).
  split; [now apply executed_elements_round|]. split; [exact Hrest|].
  intros Hsome. apply Hne. intros Hc.
  apply Hsome. unfold attempt_round. rewrite !bind_run.
  unfold round_candidates in Hc. rewrite Hc. reflexivity.
Qed.

(** X19. In a round whose candidates include one with a bounding box other
    than the previous element's, no element with the previous element's
    bounding box is executed at all: every such candidate is left out, not
    only the one in front. *)
Theorem same_box_candidates_are_left_out
  (step_idx : Z) (intent expected : string) (prev : Element) (st : St) :
  (exists c, In c (round_candidates step_idx intent expected st)
             /\ _is_same (Some prev) (Some c) = false) ->
  forall el,
    In el (executed_elements
             (new_events st (snd (attempt_round step_idx intent expected (Some prev) st)))) ->
    In el (round_candidates step_idx intent expected st)
    /\ _is_same (Some prev) (Some el) = false.
Proof.
  intros Hex el Hin.
  destruct (attempt_round_emits step_idx intent expected (Some prev) st)
    as (waits & tried & rest & Hord & Hev & Hw & _ & _).
  unfold emits in Hev. rewrite (new_events_emitted _ _ _ Hev) in Hin.
  fold (round_events step_idx waits tried) in Hin.
  rewrite executed_elements_round in Hin by exact Hw.
  assert (In el (order_candidates (Some prev)
                   (round_candidates step_idx intent expected st))) as Ho.
  { rewrite Hord. apply in_or_app. now left. }
  split.
  - eapply order_candidates_incl, Ho.
  - eapply order_candidates_distinct; eassumption.
Qed.

End Machine.

End RecoveryRunFacts.

(* ===================================================================== *)
(** ** The recovery machine on the scripted page *)
(* ===================================================================== *)

Module RecoveryScenarios.

Import PyStr Locator Recovery TraceFacts RecoveryFacts RecoveryRunFacts Scenario.

(** The retry of the Save step on the editor page. *)
Definition save_retry : option (RecoveryResult * St) :=
  recover_step 3 1 "Click 'Save'" "'Saved' is visible" (Some save_button) 1 2 editor.

Lemma save_retry_reports_success :
  exists r st',
    save_retry = Some (r, st')
    /\ exists res, result r = Some res /\ status res = "success".
Proof.
  destruct editor_retry_runs as (r & st' & E & Hr).
  exists r, st'. split; [exact E|].
  apply (recovery_reports_an_executor_success _ _ _ _ _ _ _ _ _ _ E Hr).
Defined.

Lemma save_retry_never_verifies :
  exists r st',
    save_retry = Some (r, st')
    /\ forallb (is_recovery_move 1) (new_events editor st') = true.
Proof.
  destruct editor_retry_runs as (r & st' & E & _).
  exists r, st'. split; [exact E|].
  apply (proj1 (recovery_never_verifies _ _ _ _ _ _ _ _ _ _ E)).
Defined.

Lemma save_retry_calls_are_bounded :
  exists r st',
    save_retry = Some (r, st')
    /\ (executions (new_events editor st') <= 5 * Z.to_nat (2 - 1 + 1))%nat.
Proof.
  destruct editor_retry_runs as (r & st' & E & _).
  exists r, st'. split; [exact E|].
  apply (proj2 (executor_calls_are_bounded _ _ _ _ _ _ _ _ _ _ E)).
Defined.

Lemma save_retry_escapes :
  exists r st',
    save_retry = Some (r, st')
    /\ rounds (new_events editor st')
       = (escapes (new_events editor st') + (if recovered r then 1 else 0))%nat.
Proof.
  destruct editor_retry_runs as (r & st' & E & _).
  exists r, st'. split; [exact E|].
  apply (escape_follows_every_failed_round _ _ _ _ _ _ _ _ _ _ E).
Defined.

Lemma save_round_leaves_the_button_out :
  In save_menuitem (round_candidates 1 "Click 'Save'" "'Saved' is visible" editor)
  /\ _is_same (Some save_button) (Some save_menuitem) = false.
Proof.
  apply (same_box_candidates_are_left_out 1 "Click 'Save'" "'Saved' is visible"
           save_button editor).
  - exists save_menuitem. split; [|reflexivity].
    vm_compute. right. left. reflexivity.
  - vm_compute. left. reflexivity.
Defined.





(** The same page once it has been closed: the perception raises. *)
Definition closed_surface : Surface := {|
  World := Page;
  page_gentle_stabilize := fun w => w;
  page_close_easy_popups := fun w => w;
  page_press_escape := fun w => w;
  page_wait_for_dialog := fun _ w => (false, w);
  page_dialog_text := fun w => (DialogFault, w);
  capture_perception := fun _ w => w;
  perception_raises := fun _ _ => true;
  read_perception := fun _ _ => None;
  execute_action := scripted_execute;
  verify_url_contains := fun _ w => (false, w);
  verify_textbox_value := fun _ w => (false, w);
  first_textbox_exists := fun w => (false, w);
  verify_element_exists := fun _ _ w => (false, w);
  verify_text_visible := fun _ w => (false, w)
|}.

(** On the closed page the first round already ends in an exception. *)
Example closed_page_retry_raises :
  recover_step (surface := closed_surface) 3 1 "Click 'Save'" "'Saved' is visible"
    (Some save_button) 1 2 (@Build_St closed_surface editor_page []) = None.
Proof. reflexivity. Qed.

End RecoveryScenarios.

(* ===================================================================== *)
(** ** The orchestrator: the step records *)
(* ===================================================================== *)

Module RunFacts.

Import PyStr Locator Verifier Orchestrator TraceFacts RecoveryFacts.

(** The step records written, in the order of writing. *)
Fixpoint persisted (evs : list Event) : list StepRecord :=
  match evs with
  | [] => []
  | EvPersist r :: rest => r :: persisted rest
  | _ :: rest => persisted rest
  end.

Lemma persisted_app (evs1 evs2 : list Event) :
  persisted (evs1 ++ evs2) = (persisted evs1 ++ persisted evs2)%list.
Proof.
  induction evs1 as [|e evs1 IH]; simpl; [reflexivity|].
  destruct e; simpl; now rewrite IH.
Qed.

Lemma persisted_probes (evs : list Event) :
  forallb RouterFacts.is_probe evs = true -> persisted evs = [].
Proof.
  induction evs as [|e evs IH]; simpl; [reflexivity|].
  intros H. apply andb_true_iff in H. destruct H as [He Hr].
  destruct e; try discriminate; now apply IH.
Qed.

(** The numbers [from], [from + 1], ..., [from + n - 1]. *)
Definition ids_from (from : Z) (n : nat) : list Z :=
  map (fun i => (from + Z.of_nat i)%Z) (seq 0 n).

Lemma ids_from_succ (from : Z) (n : nat) :
  ids_from from (S n) = from :: ids_from (from + 1) n.
Proof.
  unfold ids_from. simpl. rewrite Z.add_0_r. f_equal.
  rewrite <- seq_shift, map_map. apply map_ext. intros i. lia.
Qed.

Section Loop.

Context {sim : Similarity} {surface : Surface}.

(** The record of a step for which no element was found. *)
Definition skipped_record (step_idx : Z) (step : PlanStep) : StepRecord :=
  {| step_id := step_idx; r_intent := intent_of step;
     r_expected_state := expected_of step;
     executor_status := "skipped_no_element";
     verified := false; executor_meta := None |}.


(** The record of a step on which the executor returned. *)
Definition executed_record (step_idx : Z) (step : PlanStep) (result : ExecResult)
  (ok : bool) : StepRecord :=
  {| step_id := step_idx; r_intent := intent_of step;
     r_expected_state := expected_of step;
     executor_status := status result;
     verified := ok;
     executor_meta :=
       Some {| m_action := action result;
               m_used_text := used_text result;
               m_tag := tag result;
               m_label := label result;
               m_aria_label := aria_label result;
               m_error := error result |} |}.

(** One step of the loop, with the state written out. *)
Lemma run_step_unfold (step_idx : Z) (step : PlanStep) (st : St) :
  run_step step_idx step st
  = let st1 := {| world := capture_perception step_idx (world st);
                  trace := (trace st ++ [EvPerceive step_idx])%list |} in
    match locate_element_for_intent (intent_of step)
            (read_perception step_idx (world st1)) with
    | None =>
        (true, {| world := world st1;
                  trace := (trace st1 ++ [EvPersist (skipped_record step_idx step)])%list |})
    | Some element =>
        let st2 :=
          {| world := snd (execute_action element (intent_of step) step_idx (world st1));
             trace := (trace st1 ++ [EvExecute step_idx element])%list |} in
        match fst (execute_action element (intent_of step) step_idx (world st1)) with
        | Raised => (false, st2)
        | Returned result =>
            let ok := fst (verify_step (intent_of step) (expected_of step) st2) in
            let st3 := snd (verify_step (intent_of step) (expected_of step) st2) in
            (true,
             {| world := world st3;
                trace := ((trace st3
                           ++ [EvPersist (executed_record step_idx step result ok)])
                          ++ [EvSleep])%list |})
        end
    end.
Proof.
  unfold run_step, bind, act, look, persist, ret, ask. cbn [world trace fst snd].
  destruct (locate_element_for_intent _ _) as [element|]; [|reflexivity].
  destruct (execute_action element (intent_of step) step_idx _) as [[|result] w2];
    cbn [fst snd]; [reflexivity|].
  destruct (verify_step (intent_of step) (expected_of step) _) as [ok st3].
  reflexivity.
Qed.

Lemma run_step_records (step_idx : Z) (step : PlanStep) (st : St) :
  exists evs,
    emits (run_step step_idx step) st evs
    /\ (fst (run_step step_idx step st) = true ->
        map step_id (persisted evs) = [step_idx])
    /\ (fst (run_step step_idx step st) = false ->
        persisted evs = []
        /\ exists el, last evs EvSleep = EvExecute step_idx el).
Proof.
  unfold emits. rewrite run_step_unfold. cbv zeta. cbn [world trace].
  destruct (locate_element_for_intent _ _) as [element|].
  - destruct (fst (execute_action element (intent_of step) step_idx _)) as [|result].
    + exists [EvPerceive step_idx; EvExecute step_idx element]. cbn [fst snd trace].
      split; [now rewrite <- app_assoc|]. split; [discriminate|].
      intros _. split; [reflexivity|]. now exists element.
    + set (st2 := {| world := snd (execute_action element (intent_of step) step_idx _);
                     trace := _ |}).
      destruct (RouterFacts.verify_step_probes (intent_of step) (expected_of step) st2)
        as (evs_v & Hv & Hp).
      unfold emits in Hv.
      exists (([EvPerceive step_idx; EvExecute step_idx element] ++ evs_v)
              ++ [EvPersist (executed_record step_idx step result
                               (fst (verify_step (intent_of step) (expected_of step) st2)));
                  EvSleep])%list.
      cbn [fst snd trace].
      split; [|split; [|discriminate]].
      * rewrite Hv. unfold st2. cbn [trace]. rewrite <- !app_assoc. reflexivity.
      * intros _. rewrite !persisted_app, (persisted_probes evs_v Hp). reflexivity.
  - exists [EvPerceive step_idx; EvPersist (skipped_record step_idx step)].
    cbn [fst snd trace].
    split; [now rewrite <- app_assoc|]. split; [|discriminate].
    intros _. reflexivity.
Qed.

Lemma last_of_app (evs1 evs2 : list Event) (d : Event) :
  evs2 <> [] -> last (evs1 ++ evs2) d = last evs2 d.
Proof.
  intros H. induction evs1 as [|e evs1 IH]; [reflexivity|].
  simpl app. simpl last. rewrite IH.
  destruct (evs1 ++ evs2)%list eqn:E; [|reflexivity].
  apply app_eq_nil in E. destruct E as [_ E]. contradiction.
Qed.

Lemma run_steps_records (plan : list PlanStep) :
  forall (step_idx : Z) (st : St),
  exists evs n,
    emits (run_steps step_idx plan) st evs
    /\ map step_id (persisted evs) = ids_from step_idx n
    /\ (fst (run_steps step_idx plan st) = Completed -> n = List.length plan)
    /\ (fst (run_steps step_idx plan st) = Aborted ->
        (n < List.length plan)%nat
        /\ exists step el, last evs EvSleep = EvExecute step el).
Proof.
  induction plan as [|step rest IH]; intros step_idx st.
  - exists [], 0%nat. split; [apply emits_ret|]. split; [reflexivity|].
    split; [reflexivity | discriminate].
  - simpl run_steps. unfold emits in *. rewrite !bind_run.
    destruct (run_step_records step_idx step st) as (evs1 & E1 & Hok & Hko).
    unfold emits in E1.
    destruct (fst (run_step step_idx step st)) eqn:Ec.
    + destruct (IH (step_idx + 1)%Z (snd (run_step step_idx step st)))
        as (evs2 & n & E2 & Hids & Hc & Ha).
      exists (evs1 ++ evs2)%list, (S n). split; [|split; [|split]].
      * rewrite E2, E1, app_assoc. reflexivity.
      * rewrite persisted_app, map_app, (Hok eq_refl), Hids, ids_from_succ. reflexivity.
      * intros H. simpl. now rewrite (Hc H).
      * intros H. destruct (Ha H) as [Hn (s & el & Hl)]. split; [simpl; lia|].
        exists s, el.
        destruct evs2 as [|e2 evs2']; [discriminate|].
        rewrite last_of_app; [exact Hl | discriminate].
    + destruct (Hko eq_refl) as [Hp (el & Hl)].
      exists evs1, 0%nat. split; [exact E1|]. split; [now rewrite Hp|].
      split; [discriminate|]. intros _. split; [simpl; lia|].
      now exists step_idx, el.
Qed.

(** X22. The step records of a run are numbered 1, 2, 3, ... without gaps,
    one per step in the order of the plan, never more than the plan has
    steps; a run that completes has written one for every step. *)
Theorem step_records_are_numbered (plan : list PlanStep) (st : St) :
  exists n,
    (n <= List.length plan)%nat
    /\ map step_id (persisted (new_events st (snd (run_plan plan st)))) = ids_from 1 n
    /\ (fst (run_plan plan st) = Completed -> n = List.length plan).
Proof.
  unfold run_plan.
  destruct (run_steps_records plan 1 st) as (evs & n & Hev & Hids & Hc & Ha).
  unfold emits in Hev. rewrite (new_events_emitted _ _ _ Hev).
  exists n. split; [|split; [exact Hids | exact Hc]].
  destruct (fst (run_steps 1 plan st)).
  - rewrite (Hc eq_refl). lia.
  - destruct (Ha eq_refl) as [Hlt _]. lia.
Qed.

End Loop.





End RunFacts.

(* ===================================================================== *)
(** ** runner/executor.py *)
(* ===================================================================== *)

Module Executor.

Import PyStr Locator.
Local Open Scope eff_scope.

(** [LABEL_QUOTED_RE.search]: the first match of the quoted-literal
    pattern, trimmed. *)
Fixpoint search_quoted (fuel : nat) (s : string) : option string :=
  match fuel with
  | O => None
  | S fuel' =>
      match s with
      | EmptyString => None
      | String c s' =>
          if Ascii.eqb c squote || Ascii.eqb c dquote then
            match quoted_body c s' with
            | Some (body, _) => Some (strip body)
            | None => search_quoted fuel' s'
            end
          else search_quoted fuel' s'
      end
  end.

Definition _extract_quoted (intent : string) : option string :=
  search_quoted (String.length intent) intent.

(** The longest prefix without a quote character of either kind. *)
Fixpoint span_unquoted (s : string) : string * string :=
  match s with
  | EmptyString => (EmptyString, EmptyString)
  | String c s' =>
      if Ascii.eqb c squote || Ascii.eqb c dquote then (EmptyString, s)
      else let '(body, rest) := span_unquoted s' in (String c body, rest)
  end.

(** The pattern of [ARIA_LABEL_RE] at the start of [s]: the word
    aria-label= in any letter case, a quote, one or more characters that are
    not quotes, a quote. *)
Definition aria_label_at (s : string) : option string :=
  if String.prefix "aria-label=" (lower s) then
    match drop 11 s with
    | String q rest =>
        if Ascii.eqb q squote || Ascii.eqb q dquote then
          match span_unquoted rest with
          | (String c body, String _ _) => Some (strip (String c body))
          | _ => None
          end
        else None
    | EmptyString => None
    end
  else None.

(** [ARIA_LABEL_RE.search]: the leftmost match. *)
Fixpoint search_aria_label (s : string) : option string :=
  match aria_label_at s with
  | Some lbl => Some lbl
  | None =>
      match s with
      | EmptyString => None
      | String _ s' => search_aria_label s'
      end
  end.

Definition _extract_aria_label (intent : string) : option string :=
  search_aria_label intent.

(** [x or d] for a nullable string: an empty string counts as absent. *)
Definition nonempty (o : option string) : option string :=
  match o with
  | Some (String c s) => Some (String c s)
  | _ => None
  end.

(** [(action, value, label)]. *)
Definition _classify_action (intent : string)
  : string * option string * option string :=
  let intent_l := lower intent in
  let quoted := _extract_quoted intent in
  if contains_any ["fill"; "enter"; "type"; "input"] intent_l then
    let value :=
      match nonempty quoted with
      | Some q => q
      | None => if contains "name" intent_l then "Demo Project" else "Test Value"
      end in
    ("fill", Some value, None)
  else if contains_any ["open"; "navigate"; "go to"] intent_l then
    ("open", None, quoted)
  else if contains_any ["click"; "press"; "tap"; "select"; "choose"; "submit";
                        "create"; "save"] intent_l then
    ("click", None, quoted)
  else ("click", None, quoted).

(** The handle the fallback click goes through: a locator by role, with
    the element's text as name when it has one, or a locator by text. *)
Inductive Handle :=
| ByRole (role : string) (name : option string)
| ByText (name : string).

Definition _try_get_handle_by_role (el : Element) : option Handle :=
  let name := strip (or_empty (el_text el)) in
  let tag := lower (or_empty (el_tag el)) in
  let role := lower (or_empty (el_role el)) in
  let named := if truthy name then Some name else None in
  if (role =? "button") || (tag =? "button") then Some (ByRole "button" named)
  else if (role =? "link") || (tag =? "a") then Some (ByRole "link" named)
  else if role =? "dialog" then Some (ByRole "dialog" None)
  else None.

Definition _try_get_handle_by_text (el : Element) : option Handle :=
  let name := strip (or_empty (el_text el)) in
  if truthy name then Some (ByText name) else None.

(** A call of the automation library that may raise, with the message of
    the exception. *)
Inductive Fault :=
| Done
| Failed (msg : string).

(** The page as the executor drives it.  The three click helpers and the
    textbox resolver catch the faults of the library themselves and answer
    with a boolean; the other calls may raise. *)
Class Driver := {
  Screen : Type;
  screenshot : Screen -> Fault * Screen;
  mouse_nudge : Screen -> Screen;
  _try_click_by_aria_label : string -> Screen -> bool * Screen;
  _try_click_menuitem_named : string -> Screen -> bool * Screen;
  _try_click_by_label : string -> Screen -> bool * Screen;
  handle_click : Handle -> Screen -> Fault * Screen;
  center_click : Element -> Screen -> Fault * Screen;
  wait_for_dialog : Screen -> Screen;
  _resolve_textbox : Screen -> bool * Screen;
  textbox_click : Screen -> Screen;
  textbox_fill : string -> Screen -> Fault * Screen;
  keyboard_type : string -> Screen -> Fault * Screen;
  settle : Screen -> Screen
}.

Inductive Call :=
| ShotBefore
| Nudge
| AriaClick (aria_label : string)
| MenuClick (label : string)
| LabelClick (label : string)
| HandleClick (h : Handle)
| CenterClick (el : Element)
| DialogWait
| ResolveTextbox
| TextboxClick
| Fill (value : string)
| TypeKeys (value : string)
| Settle
| ShotAfter
| ShotAfterFailure.

Section Run.

Context {driver : Driver}.

(** The page and the calls made on it, in their order. *)
Definition Run : Type := Screen * list Call.

Definition call (c : Call) (f : Screen -> Screen) (r : Run) : Run :=
  (f (fst r), (snd r ++ [c])%list).

Definition query {A} (c : Call) (f : Screen -> A * Screen) (r : Run) : A * Run :=
  let '(a, s) := f (fst r) in (a, (s, (snd r ++ [c])%list)).

(** The click strategies, in their order of preference; the answer is the
    fault that ends the attempt, if any. *)
Definition perform_click (element : Element) (label aria_label : option string)
  (r : Run) : Fault * Run :=
  let by_aria :=
    match nonempty aria_label with
    | Some a => query (AriaClick a) (_try_click_by_aria_label a) r
    | None => (false, r)
    end in
  if fst by_aria then (Done, snd by_aria)
  else
    let by_menu :=
      match nonempty label with
      | Some l => query (MenuClick l) (_try_click_menuitem_named l) (snd by_aria)
      | None => (false, snd by_aria)
      end in
    if fst by_menu then (Done, snd by_menu)
    else
      let by_label :=
        match nonempty label with
        | Some l => query (LabelClick l) (_try_click_by_label l) (snd by_menu)
        | None => (false, snd by_menu)
        end in
      if fst by_label then (Done, snd by_label)
      else
        let handle :=
          match _try_get_handle_by_role element with
          | Some h => Some h
          | None => _try_get_handle_by_text element
          end in
        match handle with
        | Some h => query (HandleClick h) (handle_click h) (snd by_label)
        | None => query (CenterClick element) (center_click element) (snd by_label)
        end.

Definition perform_fill (value : string) (r : Run) : Fault * Run :=
  let r1 := call DialogWait wait_for_dialog r in
  let '(found, r2) := query ResolveTextbox _resolve_textbox r1 in
  if negb found then (Failed "No textbox found to fill.", r2)
  else
    let r3 := call TextboxClick textbox_click r2 in
    let '(filled, r4) := query (Fill value) (textbox_fill value) r3 in
    match filled with
    | Done => (Done, r4)
    | Failed _ => query (TypeKeys value) (keyboard_type value) r4
    end.

(** [execute_action], from the screenshot before the action on (the step
    directory has been made by then): the result, or [Raised] when the
    exception leaves the function. *)
Definition execute_action (element : Element) (intent : string) (r : Run)
  : ExecOutcome * Run :=
  let '(before, r1) := query ShotBefore screenshot r in
  match before with
  | Failed _ => (Raised, r1)
  | Done =>
      let '(action, value, label) := _classify_action intent in
      let aria_label := _extract_aria_label intent in
      let r2 := call Nudge mouse_nudge r1 in
      let '(done, r3) :=
        if (action =? "click") || (action =? "open") then
          perform_click element label aria_label r2
        else if action =? "fill" then
          perform_fill
            (match nonempty value with Some v => v | None => "Demo Project" end) r2
        else (Done, r2) in
      let '(finished, r5) :=
        match done with
        | Failed msg => (Failed msg, r3)
        | Done =>
            let r4 := call Settle settle r3 in
            query ShotAfter screenshot r4
        end in
      match finished with
      | Done =>
          (Returned {| status := "success"; action := action; label := label;
                       aria_label := aria_label; used_text := el_text element;
                       tag := el_tag element; error := None |}, r5)
      | Failed msg =>
          let '(_, r6) := query ShotAfterFailure screenshot r5 in
          (Returned {| status := "fail"; action := action; label := label;
                       aria_label := aria_label; used_text := el_text element;
                       tag := el_tag element; error := Some msg |}, r6)
      end
  end.

End Run.

End Executor.

(* ===================================================================== *)
(** ** The executor: classification and the flow of [execute_action] *)
(* ===================================================================== *)

Module ExecutorFacts.

Import PyStr Locator Executor.

Lemma search_quoted_is_first (fuel : nat) :
  forall s, search_quoted fuel s = hd_error (finditer_quoted fuel s).
Proof.
  induction fuel as [|fuel IH]; intros s; simpl; [reflexivity|].
  destruct s as [|c s']; [reflexivity|].
  destruct (Ascii.eqb c squote || Ascii.eqb c dquote); [|apply IH].
  destruct (quoted_body c s') as [[body rest]|]; [reflexivity | apply IH].
Qed.

(** X24. The literal the executor takes from an intent (its label for a
    click, its value for a fill) is the first of the literals the locator
    extracts from the same intent, the one the scorer gives its bonus to. *)
Theorem executor_and_locator_read_the_same_literal (intent : string) :
  Executor._extract_quoted intent = hd_error (Locator._extract_quoted intent).
Proof.
  unfold Executor._extract_quoted, Locator._extract_quoted.
  apply search_quoted_is_first.
Qed.

(** X25. An intent is classified as a fill when it mentions fill, enter,
    type or input, else as an open when it mentions open, navigate or go to,
    and else as a click.  A fill always carries a non-empty value (the first
    literal, or a default) and no label; an open or a click carries no value
    and has the first literal as its label. *)
Theorem classification_of_an_intent (intent : string) :
  let '(action, value, label) := _classify_action intent in
  let fills := contains_any ["fill"; "enter"; "type"; "input"] (lower intent) in
  let opens := contains_any ["open"; "navigate"; "go to"] (lower intent) in
  (fills = true /\ action = "fill"
   /\ (exists v, value = Some v /\ v <> "") /\ label = None)
  \/ (fills = false /\ opens = true /\ action = "open"
      /\ value = None /\ label = Executor._extract_quoted intent)
  \/ (fills = false /\ opens = false /\ action = "click"
      /\ value = None /\ label = Executor._extract_quoted intent).
Proof.
  unfold _classify_action. cbv zeta.
  destruct (contains_any ["fill"; "enter"; "type"; "input"] (lower intent)).
  - left. split; [reflexivity|]. split; [reflexivity|]. split; [|reflexivity].
    destruct (nonempty (Executor._extract_quoted intent)) as [q|] eqn:E.
    + exists q. split; [reflexivity|].
      unfold nonempty in E. destruct (Executor._extract_quoted intent) as [[|c s]|];
        try discriminate. injection E as <-. discriminate.
    + destruct (contains "name" (lower intent)); eexists; split;
        try reflexivity; discriminate.
  - destruct (contains_any ["open"; "navigate"; "go to"] (lower intent)).
    + right. left. repeat split.
    + destruct (contains_any ["click"; "press"; "tap"; "select"; "choose";
                              "submit"; "create"; "save"] (lower intent));
        right; right; repeat split.
Qed.

Section Run.

Context {driver : Driver}.

(** The calls a run added. *)
Definition new_calls (r r' : Run) : list Call :=
  skipn (List.length (snd r)) (snd r').

Lemma new_calls_added (r r' : Run) (cs : list Call) :
  snd r' = (snd r ++ cs)%list -> new_calls r r' = cs.
Proof.
  intros H. unfold new_calls. rewrite H.
  now rewrite skipn_app, skipn_all, Nat.sub_diag.
Qed.

Lemma query_calls {A} (c : Call) (f : Screen -> A * Screen) (r : Run) :
  snd (snd (query c f r)) = (snd r ++ [c])%list.
Proof. unfold query. destruct (f (fst r)). reflexivity. Qed.

(** The click strategies open to an element, a label and an aria-label,
    in their order. *)
Definition click_strategies (element : Element) (label aria_label : option string)
  : list Call :=
  (match nonempty aria_label with Some a => [AriaClick a] | None => [] end
   ++ match nonempty label with Some l => [MenuClick l; LabelClick l] | None => [] end
   ++ [match _try_get_handle_by_role element with
       | Some h => HandleClick h
       | None =>
           match _try_get_handle_by_text element with
           | Some h => HandleClick h
           | None => CenterClick element
           end
       end])%list.

(** X26. A click goes through the strategies in a fixed order: by
    aria-label, by menu item, by label, and last through a handle of the
    element or its centre.  The strategies tried are an initial part of that
    list; the attempt stops before the end of the list only on a success,
    and only the last strategy can make it fail. *)
Theorem click_strategies_are_tried_in_order
  (element : Element) (label aria_label : option string) (r : Run) :
  exists tried rest,
    click_strategies element label aria_label = (tried ++ rest)%list
    /\ tried <> []
    /\ snd (snd (perform_click element label aria_label r)) = (snd r ++ tried)%list
    /\ (rest <> [] -> fst (perform_click element label aria_label r) = Done)
    /\ (fst (perform_click element label aria_label r) <> Done -> rest = []).
Proof.
  unfold perform_click, click_strategies. cbv zeta.
  set (last_call :=
         match _try_get_handle_by_role element with
         | Some h => HandleClick h
         | None =>
             match _try_get_handle_by_text element with
             | Some h => HandleClick h
             | None => CenterClick element
             end
         end).
  assert (forall r0 : Run,
             snd (snd (match
                         match _try_get_handle_by_role element with
                         | Some h => Some h
                         | None => _try_get_handle_by_text element
                         end
                       with
                       | Some h => query (HandleClick h) (handle_click h) r0
                       | None => query (CenterClick element) (center_click element) r0
                       end))
             = (snd r0 ++ [last_call])%list) as Hlast.
  { intros r0. unfold last_call.
    destruct (_try_get_handle_by_role element);
      [|destruct (_try_get_handle_by_text element)]; apply query_calls. }
  destruct (nonempty aria_label) as [a|]; destruct (nonempty label) as [l|].
  - pose proof (query_calls (AriaClick a) (_try_click_by_aria_label a) r) as Q1.
    destruct (query (AriaClick a) (_try_click_by_aria_label a) r) as [[|] r1];
      cbn [fst snd] in *.
    + exists [AriaClick a], [MenuClick l; LabelClick l; last_call].
      repeat split; try discriminate; try exact Q1. intros H. now contradiction H.
    + pose proof (query_calls (MenuClick l) (_try_click_menuitem_named l) r1) as Q2.
      destruct (query (MenuClick l) (_try_click_menuitem_named l) r1) as [[|] r2];
        cbn [fst snd] in *.
      * exists [AriaClick a; MenuClick l], [LabelClick l; last_call].
        repeat split; try discriminate.
        -- rewrite Q2, Q1, <- app_assoc. reflexivity.
        -- intros H. now contradiction H.
      * pose proof (query_calls (LabelClick l) (_try_click_by_label l) r2) as Q3.
        destruct (query (LabelClick l) (_try_click_by_label l) r2) as [[|] r3];
          cbn [fst snd] in *.
        -- exists [AriaClick a; MenuClick l; LabelClick l], [last_call].
           repeat split; try discriminate.
           ++ rewrite Q3, Q2, Q1, <- !app_assoc. reflexivity.
           ++ intros H. now contradiction H.
        -- exists [AriaClick a; MenuClick l; LabelClick l; last_call], [].
           repeat split; try discriminate.
           ++ rewrite Hlast, Q3, Q2, Q1, <- !app_assoc. reflexivity.
           ++ intros H. now contradiction H.
  - pose proof (query_calls (AriaClick a) (_try_click_by_aria_label a) r) as Q1.
    destruct (query (AriaClick a) (_try_click_by_aria_label a) r) as [[|] r1];
      cbn [fst snd] in *.
    + exists [AriaClick a], [last_call].
      repeat split; try discriminate; try exact Q1. intros H. now contradiction H.
    + exists [AriaClick a; last_call], [].
      repeat split; try discriminate.
      * rewrite Hlast, Q1, <- !app_assoc. reflexivity.
      * intros H. now contradiction H.
  - cbn [fst snd].
    pose proof (query_calls (MenuClick l) (_try_click_menuitem_named l) r) as Q2.
    destruct (query (MenuClick l) (_try_click_menuitem_named l) r) as [[|] r2];
      cbn [fst snd] in *.
    + exists [MenuClick l], [LabelClick l; last_call].
      repeat split; try discriminate; try exact Q2. intros H. now contradiction H.
    + pose proof (query_calls (LabelClick l) (_try_click_by_label l) r2) as Q3.
      destruct (query (LabelClick l) (_try_click_by_label l) r2) as [[|] r3];
        cbn [fst snd] in *.
      * exists [MenuClick l; LabelClick l], [last_call].
        repeat split; try discriminate.
        -- rewrite Q3, Q2, <- !app_assoc. reflexivity.
        -- intros H. now contradiction H.
      * exists [MenuClick l; LabelClick l; last_call], [].
        repeat split; try discriminate.
        -- rewrite Hlast, Q3, Q2, <- !app_assoc. reflexivity.
        -- intros H. now contradiction H.
  - cbn [fst snd]. exists [last_call], [].
    repeat split; try discriminate.
    + apply Hlast.
    + intros H. now contradiction H.
Qed.

End Run.

End ExecutorFacts.

(* ===================================================================== *)
(** ** The executor: outcomes of [execute_action] *)
(* ===================================================================== *)

Module ExecutorRunFacts.

Import PyStr Locator Executor.

Section Run.

Context {driver : Driver}.

Lemma call_calls (c : Call) (f : Screen -> Screen) (r : Run) :
  snd (call c f r) = (snd r ++ [c])%list.
Proof. reflexivity. Qed.

Lemma query_screen {A} (c : Call) (f : Screen -> A * Screen) (r : Run) :
  fst (snd (query c f r)) = snd (f (fst r)).
Proof. unfold query. destruct (f (fst r)). reflexivity. Qed.

Lemma query_answer {A} (c : Call) (f : Screen -> A * Screen) (r : Run) :
  fst (query c f r) = fst (f (fst r)).
Proof. unfold query. destruct (f (fst r)). reflexivity. Qed.

Lemma perform_click_extends
  (element : Element) (label aria_label : option string) (r : Run) :
  exists cs,
    snd (snd (perform_click element label aria_label r)) = (snd r ++ cs)%list.
Proof.
  unfold perform_click. cbv zeta.
  assert (forall (o : option string) (mk : string -> Call)
                 (f : string -> Screen -> bool * Screen) (r0 : Run),
             exists cs,
               snd (snd (match nonempty o with
                         | Some a => query (mk a) (f a) r0
                         | None => (false, r0)
                         end)) = (snd r0 ++ cs)%list) as Hopt.
  { clear. intros o mk f r0. destruct (nonempty o) as [a|].
    - exists [mk a]. apply ExecutorFacts.query_calls.
    - exists []. now rewrite app_nil_r. }
  destruct (Hopt aria_label AriaClick _try_click_by_aria_label r) as [c1 H1].
  set (by_aria := match nonempty aria_label with
                  | Some a => query (AriaClick a) (_try_click_by_aria_label a) r
                  | None => (false, r)
                  end) in *.
  destruct (fst by_aria); [exists c1; exact H1|].
  destruct (Hopt label MenuClick _try_click_menuitem_named (snd by_aria))
    as [c2 H2].
  set (by_menu := match nonempty label with
                  | Some l => query (MenuClick l) (_try_click_menuitem_named l)
                                (snd by_aria)
                  | None => (false, snd by_aria)
                  end) in *.
  destruct (fst by_menu).
  { exists (c1 ++ c2)%list. cbn [snd]. now rewrite H2, H1, app_assoc. }
  destruct (Hopt label LabelClick _try_click_by_label (snd by_menu)) as [c3 H3].
  set (by_label := match nonempty label with
                   | Some l => query (LabelClick l) (_try_click_by_label l)
                                 (snd by_menu)
                   | None => (false, snd by_menu)
                   end) in *.
  destruct (fst by_label).
  { exists (c1 ++ c2 ++ c3)%list. cbn [snd].
    now rewrite H3, H2, H1, <- !app_assoc. }
  destruct (match _try_get_handle_by_role element with
            | Some h => Some h
            | None => _try_get_handle_by_text element
            end) as [h|].
  - exists (c1 ++ c2 ++ c3 ++ [HandleClick h])%list.
    rewrite ExecutorFacts.query_calls, H3, H2, H1, <- !app_assoc. reflexivity.
  - exists (c1 ++ c2 ++ c3 ++ [CenterClick element])%list.
    rewrite ExecutorFacts.query_calls, H3, H2, H1, <- !app_assoc. reflexivity.
Qed.

Lemma perform_fill_extends (value : string) (r : Run) :
  exists cs, snd (snd (perform_fill value r)) = (snd r ++ cs)%list.
Proof.
  unfold perform_fill. cbv zeta.
  pose proof (ExecutorFacts.query_calls ResolveTextbox _resolve_textbox
                (call DialogWait wait_for_dialog r)) as Q1.
  destruct (query ResolveTextbox _resolve_textbox
              (call DialogWait wait_for_dialog r)) as [found r2].
  cbn [snd] in Q1. rewrite call_calls in Q1.
  destruct found; cbn [negb].
  - pose proof (ExecutorFacts.query_calls (Fill value) (textbox_fill value)
                  (call TextboxClick textbox_click r2)) as Q2.
    destruct (query (Fill value) (textbox_fill value)
                (call TextboxClick textbox_click r2)) as [filled r4].
    cbn [snd] in Q2. rewrite call_calls, Q1 in Q2.
    destruct filled as [|msg].
    + eexists. cbn [snd]. rewrite Q2, <- !app_assoc. reflexivity.
    + eexists. rewrite ExecutorFacts.query_calls, Q2, <- !app_assoc. reflexivity.
  - eexists. cbn [snd]. rewrite Q1, <- !app_assoc. reflexivity.
Qed.

(** The action branch of [execute_action]. *)
Definition perform (element : Element) (intent : string) (r : Run) : Fault * Run :=
  let '(action, value, label) := _classify_action intent in
  if (action =? "click") || (action =? "open") then
    perform_click element label (_extract_aria_label intent) r
  else if action =? "fill" then
    perform_fill
      (match nonempty value with Some v => v | None => "Demo Project" end) r
  else (Done, r).

Lemma perform_extends (element : Element) (intent : string) (r : Run) :
  exists cs, snd (snd (perform element intent r)) = (snd r ++ cs)%list.
Proof.
  unfold perform. destruct (_classify_action intent) as [[action value] label].
  destruct ((action =? "click") || (action =? "open")).
  - apply perform_click_extends.
  - destruct (action =? "fill").
    + apply perform_fill_extends.
    + exists []. now rewrite app_nil_r.
Qed.

(** [execute_action], step by step. *)
Lemma execute_action_unfold (element : Element) (intent : string) (r : Run) :
  execute_action element intent r =
  let shot := query ShotBefore screenshot r in
  match fst shot with
  | Failed _ => (Raised, snd shot)
  | Done =>
      let c := _classify_action intent in
      let done := perform element intent (call Nudge mouse_nudge (snd shot)) in
      let finished :=
        match fst done with
        | Failed msg => (Failed msg, snd done)
        | Done => query ShotAfter screenshot (call Settle settle (snd done))
        end in
      match fst finished with
      | Done =>
          (Returned {| status := "success"; action := fst (fst c);
                       label := snd c;
                       aria_label := _extract_aria_label intent;
                       used_text := el_text element;
                       tag := el_tag element; error := None |}, snd finished)
      | Failed msg =>
          (Returned {| status := "fail"; action := fst (fst c);
                       label := snd c;
                       aria_label := _extract_aria_label intent;
                       used_text := el_text element;
                       tag := el_tag element; error := Some msg |},
           snd (query ShotAfterFailure screenshot (snd finished)))
      end
  end.
Proof.
  unfold execute_action, perform. cbv zeta.
  destruct (query ShotBefore screenshot r) as [before r1]. cbn [fst snd].
  destruct before as [|m]; [|reflexivity].
  destruct (_classify_action intent) as [[action value] label]. cbn [fst snd].
  destruct (if (action =? "click") || (action =? "open")
            then perform_click element label (_extract_aria_label intent)
                   (call Nudge mouse_nudge r1)
            else if action =? "fill"
                 then perform_fill
                        match nonempty value with
                        | Some v => v
                        | None => "Demo Project"
                        end (call Nudge mouse_nudge r1)
                 else (Done, call Nudge mouse_nudge r1)) as [done r3].
  cbn [fst snd].
  destruct done as [|msg]; cbn [fst snd].
  - destruct (query ShotAfter screenshot (call Settle settle r3)) as [fin r5].
    cbn [fst snd]. destruct fin as [|msg]; [reflexivity|].
    destruct (query ShotAfterFailure screenshot r5). reflexivity.
  - destruct (query ShotAfterFailure screenshot r3). reflexivity.
Qed.

(** [execute_action] from the screenshot before the action on (the step
    directory exists by then): the two ways it can end. *)
Lemma execute_action_cases (element : Element) (intent : string) (r : Run) :
  let out := execute_action element intent r in
  match fst out with
  | Raised =>
      fst (screenshot (fst r)) <> Done
      /\ snd (snd out) = (snd r ++ [ShotBefore])%list
  | Returned res =>
      fst (screenshot (fst r)) = Done
      /\ action res = fst (fst (_classify_action intent))
      /\ label res = snd (_classify_action intent)
      /\ aria_label res = _extract_aria_label intent
      /\ used_text res = el_text element
      /\ tag res = el_tag element
      /\ ((status res = "success" /\ error res = None
           /\ exists cs, snd (snd out)
                         = (snd r ++ ShotBefore :: Nudge :: cs ++ [Settle; ShotAfter])%list)
          \/ (status res = "fail" /\ (exists msg, error res = Some msg)
              /\ exists cs, snd (snd out)
                            = (snd r ++ ShotBefore :: Nudge :: cs ++ [ShotAfterFailure])%list))
  end.
Proof.
  cbv zeta. rewrite execute_action_unfold. cbv zeta.
  pose proof (ExecutorFacts.query_calls ShotBefore screenshot r) as Q0.
  pose proof (query_answer ShotBefore screenshot r) as A0.
  destruct (query ShotBefore screenshot r) as [before r1]. cbn [fst snd] in *.
  destruct before as [|m]; cbn [fst snd].
  2:{ split; [|exact Q0]. rewrite <- A0. discriminate. }
  destruct (perform_extends element intent (call Nudge mouse_nudge r1)) as [cs Hcs].
  rewrite call_calls, Q0 in Hcs.
  destruct (perform element intent (call Nudge mouse_nudge r1)) as [done r3].
  cbn [fst snd] in *.
  destruct done as [|msg]; cbn [fst snd].
  - pose proof (ExecutorFacts.query_calls ShotAfter screenshot
                  (call Settle settle r3)) as Q5.
    rewrite call_calls, Hcs in Q5.
    destruct (query ShotAfter screenshot (call Settle settle r3)) as [fin r5].
    cbn [fst snd] in *. destruct fin as [|msg]; cbn [fst snd].
    + split; [now symmetry|]. do 5 (split; [reflexivity|]).
      left. split; [reflexivity|]. split; [reflexivity|].
      exists cs. rewrite Q5, <- !app_assoc. reflexivity.
    + split; [now symmetry|]. do 5 (split; [reflexivity|]).
      right. split; [reflexivity|]. split; [now exists msg|].
      exists (cs ++ [Settle; ShotAfter])%list.
      rewrite ExecutorFacts.query_calls, Q5, <- !app_assoc. reflexivity.
  - split; [now symmetry|]. do 5 (split; [reflexivity|]).
    right. split; [reflexivity|]. split; [now exists msg|].
    exists cs. rewrite ExecutorFacts.query_calls, Hcs, <- !app_assoc. reflexivity.
Qed.

(** X27. Once the screenshot before the action has been taken (the step
    directory exists by then), [execute_action] does not raise any more: it
    returns a result whose action and label are those of the classification
    and whose text and tag are those of the element.  The result is either
    a success without an error, after the wait and the screenshot that
    follow the action, or a failure that carries the message of the fault,
    after the screenshot taken on failure. *)
Theorem execute_action_outcome (element : Element) (intent : string) (r : Run) :
  fst (screenshot (fst r)) = Done ->
  exists res,
    fst (execute_action element intent r) = Returned res
    /\ action res = fst (fst (_classify_action intent))
    /\ label res = snd (_classify_action intent)
    /\ aria_label res = _extract_aria_label intent
    /\ used_text res = el_text element
    /\ tag res = el_tag element
    /\ ((status res = "success" /\ error res = None
         /\ exists cs, snd (snd (execute_action element intent r))
                       = (snd r ++ ShotBefore :: Nudge :: cs ++ [Settle; ShotAfter])%list)
        \/ (status res = "fail" /\ (exists msg, error res = Some msg)
            /\ exists cs, snd (snd (execute_action element intent r))
                          = (snd r ++ ShotBefore :: Nudge :: cs ++ [ShotAfterFailure])%list)).
Proof.
  intros Hshot. pose proof (execute_action_cases element intent r) as H.
  cbv zeta in H.
  destruct (fst (execute_action element intent r)) as [|res].
  - destruct H as [Hne _]. now contradiction Hne.
  - exists res. split; [reflexivity|]. now destruct H as [_ H].
Qed.

(** X28. A fill on a page where no textbox can be resolved fails with the
    message of the executor itself: after the screenshot, the nudge and the
    wait for a dialog the resolver is asked once, and then only the
    screenshot on failure is taken; nothing is filled in or typed. *)
Theorem fill_without_textbox_fails (element : Element) (intent : string) (r : Run) :
  fst (screenshot (fst r)) = Done ->
  contains_any ["fill"; "enter"; "type"; "input"] (lower intent) = true ->
  fst (_resolve_textbox
         (wait_for_dialog (mouse_nudge (snd (screenshot (fst r)))))) = false ->
  exists res,
    fst (execute_action element intent r) = Returned res
    /\ status res = "fail"
    /\ action res = "fill"
    /\ error res = Some "No textbox found to fill."
    /\ ExecutorFacts.new_calls r (snd (execute_action element intent r))
       = [ShotBefore; Nudge; DialogWait; ResolveTextbox; ShotAfterFailure].
Proof.
  intros Hshot Hfill Hnone.
  rewrite execute_action_unfold. cbv zeta.
  pose proof (ExecutorFacts.query_calls ShotBefore screenshot r) as Q0.
  pose proof (query_answer ShotBefore screenshot r) as A0.
  pose proof (query_screen ShotBefore screenshot r) as S0.
  destruct (query ShotBefore screenshot r) as [before r1]. cbn [fst snd] in *.
  rewrite Hshot in A0. subst before. cbn iota.
  unfold perform, _classify_action. cbv zeta. rewrite Hfill. cbn [fst snd].
  change (("fill" =? "click") || ("fill" =? "open")) with false.
  change ("fill" =? "fill") with true. cbv iota.
  unfold perform_fill. cbv zeta.
  set (value := match nonempty (Some _) with Some v => v | None => _ end).
  pose proof (ExecutorFacts.query_calls ResolveTextbox _resolve_textbox
                (call DialogWait wait_for_dialog (call Nudge mouse_nudge r1))) as Q1.
  pose proof (query_answer ResolveTextbox _resolve_textbox
                (call DialogWait wait_for_dialog (call Nudge mouse_nudge r1))) as A1.
  destruct (query ResolveTextbox _resolve_textbox
              (call DialogWait wait_for_dialog (call Nudge mouse_nudge r1)))
    as [found r2].
  cbn [fst snd] in *. unfold call in A1. cbn [fst snd] in A1.
  rewrite S0, Hnone in A1. subst found. cbn [negb fst snd].
  eexists. split; [reflexivity|]. do 3 (split; [reflexivity|]).
  apply ExecutorFacts.new_calls_added.
  rewrite ExecutorFacts.query_calls, Q1. unfold call. cbn [fst snd].
  rewrite Q0, <- !app_assoc. reflexivity.
Qed.

End Run.

(** A page with labelled controls and at most one textbox; every call of
    the automation library goes through. *)
Record Canvas := {
  cv_labels : list string;
  cv_textbox : option string
}.

#[export] Instance canvas_driver : Driver := {
  Screen := Canvas;
  screenshot := fun s => (Done, s);
  mouse_nudge := fun s => s;
  _try_click_by_aria_label := fun _ s => (false, s);
  _try_click_menuitem_named := fun _ s => (false, s);
  _try_click_by_label := fun l s => (existsb (String.eqb l) (cv_labels s), s);
  handle_click := fun _ s => (Done, s);
  center_click := fun _ s => (Done, s);
  wait_for_dialog := fun s => s;
  _resolve_textbox :=
    fun s => (match cv_textbox s with Some _ => true | None => false end, s);
  textbox_click := fun s => s;
  textbox_fill :=
    fun v s => (Done, {| cv_labels := cv_labels s; cv_textbox := Some v |});
  keyboard_type := fun _ s => (Done, s);
  settle := fun s => s
}.

Definition toolbar : Canvas :=
  {| cv_labels := ["Save"; "Help"]; cv_textbox := None |}.

Definition enter_name : string := "Enter 'Acme' as the project name".

Lemma fill_on_toolbar_fails :
  exists res,
    fst (execute_action (driver := canvas_driver)
           Scenario.save_button enter_name (toolbar, [])) = Returned res
    /\ status res = "fail"
    /\ action res = "fill"
    /\ error res = Some "No textbox found to fill."
    /\ ExecutorFacts.new_calls (toolbar, [])
         (snd (execute_action (driver := canvas_driver)
                 Scenario.save_button enter_name (toolbar, [])))
       = [ShotBefore; Nudge; DialogWait; ResolveTextbox; ShotAfterFailure].
Proof.
  apply (fill_without_textbox_fails (driver := canvas_driver)
           Scenario.save_button enter_name (toolbar, [])); reflexivity.
Defined.

Definition page_with_save : Canvas :=
  {| cv_labels := ["Save"; "Help"]; cv_textbox := Some "" |}.

Lemma click_on_save_returns :
  exists res,
    fst (execute_action (driver := canvas_driver) Scenario.save_button
           "Click 'Save'" (page_with_save, [])) = Returned res
    /\ action res = fst (fst (_classify_action "Click 'Save'"))
    /\ label res = snd (_classify_action "Click 'Save'")
    /\ aria_label res = _extract_aria_label "Click 'Save'"
    /\ used_text res = el_text Scenario.save_button
    /\ tag res = el_tag Scenario.save_button
    /\ ((status res = "success" /\ error res = None
         /\ exists cs,
             snd (snd (execute_action (driver := canvas_driver) Scenario.save_button
                         "Click 'Save'" (page_with_save, [])))
             = (snd (page_with_save, @nil Call)
                ++ ShotBefore :: Nudge :: cs ++ [Settle; ShotAfter])%list)
        \/ (status res = "fail" /\ (exists msg, error res = Some msg)
            /\ exists cs,
                snd (snd (execute_action (driver := canvas_driver) Scenario.save_button
                            "Click 'Save'" (page_with_save, [])))
                = (snd (page_with_save, @nil Call)
                   ++ ShotBefore :: Nudge :: cs ++ [ShotAfterFailure])%list)).
Proof.
  apply (execute_action_outcome (driver := canvas_driver) Scenario.save_button
           "Click 'Save'" (page_with_save, [])).
  reflexivity.
Defined.

End ExecutorRunFacts.

(* ===================================================================== *)
(** ** A step that fails, from perception to the step record *)
(* ===================================================================== *)

(** A toolbar whose only control is a Save button that is shown but
    disabled.  A click on it waits for the button to become enabled and
    times out after the 4000 ms the executor allows.  The world is the
    content of the snapshot file; nothing else changes. *)
Module DisabledToolbar.

Import PyStr Locator Executor.

Definition Toolbar : Type := option (list Element).

Definition save_button : Element := Scenario.save_button.

Definition click_timeout : string := "Locator.click: Timeout 4000ms exceeded.".

(** The automation library on that page.  No control has an aria-label and
    there is no menu; the clicks by label all reach the disabled button and
    time out, which the helper swallows; the click through the handle of
    the element times out as well, and nothing swallows that. *)
Definition disabled_toolbar : Driver := {|
  Screen := Toolbar;
  screenshot := fun s => (Done, s);
  mouse_nudge := fun s => s;
  _try_click_by_aria_label := fun _ s => (false, s);
  _try_click_menuitem_named := fun _ s => (false, s);
  _try_click_by_label := fun _ s => (false, s);
  handle_click := fun _ s => (Failed click_timeout, s);
  center_click := fun _ s => (Done, s);
  wait_for_dialog := fun s => s;
  _resolve_textbox := fun s => (false, s);
  textbox_click := fun s => s;
  textbox_fill := fun _ s => (Failed "Timeout 4000ms exceeded.", s);
  keyboard_type := fun _ s => (Done, s);
  settle := fun s => s
|}.

(** What the executor does for the Save step on that page. *)
Definition save_attempt : ExecOutcome * (Toolbar * list Call) :=
  execute_action (driver := disabled_toolbar) save_button "Click 'Save'"
    (Some [save_button], []).

Definition save_attempt_calls : list Call :=
  [ShotBefore; Nudge; MenuClick "Save"; LabelClick "Save";
   HandleClick (ByRole "button" (Some "Save")); ShotAfterFailure].

End DisabledToolbar.

Module FailedStep.

Import PyStr Locator Verifier Recovery Orchestrator DisabledToolbar.

(** The collaborators of the runner on that page: the executor is
    [execute_action] of the executor module, driving the page above. *)
Definition toolbar_surface : Surface := {|
  World := Toolbar;
  page_gentle_stabilize := fun w => w;
  page_close_easy_popups := fun w => w;
  page_press_escape := fun w => w;
  page_wait_for_dialog := fun _ w => (false, w);
  page_dialog_text := fun w => (NoDialog, w);
  capture_perception := fun _ _ => Some [save_button];
  perception_raises := fun _ _ => false;
  read_perception := fun _ w => w;
  execute_action := fun el intent _ w =>
    let '(outcome, run) :=
      Executor.execute_action (driver := disabled_toolbar) el intent (w, []) in
    (outcome, fst run);
  verify_url_contains := fun _ w => (false, w);
  verify_textbox_value := fun _ w => (false, w);
  first_textbox_exists := fun w => (false, w);
  verify_element_exists := fun role name w =>
    ((role =? "button") && (name =? "Save"), w);
  verify_text_visible := fun text w => (text =? "Save", w)
|}.

Definition toolbar : @St toolbar_surface := @Build_St toolbar_surface None [].

Definition save_plan : list PlanStep :=
  [ {| p_intent := Some "Click 'Save'"; p_step := None;
       p_expected_state := Some "'Saved' is visible" |} ].

(** The state in which the orchestrator leaves the page. *)
Definition toolbar_after_run : @St toolbar_surface :=
  snd (run_plan (surface := toolbar_surface) save_plan toolbar).

Definition failed_result : ExecResult :=
  {| status := "fail"; action := "click"; label := Some "Save";
     aria_label := None; used_text := Some "Save"; tag := Some "button";
     error := Some click_timeout |}.

Definition failed_record : StepRecord :=
  {| step_id := 1; r_intent := "Click 'Save'";
     r_expected_state := "'Saved' is visible";
     executor_status := "fail"; verified := false;
     executor_meta :=
       Some {| m_action := "click"; m_used_text := Some "Save";
               m_tag := Some "button"; m_label := Some "Save";
               m_aria_label := None; m_error := Some click_timeout |} |}.

(** C1 on the code. The executor goes through its click strategies on the
    disabled button and reports a failure, and the verification fails too;
    the orchestrator writes that outcome to the step record and goes on.
    Its trace shows no move of the recovery machine, and the record is not
    the terminal result the machine would have given for the step. *)
Theorem failed_step_is_persisted_without_recovery :
  save_attempt = (Returned failed_result, (Some [save_button], save_attempt_calls))
  /\ fst (run_plan (surface := toolbar_surface) save_plan toolbar) = Completed
  /\ trace toolbar_after_run
     = [ EvPerceive 1; EvExecute 1 save_button; EvTextVisible "Saved";
         EvPersist failed_record; EvSleep ]
  /\ OrchestratorFacts.no_recovery (trace toolbar_after_run)
  /\ option_map fst
       (recover_step (surface := toolbar_surface) 3 1 "Click 'Save'"
          "'Saved' is visible" (Some save_button) 1 2 toolbar_after_run)
     = Some {| recovered := false; attempts := 2; result := None |}.
Proof.
  split; [vm_compute; reflexivity|].
  split; [vm_compute; reflexivity|].
  split; [vm_compute; reflexivity|].
  split; vm_compute; reflexivity.
Qed.

End FailedStep.

(* ===================================================================== *)
(** ** Perception: the elements collected from the page *)
(* ===================================================================== *)

Module Perception.

Import PyStr Locator.

(** The answer of one call on an element handle: the call may raise. *)
Inductive Probe (A : Type) :=
| Throws
| Gives (a : A).

Arguments Throws {A}.
Arguments Gives {A} a.

Definition probe_bind {A B} (p : Probe A) (k : A -> Probe B) : Probe B :=
  match p with
  | Throws => Throws
  | Gives a => k a
  end.

Declare Scope probe_scope.
Delimit Scope probe_scope with probe.
Notation "x <- p ;; k" := (probe_bind p (fun x => k))
  (at level 61, p at next level, right associativity) : probe_scope.

Record Box := {
  bx_x : Q;
  bx_y : Q;
  bx_width : Q;
  bx_height : Q
}.

(** An element handle of the page, by the answers it gives. *)
Record Node := {
  is_visible : Probe bool;
  bounding_box : Probe (option Box);
  tag_name : Probe string;
  get_attribute : string -> Probe (option string);
  inner_text : Probe (option string)
}.

(** [round] of a float without digits: the nearest integer, a half goes to
    the even neighbour. *)
Definition py_round (q : Q) : Z :=
  let fl := Qfloor q in
  match Qcompare (q - inject_Z fl) (1 # 2) with
  | Lt => fl
  | Gt => (fl + 1)%Z
  | Eq => if Z.even fl then fl else (fl + 1)%Z
  end.

Local Open Scope probe_scope.

Definition _textish (el : Node) : Probe string :=
  aria <- get_attribute el "aria-label" ;;
  title <- get_attribute el "title" ;;
  txt <- inner_text el ;;
  Gives (if truthy (or_empty aria) then or_empty aria
         else if truthy (or_empty title) then or_empty title
         else strip (or_empty txt)).

(** The key under which an element counts as seen. *)
Definition Key : Type :=
  (string * option string * string * string * string * string * Z * Z)%type.

Definition key_eq_dec (k k' : Key) : {k = k'} + {k <> k'}.
Proof. unfold Key in *. repeat decide equality. Defined.

(** The body of the loop for one element: [Gives None] where the loop
    moves on, [Throws] where a call raises, else the key and the record. *)
Definition describe (el : Node) : Probe (option (Key * Element)) :=
  visible <- is_visible el ;;
  if negb visible then Gives None
  else
    box <- bounding_box el ;;
    match box with
    | None => Gives None
    | Some b =>
        if Qltb (bx_width b) 2 || Qltb (bx_height b) 2 then Gives None
        else
          tag <- tag_name el ;;
          role <- get_attribute el "role" ;;
          aria <- get_attribute el "aria-label" ;;
          title <- get_attribute el "title" ;;
          tooltip <- get_attribute el "data-tooltip" ;;
          textish <- _textish el ;;
          if negb (truthy textish || truthy (or_empty tooltip)) then Gives None
          else
            Gives (Some
              ((tag, role, textish, or_empty aria, or_empty title,
                or_empty tooltip, py_round (bx_x b), py_round (bx_y b)),
               {| el_tag := Some tag; el_role := role;
                  el_text := Some textish;
                  el_aria_label := Some (or_empty aria);
                  el_title := Some (or_empty title);
                  el_tooltip := Some (or_empty tooltip);
                  el_visible := true;
                  el_x := Some (bx_x b); el_y := Some (bx_y b);
                  el_width := Some (bx_width b);
                  el_height := Some (bx_height b) |}))
    end.

(** One turn of the loop over the elements of the page: [seen] and
    [perceived]. *)
Definition collect_step (acc : list Key * list Element) (el : Node)
  : list Key * list Element :=
  match describe el with
  | Gives (Some (key, record)) =>
      if in_dec key_eq_dec key (fst acc) then acc
      else (key :: fst acc, (snd acc ++ [record])%list)
  | _ => acc
  end.

Definition _collect_interactive (elements : list Node) : list Element :=
  snd (fold_left collect_step elements ([], [])).

End Perception.

Module PerceptionFacts.

Import PyStr Locator Perception.

Definition number (o : option Q) : Q :=
  match o with Some q => q | None => 0 end.

(** The key of a record, read back from its fields. *)
Definition key_of (e : Element) : Key :=
  (or_empty (el_tag e), el_role e, or_empty (el_text e),
   or_empty (el_aria_label e), or_empty (el_title e), or_empty (el_tooltip e),
   py_round (number (el_x e)), py_round (number (el_y e))).

(** What the loop checks before it keeps a record. *)
Definition well_formed (e : Element) : Prop :=
  el_visible e = true
  /\ (exists w h, el_width e = Some w /\ el_height e = Some h
                  /\ 2 <= w /\ 2 <= h)
  /\ (exists text tooltip, el_text e = Some text /\ el_tooltip e = Some tooltip
                           /\ (text <> "" \/ tooltip <> "")).

Lemma truthy_nonempty (s : string) : truthy s = true -> s <> "".
Proof. destruct s; [discriminate|]. intros _. discriminate. Qed.

Lemma describe_gives (n : Node) (k : Key) (e : Element) :
  describe n = Gives (Some (k, e)) ->
  is_visible n = Gives true /\ k = key_of e /\ well_formed e.
Proof.
  unfold describe, probe_bind.
  destruct (is_visible n) as [|[|]]; try discriminate. cbn [negb].
  destruct (bounding_box n) as [|[b|]]; try discriminate.
  destruct (Qltb (bx_width b) 2) eqn:Ew; [discriminate|].
  destruct (Qltb (bx_height b) 2) eqn:Eh; [discriminate|]. cbn [orb].
  destruct (tag_name n) as [|tag]; [discriminate|].
  destruct (get_attribute n "role") as [|role]; [discriminate|].
  destruct (get_attribute n "aria-label") as [|aria]; [discriminate|].
  destruct (get_attribute n "title") as [|title]; [discriminate|].
  destruct (get_attribute n "data-tooltip") as [|tooltip]; [discriminate|].
  destruct (_textish n) as [|textish]; [discriminate|].
  destruct (truthy textish || truthy (or_empty tooltip)) eqn:El;
    [|discriminate]. cbn [negb].
  intros H. injection H as <- <-.
  split; [reflexivity|]. split; [reflexivity|].
  split; [reflexivity|]. split.
  - exists (bx_width b), (bx_height b). cbn.
    split; [reflexivity|]. split; [reflexivity|].
    split; now apply LocatorFacts.Qltb_false.
  - exists textish, (or_empty tooltip). cbn.
    split; [reflexivity|]. split; [reflexivity|].
    apply orb_true_iff in El. destruct El as [H|H];
      [left | right]; now apply truthy_nonempty.
Qed.

(** The loop keeps, in [seen], the keys of the records it has appended,
    and appends a record only under a key not seen before. *)
Definition consistent (nodes : list Node) (acc : list Key * list Element) : Prop :=
  (forall k, In k (fst acc) <-> In k (map key_of (snd acc)))
  /\ NoDup (map key_of (snd acc))
  /\ (forall e, In e (snd acc) ->
        well_formed e
        /\ exists n, In n nodes /\ describe n = Gives (Some (key_of e, e))).

Lemma collect_step_consistent (nodes : list Node) acc (n : Node) :
  In n nodes -> consistent nodes acc -> consistent nodes (collect_step acc n).
Proof.
  intros Hn Hacc. pose proof Hacc as (Hseen & Hnd & Hall). unfold collect_step.
  destruct (describe n) as [|[[k e]|]] eqn:D; try exact Hacc.
  destruct (in_dec key_eq_dec k (fst acc)) as [Hin|Hout]; [exact Hacc|].
  destruct (describe_gives _ _ _ D) as (_ & -> & Hwf).
  unfold consistent. cbn [fst snd]. split; [|split].
  - intros k'. rewrite map_app, in_app_iff. cbn [map In]. rewrite <- Hseen.
    tauto.
  - rewrite map_app. cbn [map].
    apply NoDup_app_remove_l with (l := []). cbn [app].
    apply Permutation_NoDup with (l := (key_of e :: map key_of (snd acc))).
    + apply Permutation_cons_append.
    + constructor; [|exact Hnd]. now rewrite <- Hseen.
  - intros e' He'. apply in_app_iff in He'. destruct He' as [He'|[<-|[]]].
    + now apply Hall.
    + split; [exact Hwf|]. now exists n.
Qed.

Lemma fold_consistent (nodes : list Node) :
  forall ns acc,
    incl ns nodes -> consistent nodes acc ->
    consistent nodes (fold_left collect_step ns acc).
Proof.
  induction ns as [|n ns IH]; intros acc Hincl Hacc; [exact Hacc|].
  cbn [fold_left]. apply IH.
  - intros x Hx. apply Hincl. now right.
  - apply collect_step_consistent; [|exact Hacc]. apply Hincl. now left.
Qed.

Lemma collected_consistent (nodes : list Node) :
  consistent nodes (fold_left collect_step nodes ([], [])).
Proof.
  apply fold_consistent; [apply incl_refl|].
  split; [|split].
  - intros k. reflexivity.
  - constructor.
  - intros e [].
Qed.

(** X29. Every record in the perception comes from an element of the page
    that answered every call and is visible; its box is at least two by two
    and its text or its tooltip is not empty. *)
Theorem perceived_records_are_visible_labelled_boxes
  (nodes : list Node) (e : Element) :
  In e (_collect_interactive nodes) ->
  well_formed e
  /\ exists n, In n nodes
               /\ is_visible n = Gives true
               /\ describe n = Gives (Some (key_of e, e)).
Proof.
  intros He. destruct (collected_consistent nodes) as (_ & _ & Hall).
  destruct (Hall e He) as (Hwf & n & Hn & D).
  split; [exact Hwf|]. exists n. split; [exact Hn|]. split; [|exact D].
  now destruct (describe_gives _ _ _ D).
Qed.

(** X30. No two records of the perception agree on tag, role, text,
    aria-label, title, tooltip and the rounded position at once. *)
Theorem perceived_records_are_distinct (nodes : list Node) :
  NoDup (map key_of (_collect_interactive nodes)).
Proof.
  unfold _collect_interactive.
  pose proof (collected_consistent nodes) as Hinv.
  destruct Hinv as (_ & Hnd & _).
  exact Hnd.
Qed.

(** A visible button, the same button reported a second time a fraction of
    a pixel lower, and a hidden link. *)
Definition node (shown : bool) (tg tx : string) (x y w h : Q) : Node :=
  {| is_visible := Gives shown;
     bounding_box := Gives (Some {| bx_x := x; bx_y := y;
                                    bx_width := w; bx_height := h |});
     tag_name := Gives tg;
     get_attribute := fun _ => Gives None;
     inner_text := Gives (Some tx) |}.

Definition page : list Node :=
  [node true "button" " Save " 900 20 80 32;
   node true "button" "Save" 900 (81 # 4) 80 32;
   node false "a" "Help" 1000 20 60 32].

Definition save_record : Element :=
  {| el_tag := Some "button"; el_role := None; el_text := Some "Save";
     el_aria_label := Some ""; el_title := Some ""; el_tooltip := Some "";
     el_visible := true;
     el_x := Some 900; el_y := Some 20;
     el_width := Some 80; el_height := Some 32 |}.

Lemma page_is_perceived_as_one_button :
  _collect_interactive page = [save_record].
Proof. vm_compute. reflexivity. Qed.

Lemma save_record_is_a_visible_labelled_box :
  well_formed save_record
  /\ exists n, In n page
               /\ is_visible n = Gives true
               /\ describe n = Gives (Some (key_of save_record, save_record)).
Proof.
  apply (perceived_records_are_visible_labelled_boxes page save_record).
  rewrite page_is_perceived_as_one_button. now left.
Defined.

End PerceptionFacts.
